(** * Content server of tremulous_web: manifest generation and asset delivery

    A shallow embedding of [tremulous_client/node/web.js] (the content
    server half: [getAssets], [generateManifest], [handleManifest],
    [handleAsset], [main]) together with the parts of the Node.js platform
    it calls ([path], [buffer-crc32], [parseInt], the route regular
    expression, [JSON.stringify], [Date.prototype.toUTCString]).

    JavaScript strings are modelled as [list ascii] (one [ascii] per code
    unit), numbers that are integers as [Z], byte buffers as [list byte]. *)

From Stdlib Require Import String Ascii.
From Stdlib Require Import List NArith ZArith Bool Lia Arith Permutation.
From Stdlib.Strings Require Import Byte.
From Stdlib.Floats Require SpecFloat.
Import ListNotations.

Abbreviation length := Datatypes.length (only parsing).

Set Warnings "-register-all".

Set Implicit Arguments.
Local Open Scope Z_scope.
Local Open Scope list_scope.

(** ** JavaScript strings *)

Definition jsstring := list ascii.

Definition lit (s : string) : jsstring := list_ascii_of_string s.
Arguments lit s%_string.

Definition jsstring_dec : forall a b : jsstring, {a = b} + {a <> b} :=
  list_eq_dec ascii_dec.

(** [a === b] on strings. *)
Definition str_eqb (a b : jsstring) : bool :=
  if jsstring_dec a b then true else false.

(** ** The POSIX flavour of Node's [path] module

    [path] is a Node built-in, not part of the repository; it is modelled
    by what it computes: a path is cut at ['/'] into segments, empty and
    ["."] segments are dropped, a [".."] segment removes the segment before
    it (or is kept, for a relative path that climbs above its start). *)
Module Path.

Definition slash : ascii := "/"%char.
Definition dot : ascii := "."%char.
Definition dotdot : jsstring := [dot; dot].

(** [p.split('/')] *)
Fixpoint split (p : jsstring) : list jsstring :=
  match p with
  | [] => [[]]
  | c :: r =>
      if Ascii.eqb c slash then [] :: split r
      else match split r with
           | seg :: segs => (c :: seg) :: segs
           | [] => [[c]]
           end
  end.

(** [segs.join('/')] *)
Fixpoint unsplit (segs : list jsstring) : jsstring :=
  match segs with
  | [] => []
  | [s] => s
  | s :: rest => s ++ slash :: unsplit rest
  end.

(** One segment of [normalizeString]; [res] is kept as a stack, last
    segment first. *)
Definition norm_step (allowAboveRoot : bool) (res : list jsstring)
           (seg : jsstring) : list jsstring :=
  if str_eqb seg [] || str_eqb seg [dot] then res
  else if str_eqb seg dotdot then
    match res with
    | [] => if allowAboveRoot then [dotdot] else []
    | top :: below =>
        if str_eqb top dotdot
        then (if allowAboveRoot then dotdot :: res else res)
        else below
    end
  else seg :: res.

Definition norm_stack (allowAboveRoot : bool) (p : jsstring)
           (res : list jsstring) : list jsstring :=
  fold_left (norm_step allowAboveRoot) (split p) res.

Definition normalizeString (p : jsstring) (allowAboveRoot : bool) : jsstring :=
  unsplit (rev (norm_stack allowAboveRoot p [])).

Definition isAbsolute (p : jsstring) : bool :=
  match p with
  | c :: _ => Ascii.eqb c slash
  | [] => false
  end.

Definition ends_with_slash (p : jsstring) : bool :=
  match rev p with
  | c :: _ => Ascii.eqb c slash
  | [] => false
  end.

Definition normalize (p : jsstring) : jsstring :=
  match p with
  | [] => [dot]
  | _ =>
      let abs := isAbsolute p in
      let trailingSeparator := ends_with_slash p in
      let q := normalizeString p (negb abs) in
      match q with
      | [] => if abs then [slash]
              else if trailingSeparator then [dot; slash] else [dot]
      | _ =>
          let q' := if trailingSeparator then q ++ [slash] else q in
          if abs then slash :: q' else q'
      end
  end.

(** The non-empty arguments glued with ['/'], [None] for [undefined]. *)
Fixpoint join_args (args : list jsstring) (joined : option jsstring)
  : option jsstring :=
  match args with
  | [] => joined
  | arg :: rest =>
      match arg with
      | [] => join_args rest joined
      | _ =>
          join_args rest
            (match joined with
             | None => Some arg
             | Some j => Some (j ++ slash :: arg)
             end)
      end
  end.

Definition join (args : list jsstring) : jsstring :=
  match join_args args None with
  | None => [dot]
  | Some joined => normalize joined
  end.

(** The loop of [resolve]: the arguments from the last to the first, then
    the working directory, until an absolute one has been prepended. *)
Fixpoint resolve_loop (rargs : list jsstring) (resolvedPath : jsstring)
  : jsstring * bool :=
  match rargs with
  | [] => (resolvedPath, false)
  | p :: rest =>
      match p with
      | [] => resolve_loop rest resolvedPath
      | _ =>
          let resolvedPath' := p ++ slash :: resolvedPath in
          if isAbsolute p then (resolvedPath', true)
          else resolve_loop rest resolvedPath'
      end
  end.

Definition resolve (cwd : jsstring) (args : list jsstring) : jsstring :=
  let '(resolvedPath, resolvedAbsolute) :=
    resolve_loop (rev args ++ [cwd]) [] in
  let r := normalizeString resolvedPath (negb resolvedAbsolute) in
  if resolvedAbsolute then slash :: r
  else match r with [] => [dot] | _ => r end.

(** The segments of a resolved path. *)
Definition segments (p : jsstring) : list jsstring :=
  filter (fun s => negb (str_eqb s [])) (split p).

Fixpoint drop_common (a b : list jsstring) : list jsstring * list jsstring :=
  match a, b with
  | x :: a', y :: b' =>
      if str_eqb x y then drop_common a' b' else (a, b)
  | _, _ => (a, b)
  end.

(** [relative(from, to)]: both are resolved, the common leading segments
    are dropped, one [".."] is emitted per segment left in [from],
    followed by what is left of [to]. *)
Definition relative (cwd frm to : jsstring) : jsstring :=
  if str_eqb frm to then []
  else
    let f := resolve cwd [frm] in
    let t := resolve cwd [to] in
    if str_eqb f t then []
    else
      let '(f', t') := drop_common (segments f) (segments t) in
      unsplit (map (fun _ => dotdot) f' ++ t').

(** The last path component, trailing slashes ignored, reversed. *)
Fixpoint take_until_slash (r : jsstring) : jsstring :=
  match r with
  | [] => []
  | c :: r' => if Ascii.eqb c slash then [] else c :: take_until_slash r'
  end.

Fixpoint drop_slashes (r : jsstring) : jsstring :=
  match r with
  | c :: r' => if Ascii.eqb c slash then drop_slashes r' else r
  | [] => []
  end.

Definition rev_basename (p : jsstring) : jsstring :=
  take_until_slash (drop_slashes (rev p)).

(** Cuts a reversed component at its first dot (the last dot of the
    component): the reversed suffix after that dot and what precedes
    the dot. *)
Fixpoint cut_at_dot (rb : jsstring) : option (jsstring * jsstring) :=
  match rb with
  | [] => None
  | c :: rb' =>
      if Ascii.eqb c dot then Some ([], rb')
      else match cut_at_dot rb' with
           | Some (ext, before) => Some (c :: ext, before)
           | None => None
           end
  end.

(** [extname(p)]: from the last dot of the last component to its end;
    empty when there is no dot, when the dot starts the component, or
    when the component is [".."]. *)
Definition extname (p : jsstring) : jsstring :=
  let rb := rev_basename p in
  if str_eqb rb dotdot then []
  else match cut_at_dot rb with
       | None => []
       | Some (_, []) => []
       | Some (rext, _ :: _) => dot :: rev rext
       end.

End Path.

(** ** 32-bit integer operators of JavaScript *)

Definition ToInt32 (z : Z) : Z := (z + 2 ^ 31) mod 2 ^ 32 - 2 ^ 31.
Definition ToUint32 (z : Z) : Z := z mod 2 ^ 32.

(** [a ^ b], [a & b], [a >>> n] *)
Definition js_xor (a b : Z) : Z := ToInt32 (Z.lxor (ToInt32 a) (ToInt32 b)).
Definition js_and (a b : Z) : Z := ToInt32 (Z.land (ToInt32 a) (ToInt32 b)).
Definition js_ushr (a n : Z) : Z := Z.shiftr (ToUint32 a) n.

(** ** The [buffer-crc32] package

    A dependency of the repository: the table-driven CRC-32 (reflected
    polynomial [0xEDB88320]) over a buffer, continued from an optional
    previous value. *)
Module crc32.

Definition table_entry (n : Z) : Z :=
  Nat.iter 8
    (fun c => if Z.odd c then Z.lxor 0xEDB88320 (Z.shiftr c 1)
              else Z.shiftr c 1)
    n.

Definition CRC_TABLE : list Z :=
  Eval vm_compute in map (fun n => table_entry (Z.of_nat n)) (seq 0 256).

Definition byte_val (b : byte) : Z := Z.of_N (Byte.to_N b).

(** The loop body: [crc = CRC_TABLE[(crc ^ buf[n]) & 0xff] ^ (crc >>> 8)] *)
Definition update (crc : Z) (b : byte) : Z :=
  js_xor (nth (Z.to_nat (js_and (js_xor crc (byte_val b)) 0xff)) CRC_TABLE 0)
         (js_ushr crc 8).

(** [_crc32(buf, previous)]; a missing [previous] is [undefined], which
    [~~] turns into 0. *)
Definition _crc32 (buf : list byte) (previous : option Z) : Z :=
  let previous := match previous with Some p => p | None => 0 end in
  let crc := js_xor (ToInt32 previous) (-1) in
  let crc := fold_left update buf crc in
  js_xor crc (-1).

(** [crc32.unsigned(buf, previous)]: [_crc32(...) >>> 0] *)
Definition unsigned (buf : list byte) (previous : option Z) : Z :=
  js_ushr (_crc32 buf previous) 0.

End crc32.

(** ** The zlib gzip stream

    [zlib.createGzip()] gives a transform stream: each [write] may hand
    back any number of output buffers (delivered as ['data'] events), and
    [end] hands back the rest.  The encoder itself belongs to Node; the
    server only counts what it emits, so it is taken as an interface. *)
Record Gzip : Type := {
  gz_state : Type;
  createGzip : gz_state;
  gz_write : gz_state -> list byte -> gz_state * list (list byte);
  gz_end : gz_state -> list (list byte)
}.

(** Everything the encoder emits for a sequence of writes followed by
    [end], in order. *)
Fixpoint gz_run (G : Gzip) (st : gz_state G) (chunks : list (list byte))
  : list (list byte) :=
  match chunks with
  | [] => gz_end G st
  | c :: rest =>
      let written := gz_write G st c in
      snd written ++ gz_run G (fst written) rest
  end.

Definition gz_output (G : Gzip) (chunks : list (list byte)) : list byte :=
  concat (gz_run G (createGzip G) chunks).

(** ** Configuration *)

Record Config : Type := {
  root : jsstring;
  port : Z;
  (** [None] stands for a falsy value (absent after a [null] override). *)
  config_validAssets : option (list jsstring)
}.

Definition default_validAssets : list jsstring :=
  [lit ".pk3"; lit ".run"; lit ".sh"; lit ".qvm"].

(** [loadConfig]: the defaults, overwritten by the keys the configuration
    file defines ([None] when it could not be loaded). *)
Record ConfigFile : Type := {
  file_root : option jsstring;
  file_port : option Z;
  file_validAssets : option (option (list jsstring))
}.

Definition loadConfig (data : option ConfigFile) : Config :=
  let config :=
    {| root := lit "pk3_assets"; port := 9000;
       config_validAssets := Some default_validAssets |} in
  match data with
  | None => config
  | Some d =>
      {| root := match file_root d with Some r => r | None => root config end;
         port := match file_port d with Some p => p | None => port config end;
         config_validAssets :=
           match file_validAssets d with
           | Some v => v
           | None => config_validAssets config
           end |}
  end.

(** [var validAssets = config.validAssets || ['.pk3', '.run', '.sh', '.qvm']] *)
Definition validAssets (config : Config) : list jsstring :=
  match config_validAssets config with
  | Some l => l
  | None => default_validAssets
  end.

(** ** The content root as [fs.readdirSync(dir, { withFileTypes: true })]
    shows it *)

Inductive dirent : Type :=
| File : dirent                                   (* isFile() *)
| Directory : list (jsstring * dirent) -> dirent  (* isDirectory() *)
| Other : dirent.                                 (* symlink, socket, ... *)

(** [validAssets.indexOf(ext) !== -1] *)
Fixpoint indexOf_found (l : list jsstring) (x : jsstring) : bool :=
  match l with
  | [] => false
  | y :: l' => if str_eqb y x then true else indexOf_found l' x
  end.

Section Discovery.

(** [process.cwd()] and the configuration. *)
Variable cwd : jsstring.
Variable config : Config.

(** One turn of the loop of [readDirRecursive] on the entry [entry] whose
    [fullPath] is given; [files] is the array the closure pushes to. *)
Fixpoint visit (fullPath : jsstring) (entry : dirent) (files : list jsstring)
  {struct entry} : list jsstring :=
  match entry with
  | Directory entries =>
      fold_left
        (fun files (e : jsstring * dirent) =>
           visit (Path.join [fullPath; fst e]) (snd e) files)
        entries files
  | File => files ++ [Path.relative cwd (root config) fullPath]
  | Other => files
  end.

Definition readDirRecursive (dir : jsstring)
           (entries : list (jsstring * dirent)) (files : list jsstring)
  : list jsstring :=
  fold_left
    (fun files (e : jsstring * dirent) =>
       visit (Path.join [dir; fst e]) (snd e) files)
    entries files.

(** [getAssets()], on the entries of the content root. *)
Definition getAssets (entries : list (jsstring * dirent)) : list jsstring :=
  let files := readDirRecursive (root config) entries [] in
  map (fun file => Path.join [root config; file])
      (filter (fun file => indexOf_found (validAssets config) (Path.extname file))
              files).

End Discovery.

(** ** Manifest entries: the object literal handed to [cb] *)

Record ManifestEntry : Type := {
  name : jsstring;
  compressed : Z;
  checksum : Z
}.

(** ** [generateManifest]: the per-file pipelines and their events

    Node runs one handler at a time, to completion.  A build is therefore a
    sequence of handler runs, each started by one event of one file's
    read stream or gzip stream; the order of the events of different
    files is chosen by the environment. *)

Inductive stream_state : Type := Flowing | Ended | Failed.

Inductive event : Type :=
| StreamData (i : nat) (data : list byte)   (* stream.on('data') of asset i *)
| StreamEnd (i : nat)                       (* stream.on('end') *)
| StreamError (i : nat) (err : jsstring)    (* stream.on('error') *)
| GzipData (i : nat)                        (* gzip.on('data'), next buffer *)
| GzipEnd (i : nat).                        (* gzip.on('end') *)

(** What [generateManifest] passes to its [callback]. *)
Inductive callback_args : Type :=
| CallbackErr (err : jsstring)
| CallbackOk (entries : list ManifestEntry).

Section Build.

Variable G : Gzip.
Variable cwd : jsstring.
Variable config : Config.

(** The variables of one iteratee closure, and the state of its streams. *)
Record Pipeline : Type := {
  v_file : jsstring;
  v_name : jsstring;
  v_crc : Z;
  v_compressed : Z;
  v_size : Z;
  v_stream : stream_state;
  v_gzip : gz_state G;
  (** [gzip.end()] has been called *)
  v_gzip_ending : bool;
  (** buffers the encoder has produced whose ['data'] event is pending *)
  v_gzip_out : list (list byte);
  (** the entry given to [cb], once [gzip] has ended *)
  v_result : option ManifestEntry
}.

(** The iteratee up to the registration of its handlers. *)
Definition iteratee (file : jsstring) : Pipeline :=
  {| v_file := file;
     v_name := Path.relative cwd (root config) file;
     v_crc := crc32.unsigned [] None;
     v_compressed := 0;
     v_size := 0;
     v_stream := Flowing;
     v_gzip := createGzip G;
     v_gzip_ending := false;
     v_gzip_out := [];
     v_result := None |}.

(** [stream.on('data', ...)] *)
Definition on_stream_data (p : Pipeline) (data : list byte) : Pipeline :=
  let written := gz_write G (v_gzip p) data in
  {| v_file := v_file p;
     v_name := v_name p;
     v_crc := crc32.unsigned data (Some (v_crc p));
     v_compressed := v_compressed p;
     v_size := v_size p + Z.of_nat (length data);
     v_stream := v_stream p;
     v_gzip := fst written;
     v_gzip_ending := v_gzip_ending p;
     v_gzip_out := v_gzip_out p ++ snd written;
     v_result := v_result p |}.

(** [stream.on('end', ...)]: [gzip.end()] *)
Definition on_stream_end (p : Pipeline) : Pipeline :=
  {| v_file := v_file p;
     v_name := v_name p;
     v_crc := v_crc p;
     v_compressed := v_compressed p;
     v_size := v_size p;
     v_stream := Ended;
     v_gzip := v_gzip p;
     v_gzip_ending := true;
     v_gzip_out := v_gzip_out p ++ gz_end G (v_gzip p);
     v_result := v_result p |}.

(** The read stream is destroyed by its error. *)
Definition on_stream_error (p : Pipeline) : Pipeline :=
  {| v_file := v_file p;
     v_name := v_name p;
     v_crc := v_crc p;
     v_compressed := v_compressed p;
     v_size := v_size p;
     v_stream := Failed;
     v_gzip := v_gzip p;
     v_gzip_ending := v_gzip_ending p;
     v_gzip_out := v_gzip_out p;
     v_result := v_result p |}.

(** [gzip.on('data', ...)] for the buffer [data], the rest still pending *)
Definition on_gzip_data (p : Pipeline) (data : list byte)
           (pending : list (list byte)) : Pipeline :=
  {| v_file := v_file p;
     v_name := v_name p;
     v_crc := v_crc p;
     v_compressed := v_compressed p + Z.of_nat (length data);
     v_size := v_size p;
     v_stream := v_stream p;
     v_gzip := v_gzip p;
     v_gzip_ending := v_gzip_ending p;
     v_gzip_out := pending;
     v_result := v_result p |}.

(** [gzip.on('end', ...)]: the entry given to [cb] *)
Definition entry_of (p : Pipeline) : ManifestEntry :=
  {| name := v_name p; compressed := v_compressed p; checksum := v_crc p |}.

Definition on_gzip_end (p : Pipeline) : Pipeline :=
  {| v_file := v_file p;
     v_name := v_name p;
     v_crc := v_crc p;
     v_compressed := v_compressed p;
     v_size := v_size p;
     v_stream := v_stream p;
     v_gzip := v_gzip p;
     v_gzip_ending := v_gzip_ending p;
     v_gzip_out := v_gzip_out p;
     v_result := Some (entry_of p) |}.

(** [arr[i] = v] on an index that exists. *)
Fixpoint set_nth {A} (i : nat) (v : A) (l : list A) : list A :=
  match l, i with
  | [], _ => []
  | _ :: l', O => v :: l'
  | x :: l', S i' => x :: set_nth i' v l'
  end.

(** The results [async.map] has collected: all of them, in the order of
    the assets, once every [cb] has been called. *)
Fixpoint collect (ps : list Pipeline) : option (list ManifestEntry) :=
  match ps with
  | [] => Some []
  | p :: ps' =>
      match v_result p, collect ps' with
      | Some e, Some es => Some (e :: es)
      | _, _ => None
      end
  end.

(** The pipelines [async.map] has started and has not heard back from. *)
Definition in_flight (ps : list Pipeline) : nat :=
  length (filter (fun p => match v_result p with None => true | Some _ => false end) ps).

(** One handler run inside [generateManifest]: the new pipelines and the
    call of [callback] it makes, if any.  [None] when the event cannot
    happen in this state (no such stream, a stream that has ended or
    failed, no buffer pending, ...). *)
Definition handle_event (ps : list Pipeline) (ev : event)
  : option (list Pipeline * option callback_args) :=
  match ev with
  | StreamData i data =>
      match nth_error ps i with
      | Some p =>
          match v_stream p with
          | Flowing => Some (set_nth i (on_stream_data p data) ps, None)
          | _ => None
          end
      | None => None
      end
  | StreamEnd i =>
      match nth_error ps i with
      | Some p =>
          match v_stream p with
          | Flowing => Some (set_nth i (on_stream_end p) ps, None)
          | _ => None
          end
      | None => None
      end
  | StreamError i err =>
      match nth_error ps i with
      | Some p =>
          match v_stream p with
          | Flowing =>
              (* callback(err) *)
              Some (set_nth i (on_stream_error p) ps, Some (CallbackErr err))
          | _ => None
          end
      | None => None
      end
  | GzipData i =>
      match nth_error ps i with
      | Some p =>
          match v_gzip_out p with
          | data :: pending =>
              Some (set_nth i (on_gzip_data p data pending) ps, None)
          | [] => None
          end
      | None => None
      end
  | GzipEnd i =>
      match nth_error ps i with
      | Some p =>
          match v_gzip_ending p, v_gzip_out p, v_result p with
          | true, [], None =>
              let ps' := set_nth i (on_gzip_end p) ps in
              (* cb(null, entry); async.map calls back once all are in *)
              Some (ps', option_map CallbackOk (collect ps'))
          | _, _, _ => None
          end
      | None => None
      end
  end.

(** [generateManifest(callback)] up to its return: the assets are
    discovered, every iteratee is started; with no asset at all
    [async.map] calls back at once with an empty array. *)
Definition generateManifest (entries : list (jsstring * dirent))
  : list Pipeline * option callback_args :=
  let assets := getAssets cwd config entries in
  let ps := map iteratee assets in
  (ps, match ps with [] => Some (CallbackOk []) | _ => None end).

(** ** [main]: the module variables and the server *)

Record Server : Type := {
  currentManifestTimestamp : option Z;   (* [undefined] until published *)
  currentManifest : option (list ManifestEntry);
  listening : bool;                      (* [server.listen] was called *)
  uncaught : option jsstring;            (* an exception ended the process *)
  (** [var start = Date.now()] of [generateManifest] *)
  start : Z;
  pipelines : list Pipeline
}.

(** The callback [main] gives to [generateManifest], run at time [now]. *)
Definition main_callback (now : Z) (s : Server) (args : callback_args) : Server :=
  match args with
  | CallbackErr err =>
      (* if (err) throw err; *)
      {| currentManifestTimestamp := currentManifestTimestamp s;
         currentManifest := currentManifest s;
         listening := listening s;
         uncaught := Some err;
         start := start s;
         pipelines := pipelines s |}
  | CallbackOk manifest =>
      {| currentManifestTimestamp := Some now;   (* new Date() *)
         currentManifest := Some manifest;
         listening := true;
         uncaught := uncaught s;
         start := start s;
         pipelines := pipelines s |}
  end.

Definition with_pipelines (s : Server) (ps : list Pipeline) : Server :=
  {| currentManifestTimestamp := currentManifestTimestamp s;
     currentManifest := currentManifest s;
     listening := listening s;
     uncaught := uncaught s;
     start := start s;
     pipelines := ps |}.

Definition after_callback (now : Z) (s : Server) (call : option callback_args)
  : Server :=
  match call with
  | Some args => main_callback now s args
  | None => s
  end.

(** [main()], called at time [now] on a content root holding [entries]. *)
Definition main (now : Z) (entries : list (jsstring * dirent)) : Server :=
  let '(ps, call) := generateManifest entries in
  after_callback now
    {| currentManifestTimestamp := None;
       currentManifest := None;
       listening := false;
       uncaught := None;
       start := now;
       pipelines := ps |}
    call.

(** One event delivered at time [now].  A process ended by an uncaught
    exception runs no further handler. *)
Definition deliver (s : Server) (tev : Z * event) : option Server :=
  match uncaught s with
  | Some _ => Some s
  | None =>
      match handle_event (pipelines s) (snd tev) with
      | Some (ps, call) =>
          Some (after_callback (fst tev) (with_pipelines s ps) call)
      | None => None
      end
  end.

Fixpoint run (s : Server) (schedule : list (Z * event)) : option Server :=
  match schedule with
  | [] => Some s
  | tev :: rest =>
      match deliver s tev with
      | Some s' => run s' rest
      | None => None
      end
  end.

(** The server answers requests: it listens and has not died. *)
Definition serving (s : Server) : bool :=
  listening s && match uncaught s with None => true | Some _ => false end.

End Build.

(** ** JSON values and [JSON.stringify] *)

Inductive json : Type :=
| JNumber (z : Z)
| JString (s : jsstring)
| JArray (elements : list json)
| JObject (members : list (jsstring * json)).

Definition digit_char (d : Z) : ascii := ascii_of_N (48 + Z.to_N d).

(** The decimal digits of a natural number, most significant first; [fuel]
    bounds their number. *)
Fixpoint digits_of (fuel : nat) (n : Z) : jsstring :=
  match fuel with
  | O => []
  | S fuel' =>
      if n <? 10 then [digit_char n]
      else digits_of fuel' (n / 10) ++ [digit_char (n mod 10)]
  end.

(** The decimal spelling of an integer, as [Number.prototype.toString]
    gives it for the integers below [1e21]. *)
Definition decimal (z : Z) : jsstring :=
  if z <? 0 then "-"%char :: digits_of (S (Z.to_nat (Z.log2 (- z)))) (- z)
  else digits_of (S (Z.to_nat (Z.log2 z))) z.

Definition hex_digit (n : N) : ascii :=
  nth (N.to_nat n) (lit "0123456789abcdef") "0"%char.

Definition dquote : ascii := ascii_of_nat 34.
Definition backslash : ascii := ascii_of_nat 92.

(** One code unit inside a JSON string literal. *)
Definition quote_char (c : ascii) : jsstring :=
  let n := N_of_ascii c in
  if Ascii.eqb c dquote then [backslash; dquote]
  else if Ascii.eqb c backslash then [backslash; backslash]
  else if (n =? 8)%N then lit "\b"
  else if (n =? 9)%N then lit "\t"
  else if (n =? 10)%N then lit "\n"
  else if (n =? 12)%N then lit "\f"
  else if (n =? 13)%N then lit "\r"
  else if (n <? 32)%N then lit "\u00" ++ [hex_digit (n / 16); hex_digit (n mod 16)]
  else [c].

Definition quote (s : jsstring) : jsstring :=
  dquote :: flat_map quote_char s ++ [dquote].

Fixpoint commas (l : list jsstring) : jsstring :=
  match l with
  | [] => []
  | [x] => x
  | x :: rest => x ++ ","%char :: commas rest
  end.

Fixpoint stringify (v : json) : jsstring :=
  match v with
  | JNumber z => decimal z
  | JString s => quote s
  | JArray elements => "["%char :: commas (map stringify elements) ++ ["]"%char]
  | JObject members =>
      "{"%char ::
      commas (map (fun m => quote (fst m) ++ ":"%char :: stringify (snd m)) members)
      ++ ["}"%char]
  end.

(** The object literal [{ name: name, compressed: compressed, checksum: crc }]
    as [JSON.stringify] walks it: own keys in insertion order. *)
Definition entry_json (e : ManifestEntry) : json :=
  JObject [(lit "name", JString (name e));
           (lit "compressed", JNumber (compressed e));
           (lit "checksum", JNumber (checksum e))].

(** ** [Date.prototype.toUTCString]

    A [Date] is its time value, the milliseconds since the epoch. *)
Module Date.

Definition msPerDay : Z := 86400000.

Definition Day (t : Z) : Z := t / msPerDay.
Definition WeekDay (t : Z) : Z := (Day t + 4) mod 7.

(** Year, month (1..12) and day of the month of a day number. *)
Definition civil (days : Z) : Z * Z * Z :=
  let z := days + 719468 in
  let era := z / 146097 in
  let doe := z - era * 146097 in
  let yoe := (doe - doe / 1460 + doe / 36524 - doe / 146096) / 365 in
  let doy := doe - (365 * yoe + yoe / 4 - yoe / 100) in
  let mp := (5 * doy + 2) / 153 in
  let d := doy - (153 * mp + 2) / 5 + 1 in
  let m := if mp <? 10 then mp + 3 else mp - 9 in
  let y := yoe + era * 400 + (if m <=? 2 then 1 else 0) in
  (y, m, d).

Definition pad (width : nat) (z : Z) : jsstring :=
  let d := decimal z in
  repeat "0"%char (width - length d) ++ d.

Definition day_names : list jsstring :=
  [lit "Sun"; lit "Mon"; lit "Tue"; lit "Wed"; lit "Thu"; lit "Fri"; lit "Sat"].
Definition month_names : list jsstring :=
  [lit "Jan"; lit "Feb"; lit "Mar"; lit "Apr"; lit "May"; lit "Jun";
   lit "Jul"; lit "Aug"; lit "Sep"; lit "Oct"; lit "Nov"; lit "Dec"].

Definition toUTCString (t : Z) : jsstring :=
  let '(y, m, d) := civil (Day t) in
  let s := (t mod msPerDay) / 1000 in
  nth (Z.to_nat (WeekDay t)) day_names [] ++ lit ", " ++
  pad 2 d ++ lit " " ++
  nth (Z.to_nat (m - 1)) month_names [] ++ lit " " ++
  (if y <? 0 then lit "-" else []) ++ pad 4 (Z.abs y) ++ lit " " ++
  pad 2 (s / 3600) ++ lit ":" ++
  pad 2 (s / 60 mod 60) ++ lit ":" ++
  pad 2 (s mod 60) ++ lit " GMT".

End Date.

(** ** Numbers as [parseInt] returns them *)

Inductive number : Type :=
| NaN
| Infinity
| NegInfinity
| Num (z : Z).         (* a finite integer value *)

(** [a === b] on numbers. *)
Definition num_eqb (a b : number) : bool :=
  match a, b with
  | Num x, Num y => x =? y
  | Infinity, Infinity => true
  | NegInfinity, NegInfinity => true
  | _, _ => false
  end.

(** The double nearest to a non-negative integer (ties to even). *)
Definition round_to_double (v : Z) : number :=
  if v <? 2 ^ 53 then Num v
  else
    let e := Z.log2 v - 52 in
    let q := Z.shiftr v e in
    let r := v - Z.shiftl q e in
    let half := 2 ^ (e - 1) in
    let q' := if r <? half then q
              else if half <? r then q + 1
              else if Z.even q then q else q + 1 in
    let x := Z.shiftl q' e in
    if 2 ^ 1024 <=? x then Infinity else Num x.

Definition is_digit (c : ascii) : bool :=
  let n := N_of_ascii c in ((48 <=? n) && (n <=? 57))%N.

Definition digit_value (c : ascii) : Z := Z.of_N (N_of_ascii c) - 48.

Definition is_whitespace (c : ascii) : bool :=
  let n := N_of_ascii c in
  (((9 <=? n) && (n <=? 13)) || (n =? 32) || (n =? 160))%N.

Fixpoint trim_start (s : jsstring) : jsstring :=
  match s with
  | c :: s' => if is_whitespace c then trim_start s' else s
  | [] => []
  end.

(** The longest prefix of decimal digits. *)
Fixpoint digits_prefix (s : jsstring) : jsstring :=
  match s with
  | c :: s' => if is_digit c then c :: digits_prefix s' else []
  | [] => []
  end.

(** The integer a run of digits spells. *)
Definition decimal_value (ds : jsstring) : Z :=
  fold_left (fun acc c => 10 * acc + digit_value c) ds 0.

Definition negate (n : number) : number :=
  match n with
  | NaN => NaN
  | Infinity => NegInfinity
  | NegInfinity => Infinity
  | Num z => Num (- z)
  end.

(** [parseInt(string, 10)] *)
Definition parseInt10 (s : jsstring) : number :=
  let s := trim_start s in
  let '(negative, s) :=
    match s with
    | c :: s' =>
        if Ascii.eqb c "-"%char then (true, s')
        else if Ascii.eqb c "+"%char then (false, s')
        else (false, s)
    | [] => (false, s)
    end in
  match digits_prefix s with
  | [] => NaN
  | ds =>
      let n := round_to_double (decimal_value ds) in
      if negative then negate n else n
  end.

(** ** UTF-16 code units

    The strings of the model ([jsstring]) are strings of code units below
    256: every request path is one, and so are the file names the model
    covers.  [decodeURIComponent] can produce strings with other code
    units; those are kept as lists of numbers. *)
Definition wstring : Type := list N.

Definition widen (s : jsstring) : wstring := map N_of_ascii s.

(** The string of the model a list of code units is, if it is one. *)
Fixpoint narrow (w : wstring) : option jsstring :=
  match w with
  | [] => Some []
  | u :: w' =>
      if (u <? 256)%N then option_map (cons (ascii_of_N u)) (narrow w')
      else None
  end.

(** ** The route [/^\/assets\/(.+\/|)(\d+)-(.+?)$/]

    A backtracking matcher in continuation style: each piece of the
    expression tries its alternatives in the order the regular expression
    engine does and hands what it matched, and the rest of the input, to
    the pieces after it. *)
Module Route.

Section Matcher.
Variable R : Type.

(** [.] matches anything but a line terminator. *)
Definition any_char (c : ascii) : bool :=
  let n := N_of_ascii c in negb ((n =? 10) || (n =? 13))%N.

(** [cls+], greedy: the longest run first. *)
Fixpoint plus_greedy (cls : ascii -> bool)
         (k : jsstring -> jsstring -> option R) (s : jsstring) : option R :=
  match s with
  | [] => None
  | c :: s' =>
      if cls c then
        match plus_greedy cls (fun m rest => k (c :: m) rest) s' with
        | Some r => Some r
        | None => k [c] s'
        end
      else None
  end.

(** [cls+?], lazy: the shortest run first. *)
Fixpoint plus_lazy (cls : ascii -> bool)
         (k : jsstring -> jsstring -> option R) (s : jsstring) : option R :=
  match s with
  | [] => None
  | c :: s' =>
      if cls c then
        match k [c] s' with
        | Some r => Some r
        | None => plus_lazy cls (fun m rest => k (c :: m) rest) s'
        end
      else None
  end.

(** A literal character. *)
Definition char (c : ascii) (k : jsstring -> option R) (s : jsstring)
  : option R :=
  match s with
  | c' :: s' => if Ascii.eqb c' c then k s' else None
  | [] => None
  end.

(** A literal string. *)
Fixpoint literal (l : jsstring) (k : jsstring -> option R) (s : jsstring)
  : option R :=
  match l with
  | [] => k s
  | c :: l' => char c (literal l' k) s
  end.

(** [a|b] *)
Definition alt (a b : jsstring -> option R) (s : jsstring) : option R :=
  match a s with
  | Some r => Some r
  | None => b s
  end.

(** [$] *)
Definition eos (r : R) (s : jsstring) : option R :=
  match s with
  | [] => Some r
  | _ :: _ => None
  end.
End Matcher.

(** The three captures of the asset route, or [None] when the path does
    not match. *)
Definition asset (path : jsstring) : option (jsstring * jsstring * jsstring) :=
  let tail (basedir : jsstring) :=
    plus_greedy is_digit
      (fun checksum =>
         char "-"%char
           (plus_lazy any_char (fun basename => eos (basedir, checksum, basename)))) in
  literal (lit "/assets/")
    (alt (plus_greedy any_char
            (fun m => char Path.slash (tail (m ++ [Path.slash]))))
         (tail []))
    path.

Definition hex_value (c : ascii) : option N :=
  let n := N_of_ascii c in
  if ((48 <=? n) && (n <=? 57))%N then Some (n - 48)%N
  else if ((65 <=? n) && (n <=? 70))%N then Some (n - 55)%N
  else if ((97 <=? n) && (n <=? 102))%N then Some (n - 87)%N
  else None.

(** The byte of the escape [%XX] that starts [s], and what follows it. *)
Definition escape (s : jsstring) : option (N * jsstring) :=
  match s with
  | c :: h :: l :: rest =>
      if Ascii.eqb c "%"%char then
        match hex_value h, hex_value l with
        | Some a, Some b => Some (16 * a + b, rest)%N
        | _, _ => None
        end
      else None
  | _ => None
  end.

(** An escaped continuation byte [10xxxxxx]: its six bits. *)
Definition continuation (s : jsstring) : option (N * jsstring) :=
  match escape s with
  | Some (b, rest) =>
      if ((128 <=? b) && (b <=? 191))%N then Some (b - 128, rest)%N else None
  | None => None
  end.

(** The code point that the escaped byte [b] and the escapes after it
    spell in UTF-8; [None] when they are not the UTF-8 encoding of a code
    point (a stray continuation byte, a missing one, an overlong form, a
    surrogate, a value above U+10FFFF). *)
Definition code_point (b : N) (s : jsstring) : option (N * jsstring) :=
  (if b <? 128 then Some (b, s)
   else if (194 <=? b) && (b <=? 223) then
     match continuation s with
     | Some (c1, s1) => Some ((b - 192) * 64 + c1, s1)
     | None => None
     end
   else if (224 <=? b) && (b <=? 239) then
     match continuation s with
     | Some (c1, s1) =>
         match continuation s1 with
         | Some (c2, s2) =>
             let v := (b - 224) * 4096 + c1 * 64 + c2 in
             if (2048 <=? v) && negb ((55296 <=? v) && (v <=? 57343))
             then Some (v, s2) else None
         | None => None
         end
     | None => None
     end
   else if (240 <=? b) && (b <=? 244) then
     match continuation s with
     | Some (c1, s1) =>
         match continuation s1 with
         | Some (c2, s2) =>
             match continuation s2 with
             | Some (c3, s3) =>
                 let v := (b - 240) * 262144 + c1 * 4096 + c2 * 64 + c3 in
                 if (65536 <=? v) && (v <=? 1114111)
                 then Some (v, s3) else None
             | None => None
             end
         | None => None
         end
     | None => None
     end
   else None)%N.

(** The UTF-16 code units of a code point: itself, or a surrogate pair. *)
Definition code_units (v : N) : wstring :=
  (if v <? 65536 then [v]
   else [55296 + (v - 65536) / 1024; 56320 + (v - 65536) mod 1024])%N.

(** [decodeURIComponent]: a character other than ['%'] stands for itself;
    a run of escapes [%XX] is read as UTF-8 and gives the code units of
    its code point; anything else after a ['%'] is a [URIError].  [fuel]
    bounds the number of steps; the length of the string is enough. *)
Fixpoint decode_from (fuel : nat) (s : jsstring) : option wstring :=
  match fuel with
  | O => match s with [] => Some [] | _ :: _ => None end
  | S fuel' =>
      match s with
      | [] => Some []
      | c :: s' =>
          if Ascii.eqb c "%"%char then
            match escape s with
            | Some (b, rest) =>
                match code_point b rest with
                | Some (v, rest') =>
                    option_map (Datatypes.app (code_units v))
                               (decode_from fuel' rest')
                | None => None
                end
            | None => None
            end
          else option_map (cons (N_of_ascii c)) (decode_from fuel' s')
      end
  end.

(** Express decodes each capture with [decodeURIComponent]; [None] is the
    [URIError], which Express answers with status 400 without calling the
    handler. *)
Definition decode_param (s : jsstring) : option wstring :=
  decode_from (length s) s.

End Route.

(** ** [path.join] on strings with any code units

    The functions of [Path] that [path.join] needs, on lists of code
    units.  They serve when a decoded parameter holds a code unit above
    255, which [Path] cannot be given. *)
Module WPath.

Definition slash : N := 47%N.
Definition dot : N := 46%N.
Definition dotdot : wstring := [dot; dot].

Definition w_eqb (a b : wstring) : bool :=
  if list_eq_dec N.eq_dec a b then true else false.

(** [p.split('/')] *)
Fixpoint split (p : wstring) : list wstring :=
  match p with
  | [] => [[]]
  | c :: r =>
      if (c =? slash)%N then [] :: split r
      else match split r with
           | seg :: segs => (c :: seg) :: segs
           | [] => [[c]]
           end
  end.

(** [segs.join('/')] *)
Fixpoint unsplit (segs : list wstring) : wstring :=
  match segs with
  | [] => []
  | [s] => s
  | s :: rest => s ++ slash :: unsplit rest
  end.

Definition norm_step (allowAboveRoot : bool) (res : list wstring)
           (seg : wstring) : list wstring :=
  if w_eqb seg [] || w_eqb seg [dot] then res
  else if w_eqb seg dotdot then
    match res with
    | [] => if allowAboveRoot then [dotdot] else []
    | top :: below =>
        if w_eqb top dotdot
        then (if allowAboveRoot then dotdot :: res else res)
        else below
    end
  else seg :: res.

Definition norm_stack (allowAboveRoot : bool) (p : wstring)
           (res : list wstring) : list wstring :=
  fold_left (norm_step allowAboveRoot) (split p) res.

Definition normalizeString (p : wstring) (allowAboveRoot : bool) : wstring :=
  unsplit (rev (norm_stack allowAboveRoot p [])).

Definition isAbsolute (p : wstring) : bool :=
  match p with
  | c :: _ => (c =? slash)%N
  | [] => false
  end.

Definition ends_with_slash (p : wstring) : bool :=
  match rev p with
  | c :: _ => (c =? slash)%N
  | [] => false
  end.

Definition normalize (p : wstring) : wstring :=
  match p with
  | [] => [dot]
  | _ =>
      let abs := isAbsolute p in
      let trailingSeparator := ends_with_slash p in
      let q := normalizeString p (negb abs) in
      match q with
      | [] => if abs then [slash]
              else if trailingSeparator then [dot; slash] else [dot]
      | _ =>
          let q' := if trailingSeparator then q ++ [slash] else q in
          if abs then slash :: q' else q'
      end
  end.

Fixpoint join_args (args : list wstring) (joined : option wstring)
  : option wstring :=
  match args with
  | [] => joined
  | arg :: rest =>
      match arg with
      | [] => join_args rest joined
      | _ =>
          join_args rest
            (match joined with
             | None => Some arg
             | Some j => Some (j ++ slash :: arg)
             end)
      end
  end.

Definition join (args : list wstring) : wstring :=
  match join_args args None with
  | None => [dot]
  | Some joined => normalize joined
  end.

End WPath.

(** White space for [parseInt] among the code units above 255. *)
Definition wide_whitespace (u : N) : bool :=
  ((u =? 5760) || ((8192 <=? u) && (u <=? 8202)) || (u =? 8232) || (u =? 8233)
   || (u =? 8239) || (u =? 8287) || (u =? 12288) || (u =? 65279))%N.

(** [parseInt] looks at a code unit only to tell white space, sign and
    digit from the rest: a code unit above 255 counts as a space when it
    is white space and as a letter otherwise. *)
Definition unit_class (u : N) : ascii :=
  if (u <? 256)%N then ascii_of_N u
  else if wide_whitespace u then " "%char else "x"%char.

(** [parseInt(string, 10)] on any code units. *)
Definition parseInt10_units (w : wstring) : number :=
  parseInt10 (map unit_class w).

(** ** The request handlers *)

Inductive action : Type :=
| EndWith (status : Z)                    (* res.status(status).end() *)
| Json (value : json)                     (* res.json(value) *)
| SendFile (absolutePath : jsstring) (maxAge : number)   (* res.sendFile *)
| ByExpress (status : Z).                 (* no route, or a capture that does not decode *)

Record Response : Type := {
  headers : list (jsstring * jsstring);
  act : action
}.

(** The body Express writes for [res.json(value)]. *)
Definition json_body (value : json) : jsstring := stringify value.

Definition to_lower (c : ascii) : ascii :=
  let n := N_of_ascii c in
  if ((65 <=? n) && (n <=? 90))%N then ascii_of_N (n + 32) else c.

(** The route ['/assets/manifest.json'] as Express compiles it with its
    default settings (no case sensitive routing, no strict routing): the
    expression [/^\/assets\/manifest\.json\/?$/i]. *)
Definition manifest_route (path : jsstring) : bool :=
  let p := map to_lower path in
  str_eqb p (lit "/assets/manifest.json")
  || str_eqb p (lit "/assets/manifest.json/").

Section Handlers.

Variable cwd : jsstring.
Variable config : Config.

(** [handleManifest] *)
Definition handleManifest (currentManifestTimestamp : Z)
           (currentManifest : list ManifestEntry) : Response :=
  {| headers :=
       [(lit "Cache-Control", lit "public, max-age=60, must-revalidate");
        (lit "Last-Modified", Date.toUTCString currentManifestTimestamp)];
     act := Json (JArray (map entry_json currentManifest)) |}.

(** The loop of [handleAsset] that looks the asset up. *)
Fixpoint find_asset (currentManifest : list ManifestEntry)
         (relativePath : jsstring) (requested : number) : option ManifestEntry :=
  match currentManifest with
  | [] => None
  | entry :: rest =>
      if str_eqb (name entry) relativePath
         && num_eqb (Num (checksum entry)) requested
      then Some entry
      else find_asset rest relativePath requested
  end.

(** [handleAsset], on [req.params] *)
Definition handleAsset (currentManifest : list ManifestEntry)
           (params : jsstring * jsstring * jsstring) : Response :=
  let '(basedir, param1, basename) := params in
  let checksum := parseInt10 param1 in
  let relativePath := Path.join [basedir; basename] in
  let absolutePath := Path.resolve cwd [root config; relativePath] in
  match find_asset currentManifest relativePath checksum with
  | None => {| headers := []; act := EndWith 400 |}
  | Some _ => {| headers := []; act := SendFile absolutePath Infinity |}
  end.

(** [handleAsset], on parameters of which one holds a code unit above
    255.  No name of the manifest holds one, so only a [relativePath] that
    [path.join] has left without any can be found. *)
Definition handleAsset_units (currentManifest : list ManifestEntry)
           (params : wstring * wstring * wstring) : Response :=
  let '(basedir, param1, basename) := params in
  let checksum := parseInt10_units param1 in
  match narrow (WPath.join [basedir; basename]) with
  | Some relativePath =>
      let absolutePath := Path.resolve cwd [root config; relativePath] in
      match find_asset currentManifest relativePath checksum with
      | None => {| headers := []; act := EndWith 400 |}
      | Some _ => {| headers := []; act := SendFile absolutePath Infinity |}
      end
  | None => {| headers := []; act := EndWith 400 |}
  end.

Definition with_header (h : jsstring * jsstring) (r : Response) : Response :=
  {| headers := h :: headers r; act := act r |}.

(** The application [main] builds, on a [GET] whose URL has the
    pathname [path] (the URL without its query string, which is what
    Express matches the routes against): the CORS middleware, then the
    first route that matches, its captures decoded. *)
Definition app_get (currentManifestTimestamp : Z)
           (currentManifest : list ManifestEntry) (path : jsstring) : Response :=
  with_header (lit "Access-Control-Allow-Origin", lit "*")
    (if manifest_route path
     then handleManifest currentManifestTimestamp currentManifest
     else
       match Route.asset path with
       | Some (c0, c1, c2) =>
           match Route.decode_param c0, Route.decode_param c1,
                 Route.decode_param c2 with
           | Some w0, Some w1, Some w2 =>
               match narrow w0, narrow w1, narrow w2 with
               | Some p0, Some p1, Some p2 =>
                   handleAsset currentManifest (p0, p1, p2)
               | _, _, _ => handleAsset_units currentManifest (w0, w1, w2)
               end
           | _, _, _ => {| headers := []; act := ByExpress 400 |}
           end
       | None => {| headers := []; act := ByExpress 404 |}
       end).

End Handlers.

(** A [GET] of the pathname [path] on a server that is up: [None] while
    the process does not listen, or after it died. *)
Definition request (G : Gzip) (cwd : jsstring) (config : Config)
           (s : Server G) (path : jsstring) : option Response :=
  if serving s then
    match currentManifestTimestamp s, currentManifest s with
    | Some t, Some m => Some (app_get cwd config t m path)
    | _, _ => None
    end
  else None.

(** ** A gzip encoder to run the model with: stored blocks only

    What zlib emits at compression level 0: the ten-byte header, the
    input cut into stored deflate blocks of at most 65535 bytes, the CRC-32
    and the length of the input.  It buffers its input and emits
    everything at [end], as three buffers. *)
Module StoredGzip.

Definition byte_of_Z (z : Z) : byte :=
  match Byte.of_N (Z.to_N (z mod 256)) with
  | Some b => b
  | None => x00
  end.

Definition le16 (z : Z) : list byte := [byte_of_Z z; byte_of_Z (z / 256)].
Definition le32 (z : Z) : list byte :=
  [byte_of_Z z; byte_of_Z (z / 256); byte_of_Z (z / 65536);
   byte_of_Z (z / 16777216)].

Definition header : list byte :=
  [x1f; x8b; x08; x00; x00; x00; x00; x00; x00; x03].

Definition block_max : nat := Z.to_nat 65535.

Fixpoint blocks (fuel : nat) (data : list byte) : list byte :=
  match fuel with
  | O => []
  | S fuel' =>
      let n := Z.of_nat (length data) in
      if n <=? 65535 then
        x01 :: le16 n ++ le16 (65535 - n) ++ data
      else
        x00 :: le16 65535 ++ le16 0 ++ firstn block_max data
            ++ blocks fuel' (skipn block_max data)
  end.

Definition trailer (data : list byte) : list byte :=
  le32 (crc32.unsigned data None) ++ le32 (Z.of_nat (length data)).

Definition encoder : Gzip :=
  {| gz_state := list byte;
     createGzip := [];
     gz_write := fun st data => (st ++ data, []);
     gz_end := fun st => [header; blocks (S (length st)) st; trailer st] |}.

End StoredGzip.

(** ** Vocabulary of the statements *)


(** A JSON object whose keys are exactly [fields], in any order. *)
Definition object_with_fields (fields : list jsstring) (v : json) : Prop :=
  exists members, v = JObject members /\ Permutation (map fst members) fields.

(** The value of the member [key] of a JSON object. *)
Fixpoint member (key : jsstring) (members : list (jsstring * json)) : option json :=
  match members with
  | [] => None
  | (k, v) :: rest => if str_eqb k key then Some v else member key rest
  end.

Definition field (key : jsstring) (v : json) : option json :=
  match v with
  | JObject members => member key members
  | _ => None
  end.

(** The state of the module variables before anything is published. *)
Definition unpublished (G : Gzip) (s : Server G) : Prop :=
  currentManifest s = None /\ currentManifestTimestamp s = None
  /\ listening s = false.

(** The error of the first read failure of a schedule. *)
Fixpoint first_error (schedule : list (Z * event)) : option jsstring :=
  match schedule with
  | [] => None
  | (_, StreamError _ err) :: _ => Some err
  | _ :: rest => first_error rest
  end.

(** The buffers the read stream of asset [i] delivers in a schedule. *)
Fixpoint chunks_of (i : nat) (schedule : list (Z * event)) : list (list byte) :=
  match schedule with
  | [] => []
  | (_, StreamData j data) :: rest =>
      if Nat.eqb i j then data :: chunks_of i rest else chunks_of i rest
  | _ :: rest => chunks_of i rest
  end.

(** What holds of every pipeline during a build: [gzip.end()] has been
    called exactly when the read stream has ended, and [cb] is only called
    after that, with nothing left to deliver. *)
Definition pipe_ok (G : Gzip) (p : Pipeline G) : Prop :=
  (v_gzip_ending p = true <-> v_stream p = Ended)
  /\ (v_result p <> None -> v_gzip_ending p = true /\ v_gzip_out p = []).

Definition all_done (G : Gzip) (ps : list (Pipeline G)) : Prop :=
  Forall (fun p => v_result p <> None) ps.

(** The manifest [m] has been published at time [t]. *)
Definition published (G : Gzip) (s : Server G) (t : Z) (m : list ManifestEntry)
  : Prop :=
  currentManifest s = Some m /\ currentManifestTimestamp s = Some t
  /\ listening s = true.

(** What holds of the server at any time: nothing is published, or the
    results of all the pipelines are, and the process is alive. *)
Definition consistent (G : Gzip) (s : Server G) : Prop :=
  Forall (@pipe_ok G) (pipelines s)
  /\ (unpublished s
      \/ (uncaught s = None /\ all_done (pipelines s)
          /\ exists t m, published s t m /\ collect (pipelines s) = Some m)).

(** ** The end-to-end scenario of the specification

    A content root holding [weapons/gun.pk3] and [readme.txt], the default
    configuration, a process started in [/srv/content]. *)
Module Scenario.

Definition entries : list (jsstring * dirent) :=
  [(lit "weapons", Directory [(lit "gun.pk3", File)]);
   (lit "readme.txt", File)].

Definition cwd : jsstring := lit "/srv/content".
Definition config : Config := loadConfig None.

Definition bytes (l : list Z) : list byte := map StoredGzip.byte_of_Z l.

(** The size of [weapons/gun.pk3]. *)
Definition gun_size : nat := Z.to_nat 10000.

(** A manifest to serve from. *)
Definition listed : list ManifestEntry :=
  [{| name := lit "weapons/gun.pk3"; compressed := 32; checksum := 7 |}].

(** The file is read in two buffers; the gzip stream then delivers its
    three buffers and ends. *)
Definition good : list (Z * event) :=
  [(1000, StreamData 0%nat (bytes [49; 50; 51]));
   (2000, StreamData 0%nat (bytes [52; 53; 54; 55; 56; 57]));
   (3000, StreamEnd 0%nat);
   (3500, GzipData 0%nat); (3600, GzipData 0%nat); (3700, GzipData 0%nat);
   (5000, GzipEnd 0%nat)].

(** The second read fails. *)
Definition failing : list (Z * event) :=
  [(1000, StreamData 0%nat (bytes [49; 50; 51]));
   (2000, StreamError 0%nat (lit "EIO"))].

End Scenario.

(** ** Directory trees as the file system hands them out *)

(** A name [readdir] can return: not empty, not ["."] or [".."], without
    ['/']. *)
Definition valid_name (n : jsstring) : bool :=
  negb (str_eqb n []) && negb (str_eqb n [Path.dot])
  && negb (str_eqb n Path.dotdot)
  && forallb (fun c => negb (Ascii.eqb c Path.slash)) n.

Fixpoint distinct (names : list jsstring) : bool :=
  match names with
  | [] => true
  | n :: rest => negb (existsb (str_eqb n) rest) && distinct rest
  end.

(** Every directory lists valid names, each once. *)
Fixpoint wf_dirent (e : dirent) : bool :=
  match e with
  | Directory entries =>
      forallb valid_name (map fst entries)
      && distinct (map fst entries)
      && forallb (fun ne => wf_dirent (snd ne)) entries
  | _ => true
  end.

Definition wf_entries (entries : list (jsstring * dirent)) : bool :=
  wf_dirent (Directory entries).

(** The regular file at the end of a chain of names below a directory. *)
Inductive file_at : list (jsstring * dirent) -> list jsstring -> Prop :=
| file_here : forall entries n,
    In (n, File) entries -> file_at entries [n]
| file_below : forall entries n sub segs,
    In (n, Directory sub) entries -> file_at sub segs ->
    file_at entries (n :: segs).

(** The chains of names of all the regular files below an entry. *)
Fixpoint files_under (e : dirent) : list (list jsstring) :=
  match e with
  | File => [[]]
  | Directory entries =>
      flat_map (fun ne => map (cons (fst ne)) (files_under (snd ne))) entries
  | Other => []
  end.



(** ** Path segments *)

Definition no_slash (s : jsstring) : Prop := ~ In Path.slash s.

(** A path segment that [normalizeString] keeps as it is. *)
Definition good_seg (s : jsstring) : Prop :=
  s <> [] /\ s <> [Path.dot] /\ s <> Path.dotdot /\ no_slash s.

(** What a stack of [normalizeString] holds: segments kept as they are
    and, for relative paths, [".."]. *)
Definition kept_seg (s : jsstring) : Prop := good_seg s \/ s = Path.dotdot.

(** [k] segments popped off a stack. *)
Fixpoint pops (k : nat) (st : list jsstring) : list jsstring :=
  match k with
  | O => st
  | S k' => tl (pops k' st)
  end.

(** The segments of [path.resolve(p)], last first, for a process whose
    working directory is [cwd]. *)
Definition rstack (cwd p : jsstring) : list jsstring :=
  Path.norm_stack false p
    (if Path.isAbsolute p then [] else Path.norm_stack false cwd []).


(** The extension of [file] is in the allow-list:
    [validAssets.indexOf(path.extname(file)) !== -1]. *)
Definition allowed (config : Config) (file : jsstring) : bool :=
  indexOf_found (validAssets config) (Path.extname file).

(** The encoder after a sequence of writes, and what it has emitted. *)
Fixpoint gz_writes (G : Gzip) (st : gz_state G) (chunks : list (list byte))
  : gz_state G * list (list byte) :=
  match chunks with
  | [] => (st, [])
  | c :: rest =>
      let written := gz_write G st c in
      let later := gz_writes G (fst written) rest in
      (fst later, snd written ++ snd later)
  end.

(** The buffers the encoder of a pipeline has emitted so far, after the
    writes of [chunks]. *)
Definition emitted (G : Gzip) (ending : bool) (chunks : list (list byte))
  : list (list byte) :=
  if ending then gz_run G (createGzip G) chunks
  else snd (gz_writes G (createGzip G) chunks).

(** The variables of a pipeline follow the buffers its read stream has
    delivered. *)
Definition tracks (G : Gzip) (p : Pipeline G) (chunks : list (list byte)) : Prop :=
  v_crc p = crc32.unsigned (concat chunks) None
  /\ v_compressed p + Z.of_nat (length (concat (v_gzip_out p)))
     = Z.of_nat (length (concat (emitted G (v_gzip_ending p) chunks)))
  /\ (v_gzip_ending p = false ->
      v_gzip p = fst (gz_writes G (createGzip G) chunks))
  /\ (forall e, v_result p = Some e -> e = entry_of p).

(** The pipelines are those of the assets and follow the schedule run so
    far. *)
Definition follows (G : Gzip) (cwd : jsstring) (config : Config)
           (assets : list jsstring) (s : Server G) (history : list (Z * event))
  : Prop :=
  map (@v_name G) (pipelines s) = map (Path.relative cwd (root config)) assets
  /\ forall i p, nth_error (pipelines s) i = Some p ->
                 tracks p (chunks_of i history).

(** The manifest entry of the asset [file], the [i]-th one, after the
    schedule [schedule]. *)
Definition entry_for (G : Gzip) (cwd : jsstring) (config : Config)
           (schedule : list (Z * event)) (i : nat) (file : jsstring)
  : ManifestEntry :=
  {| name := Path.relative cwd (root config) file;
     compressed := Z.of_nat (length (gz_output G (chunks_of i schedule)));
     checksum := crc32.unsigned (concat (chunks_of i schedule)) None |}.

(** A content root holding [n] files [a.pk3], [aa.pk3], [aaa.pk3], ... *)
Definition numbered_name (k : nat) : jsstring :=
  repeat "a"%char (S k) ++ lit ".pk3".

Definition many_files (n : nat) : list (jsstring * dirent) :=
  map (fun k => (numbered_name k, File)) (seq 0 n).

(** ** What any gzip encoder owes its reader *)

(** The input can be recovered from the output: two inputs of [n] bytes
    with the same output are the same bytes. *)
Definition lossless_on (n : nat) (G : Gzip) : Prop :=
  forall chunks1 chunks2,
    length (concat chunks1) = n -> length (concat chunks2) = n ->
    gz_output G chunks1 = gz_output G chunks2 ->
    concat chunks1 = concat chunks2.

(** The output starts with the two identification bytes of gzip. *)
Definition gzip_magic_on (n : nat) (G : Gzip) : Prop :=
  forall chunks,
    length (concat chunks) = n ->
    exists rest, gz_output G chunks = x1f :: x8b :: rest.

(** ** Counting byte strings *)

Definition byte_of_nat (n : nat) : byte :=
  match Byte.of_N (N.of_nat n) with
  | Some b => b
  | None => x00
  end.

Definition all_bytes : list byte := map byte_of_nat (seq 0 256).

(** All the byte strings of length [n]. *)
Fixpoint words (n : nat) : list (list byte) :=
  match n with
  | O => [[]]
  | S k => flat_map (fun b => map (cons b) (words k)) all_bytes
  end.

(** All the byte strings of length at most [m]. *)
Definition words_upto (m : nat) : list (list byte) :=
  flat_map words (seq 0 (S m)).

(** The schedule in which the read stream of the only asset delivers
    [content] in one buffer and ends, and the gzip stream then delivers all
    its buffers and ends. *)
Definition reading (G : Gzip) (content : list byte) : list (Z * event) :=
  [(1000, StreamData 0%nat content); (2000, StreamEnd 0%nat)]
    ++ repeat (3000, GzipData 0%nat)
              (length (gz_run G (createGzip G) [content]))
    ++ [(4000, GzipEnd 0%nat)].

(** The range of the 32-bit integers. *)
Definition int32 (z : Z) : Prop := - 2 ^ 31 <= z < 2 ^ 31.

(** Induction on directory trees. *)
Fixpoint dirent_tree_ind (P : dirent -> Prop)
         (HFile : P File) (HOther : P Other)
         (HDir : forall entries, Forall (fun ne => P (snd ne)) entries ->
                                 P (Directory entries))
         (e : dirent) {struct e} : P e :=
  match e with
  | File => HFile
  | Other => HOther
  | Directory entries =>
      HDir entries
           ((fix all (l : list (jsstring * dirent))
               : Forall (fun ne => P (snd ne)) l :=
               match l with
               | [] => Forall_nil _
               | ne :: l' =>
                   Forall_cons ne
                     (match ne as x return P (snd x) with
                      | (_, sub) => dirent_tree_ind P HFile HOther HDir sub
                      end)
                     (all l')
               end) entries)
  end.

(** ** The URL of a manifest entry

    The asset route reads a URL as a directory, a checksum in decimal and
    a base name.  This is the URL it reads as the entry [e]:
    [/assets/weapons/7-gun.pk3] for [weapons/gun.pk3] with checksum 7. *)
Definition url_dir (dirs : list jsstring) : jsstring :=
  concat (map (fun s => s ++ [Path.slash]) dirs).

Definition asset_url (e : ManifestEntry) : jsstring :=
  let segs := Path.split (name e) in
  lit "/assets/" ++ url_dir (removelast segs) ++ decimal (checksum e)
    ++ "-"%char :: last segs [].

(** The characters a URL path carries literally: the unreserved
    characters and sub-delimiters of RFC 3986, [':'] and ['@'].  Neither
    ['%'] nor ['?'], ['#'], a space, a control character or a character
    above 127 is one. *)
Definition is_pchar (c : ascii) : bool :=
  let n := N_of_ascii c in
  (((48 <=? n) && (n <=? 57)) || ((65 <=? n) && (n <=? 90))
   || ((97 <=? n) && (n <=? 122))
   || existsb (N.eqb n)
        [45; 46; 95; 126;                               (* - . _ ~ *)
         33; 36; 38; 39; 40; 41; 42; 43; 44; 59; 61;     (* ! $ & ' ( ) * + , ; = *)
         58; 64])%N.                                    (* : @ *)

(** A name that is its own spelling in a URL: such characters, between
    slashes. *)
Definition plain (s : jsstring) : bool :=
  forallb (fun c => is_pchar c || Ascii.eqb c Path.slash) s.

(** [s] starts with [prefix]. *)
Fixpoint starts_with (prefix s : jsstring) : bool :=
  match prefix, s with
  | [], _ => true
  | c :: prefix', c' :: s' => Ascii.eqb c c' && starts_with prefix' s'
  | _ :: _, [] => false
  end.


(** ** The end of a build *)

(** The gzip stream of the asset [i] has emitted ['end'] in [history]. *)
Definition ended_in (i : nat) (history : list (Z * event)) : Prop :=
  exists t, In (t, GzipEnd i) history.

(** [cb] has been called for exactly the assets whose gzip stream has
    ended. *)
Definition answered (G : Gzip) (s : Server G) (history : list (Z * event))
  : Prop :=
  forall i p, nth_error (pipelines s) i = Some p ->
              (v_result p <> None <-> ended_in i history).

(** While nothing is published, [async.map] still misses a result. *)
Definition waits (G : Gzip) (s : Server G) : Prop :=
  unpublished s -> collect (pipelines s) = None.


(** * The web server (the first program of [web.js])

    It loads its configuration, hands three values of it to the page
    template through [res.locals], and renders the page. *)
Module Web.

(** The values a JSON configuration file holds, and [undefined]. *)
Inductive value : Type :=
| VUndefined
| VNull
| VBool (b : bool)
| VNumber (x : SpecFloat.spec_float)
| VString (s : jsstring)
| VArray (elements : list value)
| VObject (members : list (jsstring * value))
(** what a prototype holds under [name]: a built-in function or object *)
| VBuiltin (name : jsstring).

(** [ToBoolean] *)
Definition truthy (v : value) : bool :=
  match v with
  | VUndefined | VNull => false
  | VBool b => b
  | VNumber (SpecFloat.S754_zero _) | VNumber SpecFloat.S754_nan => false
  | VNumber _ => true
  | VString [] => false
  | VString _ => true
  | VArray _ | VObject _ | VBuiltin _ => true
  end.

(** The own property [key] of an object given by its members. *)
Fixpoint lookup (key : jsstring) (members : list (jsstring * value))
  : option value :=
  match members with
  | [] => None
  | (k, v) :: rest => if str_eqb k key then Some v else lookup key rest
  end.

(** The names [Object.prototype] defines. *)
Definition object_prototype : list jsstring :=
  [lit "constructor"; lit "__defineGetter__"; lit "__defineSetter__";
   lit "hasOwnProperty"; lit "__lookupGetter__"; lit "__lookupSetter__";
   lit "isPrototypeOf"; lit "propertyIsEnumerable"; lit "toString";
   lit "valueOf"; lit "__proto__"; lit "toLocaleString"].

(** What an object without the own property [key] gives for it: what
    [Object.prototype] holds, or [undefined]. *)
Definition inherited (key : jsstring) : value :=
  if existsb (str_eqb key) object_prototype then VBuiltin key
  else VUndefined.

(** [v.key]: the own property of an object, and for a key it does not
    have what it inherits from [Object.prototype].  An array, a string, a
    number, a boolean and a built-in inherit from [Object.prototype] as
    well; their indices, their [length] and what their nearer prototypes
    define are not modelled (the program reads no such key).  On [null]
    and [undefined] the access throws; the program guards against it. *)
Definition get (v : value) (key : jsstring) : value :=
  match v with
  | VObject members =>
      match lookup key members with
      | Some x => x
      | None => inherited key
      end
  | VUndefined | VNull => VUndefined
  | _ => inherited key
  end.

(** [obj[key] = v]: the property keeps its place, a new one comes last. *)
Fixpoint set (key : jsstring) (v : value) (members : list (jsstring * value))
  : list (jsstring * value) :=
  match members with
  | [] => [(key, v)]
  | (k, x) :: rest =>
      if str_eqb k key then (k, v) :: rest else (k, x) :: set key v rest
  end.

(** [_.extend(obj, source)] for an object [source]: each of its
    properties is assigned to [obj], in order. *)
Definition extend (obj source : list (jsstring * value))
  : list (jsstring * value) :=
  fold_left (fun o kv => set (fst kv) (snd kv) o) source obj.

(** The number 8080. *)
Definition default_port : SpecFloat.spec_float :=
  SpecFloat.S754_finite false 8080 0.

Definition defaults : list (jsstring * value) :=
  [(lit "port", VNumber default_port);
   (lit "content", VString (lit "127.0.0.1:9000"))].

(** [loadConfig(configPath)]; [data] holds the members of the object
    [require(configPath)] returns, and is [None] when it throws. *)
Definition loadConfig (data : option (list (jsstring * value))) : value :=
  VObject
    match data with
    | Some data => extend defaults data
    | None => defaults
    end.

(** [res.locals] as the middleware of [main] fills it. *)
Record Locals : Type := {
  content : value;
  client : value;
  player_names : value
}.

Definition locals (config : value) : Locals :=
  {| content := get config (lit "content");
     client :=
       (* config.client || {} *)
       if truthy (get config (lit "client")) then get config (lit "client")
       else VObject [];
     player_names :=
       (* config.client && config.client.player_names
            ? config.client.player_names : [] *)
       if truthy (get config (lit "client"))
          && truthy (get (get config (lit "client")) (lit "player_names"))
       then get (get config (lit "client")) (lit "player_names")
       else VArray [] |}.

(** What the configuration file gives to [key]: [undefined] when it does
    not define it, or could not be loaded. *)
Definition configured (data : option (list (jsstring * value))) (key : jsstring)
  : value :=
  match data with
  | Some members =>
      match lookup key members with
      | Some v => v
      | None => VUndefined
      end
  | None => VUndefined
  end.

(** The file defines [key]. *)
Definition defines (data : option (list (jsstring * value))) (key : jsstring)
  : bool :=
  match data with
  | Some members =>
      match lookup key members with
      | Some _ => true
      | None => false
      end
  | None => false
  end.

End Web.


(** * Properties *)

Unset Implicit Arguments.

(** ** Strings and numbers *)

Lemma str_eqb_eq (a b : jsstring) : str_eqb a b = true <-> a = b.
Proof.
  unfold str_eqb. destruct (jsstring_dec a b); split; congruence.
Qed.

Lemma str_eqb_refl (a : jsstring) : str_eqb a a = true.
Proof. now apply str_eqb_eq. Qed.

Lemma str_eqb_neq (a b : jsstring) : str_eqb a b = false <-> a <> b.
Proof.
  unfold str_eqb. destruct (jsstring_dec a b); split; congruence.
Qed.

Lemma num_eqb_Num (z : Z) (n : number) : num_eqb (Num z) n = true <-> Num z = n.
Proof.
  destruct n; simpl; split; try discriminate.
  - intros H. apply Z.eqb_eq in H. now subst.
  - intros H. injection H as ->. apply Z.eqb_refl.
Qed.

(** ** Looking an asset up *)

Lemma find_asset_Some cm rel req e :
  find_asset cm rel req = Some e ->
  In e cm /\ name e = rel /\ Num (checksum e) = req.
Proof.
  induction cm as [|x cm IH]; cbn [find_asset]; [discriminate|].
  destruct (str_eqb (name x) rel && num_eqb (Num (checksum x)) req) eqn:E.
  - intros H. injection H as H. subst x. apply andb_true_iff in E as [E1 E2].
    apply str_eqb_eq in E1. apply num_eqb_Num in E2.
    split; [now left | auto].
  - intros H. destruct (IH H) as (?&?&?). split; [now right | auto].
Qed.

Lemma find_asset_None cm rel req :
  find_asset cm rel req = None ->
  forall e, In e cm -> ~ (name e = rel /\ Num (checksum e) = req).
Proof.
  induction cm as [|x cm IH]; cbn [find_asset In]; [tauto|].
  destruct (str_eqb (name x) rel && num_eqb (Num (checksum x)) req) eqn:E;
    [discriminate|].
  intros H e [<-|Hin] [H1 H2].
  - apply andb_false_iff in E as [E|E].
    + apply str_eqb_neq in E. contradiction.
    + apply num_eqb_Num in H2. congruence.
  - exact (IH H e Hin (conj H1 H2)).
Qed.



(** ** The manifest on the wire *)

Lemma entry_json_fields (e : ManifestEntry) :
  object_with_fields [lit "name"; lit "compressed"; lit "checksum"] (entry_json e).
Proof.
  eexists. split; [reflexivity|]. apply Permutation_refl.
Qed.

(** What [handleManifest] sends: one object per manifest entry, in
    manifest order, each with exactly the fields [name], [compressed] and
    [checksum], holding the values of the entry. *)
Lemma handleManifest_elements :
  forall (ts : Z) (currentManifest : list ManifestEntry),
    exists elements,
      act (handleManifest ts currentManifest) = Json (JArray elements)
      /\ Forall2
           (fun e v =>
              object_with_fields [lit "name"; lit "compressed"; lit "checksum"] v
              /\ field (lit "name") v = Some (JString (name e))
              /\ field (lit "compressed") v = Some (JNumber (compressed e))
              /\ field (lit "checksum") v = Some (JNumber (checksum e)))
           currentManifest elements.
Proof.
  intros ts cm. exists (map entry_json cm). split; [reflexivity|].
  induction cm as [|e cm IH]; constructor; [|exact IH].
  split; [apply entry_json_fields|]. repeat split.
Qed.

(** C2, as stated, fails: the object of an entry has no field called
    [compressedSize]. *)
Lemma manifest_json_no_compressedSize :
  ~ (forall (ts : Z) (currentManifest : list ManifestEntry),
        exists elements,
          act (handleManifest ts currentManifest) = Json (JArray elements)
          /\ Forall (object_with_fields
                       [lit "name"; lit "checksum"; lit "compressedSize"])
                    elements).
Proof.
  intros H.
  destruct (H 0 [{| name := lit "weapons/gun.pk3"; compressed := 9000;
                    checksum := 7 |}]) as (elements & Hact & Hall).
  cbn in Hact. injection Hact as <-.
  inversion Hall as [|v l (members & Hv & Hperm) _]; subst.
  injection Hv as <-.
  apply Permutation_sym in Hperm.
  apply (Permutation_in (lit "compressedSize")) in Hperm.
  - cbn in Hperm. repeat (destruct Hperm as [Hperm|Hperm]; [discriminate|]).
    exact Hperm.
  - cbn. auto.
Qed.

Example manifest_json_body :
  json_body (JArray (map entry_json
     [{| name := lit "weapons/gun.pk3"; compressed := 9000; checksum := 7 |}]))
  = [ascii_of_nat 91; ascii_of_nat 123] ++ quote (lit "name") ++ lit ":"
    ++ quote (lit "weapons/gun.pk3") ++ lit "," ++ quote (lit "compressed")
    ++ lit ":9000," ++ quote (lit "checksum") ++ lit ":7}]".
Proof. reflexivity. Qed.

(** ** The checksum fold *)

Lemma ToInt32_range (z : Z) : int32 (ToInt32 z).
Proof.
  unfold int32, ToInt32.
  pose proof (Z.mod_pos_bound (z + 2 ^ 31) (2 ^ 32) ltac:(lia)). lia.
Qed.

Lemma ToInt32_id (z : Z) : int32 z -> ToInt32 z = z.
Proof.
  unfold int32, ToInt32. intros H.
  rewrite Z.mod_small by lia. lia.
Qed.

Lemma ToInt32_ToUint32 (z : Z) : ToInt32 (ToUint32 z) = ToInt32 z.
Proof.
  unfold ToInt32, ToUint32.
  rewrite Zplus_mod_idemp_l. reflexivity.
Qed.

Lemma js_xor_range (a b : Z) : int32 (js_xor a b).
Proof. apply ToInt32_range. Qed.

Lemma js_xor_m1 (r : Z) : int32 r -> js_xor r (-1) = - r - 1.
Proof.
  intros H. unfold js_xor.
  rewrite (ToInt32_id r H), (ToInt32_id (-1)) by (unfold int32; lia).
  rewrite Z.lxor_m1_r. unfold Z.lnot.
  apply ToInt32_id. unfold int32 in *. lia.
Qed.

Lemma js_xor_m1_involutive (r : Z) : int32 r -> js_xor (js_xor r (-1)) (-1) = r.
Proof.
  intros H. rewrite (js_xor_m1 r H).
  rewrite js_xor_m1 by (unfold int32 in *; lia). lia.
Qed.

Lemma js_ushr_0 (z : Z) : js_ushr z 0 = ToUint32 z.
Proof. unfold js_ushr. apply Z.shiftr_0_r. Qed.

(** The steps of a fold, as equations (the terms under the fold are kept
    as they are). *)
Lemma fold_left_nil {A B : Type} (f : A -> B -> A) (a : A) :
  fold_left f [] a = a.
Proof. reflexivity. Qed.

Lemma fold_left_cons {A B : Type} (f : A -> B -> A) (b : B) (l : list B) (a : A) :
  fold_left f (b :: l) a = fold_left f l (f a b).
Proof. reflexivity. Qed.

Lemma fold_left_preserves {A B : Type} (f : A -> B -> A) (P : A -> Prop) :
  (forall a b, P (f a b)) ->
  forall l a, P a -> P (fold_left f l a).
Proof.
  intros Hf l. induction l as [|b l IH]; intros a Ha.
  - exact Ha.
  - rewrite fold_left_cons. apply IH, Hf.
Qed.

Lemma crc_update_range (crc : Z) (b : byte) : int32 (crc32.update crc b).
Proof. unfold crc32.update. apply js_xor_range. Qed.

Lemma crc_loop_range (buf : list byte) (crc : Z) :
  int32 crc -> int32 (fold_left crc32.update buf crc).
Proof.
  apply (fold_left_preserves crc32.update int32 crc_update_range).
Qed.

(** Continuing from the checksum of [a] over [b] is the checksum of
    [a ++ b]. *)
Lemma crc32_unsigned_app (a b : list byte) (previous : option Z) :
  crc32.unsigned b (Some (crc32.unsigned a previous))
  = crc32.unsigned (a ++ b) previous.
Proof.
  unfold crc32.unsigned, crc32._crc32.
  rewrite !js_ushr_0, fold_left_app.
  set (c0 := js_xor (ToInt32 match previous with Some p => p | None => 0 end) (-1)).
  set (r := fold_left crc32.update a c0).
  assert (Hr : int32 r) by (apply crc_loop_range, js_xor_range).
  rewrite ToInt32_ToUint32.
  rewrite (ToInt32_id (js_xor r (-1))) by apply js_xor_range.
  rewrite js_xor_m1_involutive by exact Hr.
  reflexivity.
Qed.

Lemma crc32_unsigned_empty : crc32.unsigned [] None = 0.
Proof. vm_compute. reflexivity. Qed.

Lemma crc32_fold_from (chunks : list (list byte)) (seen : list byte) :
  fold_left (fun crc data => crc32.unsigned data (Some crc)) chunks
            (crc32.unsigned seen None)
  = crc32.unsigned (seen ++ concat chunks) None.
Proof.
  revert seen. induction chunks as [|c chunks IH]; intros seen.
  - rewrite fold_left_nil. cbn [concat]. now rewrite app_nil_r.
  - rewrite fold_left_cons, crc32_unsigned_app, IH.
    cbn [concat]. now rewrite app_assoc.
Qed.

Lemma crc32_unsigned_range (buf : list byte) (previous : option Z) :
  0 <= crc32.unsigned buf previous < 2 ^ 32.
Proof.
  unfold crc32.unsigned. rewrite js_ushr_0. unfold ToUint32.
  apply Z.mod_pos_bound. lia.
Qed.

(** ** Arrays updated in place *)

Lemma set_nth_length {A : Type} (i : nat) (v : A) (l : list A) :
  length (set_nth i v l) = length l.
Proof.
  revert i. induction l as [|x l IH]; intros [|i]; simpl; auto.
Qed.

Lemma nth_error_set_nth_eq {A : Type} (i : nat) (v : A) (l : list A) (x : A) :
  nth_error l i = Some x -> nth_error (set_nth i v l) i = Some v.
Proof.
  revert i. induction l as [|y l IH]; intros [|i]; simpl; try discriminate; auto.
Qed.

Lemma nth_error_set_nth_neq {A : Type} (i j : nat) (v : A) (l : list A) :
  i <> j -> nth_error (set_nth i v l) j = nth_error l j.
Proof.
  revert i j. induction l as [|y l IH]; intros [|i] [|j] H; simpl; auto;
    try contradiction.
Qed.

Lemma Forall_set_nth {A : Type} (P : A -> Prop) (i : nat) (v : A) (l : list A) :
  Forall P l -> P v -> Forall P (set_nth i v l).
Proof.
  intros Hl Hv. revert i.
  induction Hl as [|x l Hx Hl IH]; intros [|i]; simpl; constructor; auto.
Qed.

Lemma nth_error_Forall {A : Type} (P : A -> Prop) (i : nat) (l : list A) (x : A) :
  Forall P l -> nth_error l i = Some x -> P x.
Proof.
  intros Hl Hx. apply nth_error_In in Hx.
  rewrite Forall_forall in Hl. auto.
Qed.

(** ** The build as a sequence of handler runs *)

Section BuildFacts.

Variable G : Gzip.
Variable cwd : jsstring.
Variable config : Config.

Local Abbreviation Pipeline := (Pipeline G).
Local Abbreviation Server := (Server G).

Lemma collect_all_done (ps : list Pipeline) (m : list ManifestEntry) :
  collect ps = Some m -> all_done ps.
Proof.
  revert m. induction ps as [|p ps IH]; intros m; cbn [collect].
  - constructor.
  - destruct (v_result p) eqn:R; [|discriminate].
    destruct (collect ps) eqn:C; [|discriminate].
    intros _. constructor; [congruence | eapply IH; reflexivity].
Qed.

Lemma collect_results (ps : list Pipeline) (m : list ManifestEntry) :
  collect ps = Some m -> map Some m = map (@v_result G) ps.
Proof.
  revert m. induction ps as [|p ps IH]; intros m; cbn [collect].
  - intros H. injection H as <-. reflexivity.
  - destruct (v_result p) eqn:R; [|discriminate].
    destruct (collect ps) eqn:C; [|discriminate].
    intros H. injection H as <-. cbn [map]. rewrite R.
    f_equal. apply IH. reflexivity.
Qed.

Lemma done_not_flowing (ps : list Pipeline) (i : nat) (p : Pipeline) :
  Forall (@pipe_ok G) ps -> all_done ps -> nth_error ps i = Some p ->
  v_stream p = Ended /\ v_gzip_out p = [] /\ v_result p <> None.
Proof.
  intros Hok Hdone Hp.
  destruct (nth_error_Forall _ _ _ _ Hok Hp) as [H1 H2].
  pose proof (nth_error_Forall _ _ _ _ Hdone Hp) as H3. cbv beta in H3.
  destruct (H2 H3) as [H4 H5].
  repeat split; auto. now apply H1.
Qed.

Lemma pipe_ok_iteratee (file : jsstring) : pipe_ok (iteratee G cwd config file).
Proof.
  split; cbn.
  - split; discriminate.
  - intros H. contradiction.
Qed.

Lemma pipe_ok_data (p : Pipeline) (data : list byte) :
  pipe_ok p -> v_stream p = Flowing -> pipe_ok (on_stream_data p data).
Proof.
  intros [H1 H2] F. split; cbn [on_stream_data v_gzip_ending v_stream v_result v_gzip_out].
  - exact H1.
  - intros R. destruct (H2 R) as [E _]. apply H1 in E. congruence.
Qed.

Lemma pipe_ok_end (p : Pipeline) :
  pipe_ok p -> v_stream p = Flowing -> pipe_ok (on_stream_end p).
Proof.
  intros [H1 H2] F. split; cbn [on_stream_end v_gzip_ending v_stream v_result v_gzip_out].
  - tauto.
  - intros R. destruct (H2 R) as [E _]. apply H1 in E. congruence.
Qed.

Lemma pipe_ok_error (p : Pipeline) :
  pipe_ok p -> v_stream p = Flowing -> pipe_ok (on_stream_error p).
Proof.
  intros [H1 H2] F. split; cbn [on_stream_error v_gzip_ending v_stream v_result v_gzip_out].
  - split; [|discriminate]. intros E. apply H1 in E. congruence.
  - intros R. destruct (H2 R) as [E _]. apply H1 in E. congruence.
Qed.

Lemma pipe_ok_gzip_data (p : Pipeline) (data : list byte) (pending : list (list byte)) :
  pipe_ok p -> v_gzip_out p = data :: pending ->
  pipe_ok (on_gzip_data p data pending).
Proof.
  intros [H1 H2] Q. split; cbn [on_gzip_data v_gzip_ending v_stream v_result v_gzip_out].
  - exact H1.
  - intros R. destruct (H2 R) as [_ E]. congruence.
Qed.

Lemma pipe_ok_gzip_end (p : Pipeline) :
  pipe_ok p -> v_gzip_ending p = true -> v_gzip_out p = [] ->
  pipe_ok (on_gzip_end p).
Proof.
  intros [H1 H2] E Q. split; cbn [on_gzip_end v_gzip_ending v_stream v_result v_gzip_out].
  - exact H1.
  - auto.
Qed.

Lemma unpublished_with_pipelines (s : Server) (ps : list Pipeline) :
  unpublished s -> unpublished (with_pipelines s ps).
Proof. intros H. exact H. Qed.

(** A process that died stays as it is. *)
Lemma run_dead (s : Server) (schedule : list (Z * event)) (err : jsstring) :
  uncaught s = Some err -> run s schedule = Some s.
Proof.
  intros H. induction schedule as [|tev rest IH]; cbn [run]; [reflexivity|].
  unfold deliver. rewrite H. exact IH.
Qed.

Lemma consistent_main (now : Z) (entries : list (jsstring * dirent)) :
  consistent (main G cwd config now entries).
Proof.
  unfold main, generateManifest.
  destruct (getAssets cwd config entries) as [|a assets]; cbn [map].
  - split; [constructor|]. right. cbn.
    split; [reflexivity|]. split; [constructor|].
    exists now, []. repeat split.
  - split.
    + cbn. constructor; [apply pipe_ok_iteratee|].
      apply Forall_forall. intros p Hp. apply in_map_iff in Hp as (f & <- & _).
      apply pipe_ok_iteratee.
    + left. repeat split.
Qed.

Lemma consistent_deliver (s s' : Server) (tev : Z * event) :
  consistent s -> deliver s tev = Some s' -> consistent s'.
Proof.
  intros [Hok Hpub] Hd. unfold deliver in Hd.
  destruct (uncaught s) as [err|] eqn:U.
  { injection Hd as <-. split; [exact Hok|].
    destruct Hpub as [Hu|(Habs & _)]; [left; exact Hu | discriminate]. }
  destruct (handle_event (pipelines s) (snd tev)) as [[ps call]|] eqn:He;
    [|discriminate].
  injection Hd as <-.
  assert (Hnot : forall i p, nth_error (pipelines s) i = Some p ->
                   (v_stream p = Flowing \/ v_gzip_out p <> [] \/ v_result p = None) ->
                   unpublished s).
  { intros i p Hp Hen. destruct Hpub as [Hu|(_ & Hdone & _)]; [exact Hu|].
    destruct (done_not_flowing _ _ _ Hok Hdone Hp) as (A & B & C).
    destruct Hen as [E|[E|E]]; congruence. }
  destruct (snd tev) as [i data|i|i err|i|i]; cbn [handle_event] in He;
    destruct (nth_error (pipelines s) i) as [p|] eqn:Hp; try discriminate;
    pose proof (nth_error_Forall _ _ _ _ Hok Hp) as Hpok.
  - destruct (v_stream p) eqn:F; try discriminate.
    injection He as <- <-. cbn [after_callback].
    split.
    + cbn [with_pipelines pipelines].
      apply Forall_set_nth; [exact Hok | now apply pipe_ok_data].
    + left. apply unpublished_with_pipelines. eapply Hnot; eauto.
  - destruct (v_stream p) eqn:F; try discriminate.
    injection He as <- <-. cbn [after_callback].
    split.
    + cbn [with_pipelines pipelines].
      apply Forall_set_nth; [exact Hok | now apply pipe_ok_end].
    + left. apply unpublished_with_pipelines. eapply Hnot; eauto.
  - destruct (v_stream p) eqn:F; try discriminate.
    injection He as <- <-. cbn [after_callback main_callback].
    split.
    + cbn [pipelines with_pipelines].
      apply Forall_set_nth; [exact Hok | now apply pipe_ok_error].
    + left. assert (Hu : unpublished s) by (eapply Hnot; eauto).
      exact Hu.
  - destruct (v_gzip_out p) as [|data pending] eqn:Q; try discriminate.
    injection He as <- <-. cbn [after_callback].
    split.
    + cbn [with_pipelines pipelines].
      apply Forall_set_nth; [exact Hok | now apply pipe_ok_gzip_data].
    + left. apply unpublished_with_pipelines. eapply Hnot; eauto.
      right. left. congruence.
  - destruct (v_gzip_ending p) eqn:E; try discriminate.
    destruct (v_gzip_out p) as [|] eqn:Q; try discriminate.
    destruct (v_result p) eqn:R; try discriminate.
    injection He as <- <-.
    assert (Hok' : Forall (@pipe_ok G) (set_nth i (on_gzip_end p) (pipelines s))).
    { apply Forall_set_nth; [exact Hok | now apply pipe_ok_gzip_end]. }
    assert (Hu : unpublished s) by (eapply Hnot; eauto).
    destruct (collect (set_nth i (on_gzip_end p) (pipelines s))) as [m|] eqn:C;
      cbn [option_map after_callback main_callback].
    + split; [exact Hok'|]. right.
      cbn [uncaught with_pipelines pipelines].
      split; [exact U|]. split; [eapply collect_all_done; eauto|].
      exists (fst tev), m. split; [|exact C]. repeat split.
    + split; [exact Hok'|]. left. exact Hu.
Qed.

Lemma consistent_run (s s' : Server) (schedule : list (Z * event)) :
  consistent s -> run s schedule = Some s' -> consistent s'.
Proof.
  revert s. induction schedule as [|tev rest IH]; intros s Hs; cbn [run].
  - intros H. injection H as <-. exact Hs.
  - destruct (deliver s tev) as [s1|] eqn:D; [|discriminate].
    apply IH. eapply consistent_deliver; eauto.
Qed.

Lemma first_error_exists (schedule : list (Z * event)) (t : Z) (i : nat)
      (err : jsstring) :
  In (t, StreamError i err) schedule ->
  exists err', first_error schedule = Some err'.
Proof.
  induction schedule as [|[t' ev] rest IH]; cbn [In first_error]; [tauto|].
  intros [H|H].
  - injection H as -> ->. eauto.
  - destruct ev; eauto.
Qed.

(** What one handler run does to the module variables. *)
Lemma deliver_cases (s s' : Server) (t : Z) (ev : event) :
  uncaught s = None -> deliver s (t, ev) = Some s' ->
  (currentManifest s' = currentManifest s
   /\ currentManifestTimestamp s' = currentManifestTimestamp s
   /\ listening s' = listening s
   /\ start s' = start s
   /\ match ev with
      | StreamError _ err => uncaught s' = Some err
      | _ => uncaught s' = None
      end)
  \/ (exists i m, ev = GzipEnd i /\ uncaught s' = None
                  /\ published s' t m /\ start s' = start s).
Proof.
  intros U Hd. unfold deliver in Hd. rewrite U in Hd. cbn [snd fst] in Hd.
  destruct (handle_event (pipelines s) ev) as [[ps call]|] eqn:He;
    [|discriminate].
  injection Hd as <-.
  destruct ev as [i data|i|i err|i|i]; cbn [handle_event] in He;
    destruct (nth_error (pipelines s) i) as [p|]; try discriminate.
  - destruct (v_stream p); try discriminate.
    injection He as <- <-. left. repeat split; assumption.
  - destruct (v_stream p); try discriminate.
    injection He as <- <-. left. repeat split; assumption.
  - destruct (v_stream p); try discriminate.
    injection He as <- <-. left. repeat split.
  - destruct (v_gzip_out p); try discriminate.
    injection He as <- <-. left. repeat split; assumption.
  - destruct (v_gzip_ending p); try discriminate.
    destruct (v_gzip_out p); try discriminate.
    destruct (v_result p); try discriminate.
    injection He as <- <-.
    destruct (collect (set_nth i (on_gzip_end p) (pipelines s))) as [m|].
    + right. exists i, m. repeat split. exact U.
    + left. repeat split; assumption.
Qed.

(** Once the manifest is published no stream has anything left to say. *)
Lemma published_quiet (s : Server) (tev : Z * event) (m : list ManifestEntry) :
  consistent s -> uncaught s = None -> currentManifest s = Some m ->
  deliver s tev = None.
Proof.
  intros [Hok [Hu|(_ & Hdone & _)]] U Hm.
  { destruct Hu as [Hu _]. congruence. }
  unfold deliver. rewrite U.
  assert (Hq : forall i p, nth_error (pipelines s) i = Some p ->
                 v_stream p = Ended /\ v_gzip_out p = [] /\ v_result p <> None).
  { intros i p. now apply done_not_flowing. }
  destruct (snd tev) as [i data|i|i err|i|i]; cbn [handle_event];
    destruct (nth_error (pipelines s) i) as [p|] eqn:Hp; try reflexivity;
    destruct (Hq i p Hp) as (A & B & C).
  - now rewrite A.
  - now rewrite A.
  - now rewrite A.
  - now rewrite B.
  - rewrite B. destruct (v_gzip_ending p); [|reflexivity].
    destruct (v_result p); [reflexivity | contradiction].
Qed.

Lemma unpublished_not_published (s : Server) (m : list ManifestEntry) :
  unpublished s -> currentManifest s = Some m -> False.
Proof. intros [H _] H'. congruence. Qed.

Lemma dead_unpublished (s : Server) (err : jsstring) :
  consistent s -> uncaught s = Some err -> unpublished s.
Proof.
  intros [_ [Hu|(U & _)]] H; [exact Hu | congruence].
Qed.

(** A run over a schedule with a read failure ends dead, on the first
    failure, with nothing published. *)
Lemma run_first_error (s s' : Server) (schedule : list (Z * event))
      (err : jsstring) :
  consistent s -> uncaught s = None ->
  run s schedule = Some s' -> first_error schedule = Some err ->
  uncaught s' = Some err /\ unpublished s'.
Proof.
  revert s. induction schedule as [|[t ev] rest IH]; intros s Hs U Hr Hf;
    cbn [run first_error] in *; [discriminate|].
  destruct (deliver s (t, ev)) as [s1|] eqn:D; [|discriminate].
  pose proof (consistent_deliver _ _ _ Hs D) as Hs1.
  destruct (deliver_cases _ _ _ _ U D) as [(_ & _ & _ & _ & Hu)|(i & m & -> & U1 & Hp & _)].
  - destruct ev as [i data|i|i e|i|i];
      try (now apply (IH s1)).
    injection Hf as ->.
    rewrite (run_dead s1 rest err Hu) in Hr. injection Hr as <-.
    split; [exact Hu | now apply (dead_unpublished s1 err)].
  - destruct rest as [|tev rest]; [discriminate|].
    cbn [run] in Hr. destruct Hp as (Hm & _).
    rewrite (published_quiet s1 tev m Hs1 U1 Hm) in Hr. discriminate.
Qed.

(** The run that publishes: its last event is the ['end'] of a gzip
    stream, and the timestamp is the time of that event. *)
Lemma run_publishes (s s' : Server) (schedule : list (Z * event))
      (ts : Z) :
  consistent s -> uncaught s = None -> unpublished s ->
  run s schedule = Some s' -> currentManifestTimestamp s' = Some ts ->
  exists before i s1,
    schedule = before ++ [(ts, GzipEnd i)]
    /\ run s before = Some s1 /\ unpublished s1 /\ uncaught s1 = None
    /\ start s' = start s.
Proof.
  revert s. induction schedule as [|[t ev] rest IH]; intros s Hs U Hu Hr Ht;
    cbn [run] in Hr.
  - injection Hr as <-. destruct Hu as (_ & Hu & _). congruence.
  - destruct (deliver s (t, ev)) as [s1|] eqn:D; [|discriminate].
    pose proof (consistent_deliver _ _ _ Hs D) as Hs1.
    destruct (deliver_cases _ _ _ _ U D)
      as [(E1 & E2 & E3 & E4 & E5)|(i & m & -> & U1 & Hp & E4)].
    + assert (Hu1 : unpublished s1).
      { destruct Hu as (A & B & C). repeat split; congruence. }
      destruct (uncaught s1) as [err|] eqn:U1.
      * rewrite (run_dead s1 rest err U1) in Hr. injection Hr as <-.
        destruct Hu1 as (_ & Hu1 & _). congruence.
      * destruct (IH s1 Hs1 U1 Hu1 Hr Ht) as (before & i & s2 & -> & R & A & B & C).
        exists ((t, ev) :: before), i, s2. cbn [run app]. rewrite D.
        split; [reflexivity|]. split; [exact R|]. split; [exact A|].
        split; [exact B | congruence].
    + destruct rest as [|tev rest].
      * cbn [run] in Hr. injection Hr as <-.
        destruct Hp as (_ & Hp & _).
        exists [], i, s. cbn [app run].
        split; [congruence|].
        split; [reflexivity|]. split; [exact Hu|].
        split; [exact U | exact E4].
      * cbn [run] in Hr. destruct Hp as (Hm & _).
        rewrite (published_quiet s1 tev m Hs1 U1 Hm) in Hr. discriminate.
Qed.

Lemma in_flight_start (assets : list jsstring) :
  in_flight (map (iteratee G cwd config) assets) = length assets.
Proof.
  unfold in_flight. induction assets as [|a assets IH]; cbn; [reflexivity|].
  now f_equal.
Qed.

End BuildFacts.

Lemma run_app (G : Gzip) (s : Server G) (a b : list (Z * event)) :
  run s (a ++ b) = match run s a with
                   | Some s1 => run s1 b
                   | None => None
                   end.
Proof.
  revert s. induction a as [|tev a IH]; intros s; cbn [app run]; [reflexivity|].
  destruct (deliver s tev); [apply IH | reflexivity].
Qed.

Lemma main_alive G cwd config now entries :
  uncaught (main G cwd config now entries) = None.
Proof.
  unfold main, generateManifest.
  destruct (map (iteratee G cwd config) (getAssets cwd config entries));
    reflexivity.
Qed.

Lemma main_start G cwd config now entries :
  start (main G cwd config now entries) = now.
Proof.
  unfold main, generateManifest.
  destruct (map (iteratee G cwd config) (getAssets cwd config entries));
    reflexivity.
Qed.

Lemma request_unpublished G cwd config (s : Server G) path :
  unpublished s -> request cwd config s path = None.
Proof.
  intros (_ & _ & H). unfold request, serving. now rewrite H.
Qed.

(** Before a run that ends dead, nothing was published. *)
Lemma dead_run_never_published (G : Gzip) (s0 s1 s : Server G)
      (before after : list (Z * event)) (err : jsstring) :
  consistent s0 ->
  run s0 before = Some s1 -> run s1 after = Some s ->
  uncaught s = Some err ->
  unpublished s1.
Proof.
  intros Hc Hb Ha Hu.
  pose proof (consistent_run G _ _ _ Hc Hb) as Hc1.
  destruct Hc1 as [Hok [Hs1|(U1 & Hd & t1 & m & Hp & Hcol)]]; [exact Hs1|].
  exfalso.
  assert (Hc1 : consistent s1).
  { split; [exact Hok|]. right. split; [exact U1|]. split; [exact Hd|].
    exists t1, m. split; assumption. }
  destruct after as [|tev after]; cbn [run] in Ha.
  - injection Ha as <-. congruence.
  - destruct Hp as (Hm & _).
    rewrite (published_quiet G s1 tev m Hc1 U1 Hm) in Ha. discriminate.
Qed.

(** C6: when the read stream of any file fails during the build that
    [main] starts, the failure reaches [main]'s callback, which throws it:
    the process ends on the first such failure; no manifest, partial or
    not, is ever assigned to [currentManifest], at no point of the run;
    the server never listens and answers no request. *)
Theorem read_error_is_fatal :
  forall (G : Gzip) (cwd : jsstring) (config : Config) (now : Z)
         (entries : list (jsstring * dirent)) (schedule : list (Z * event))
         (s : Server G) (t : Z) (i : nat) (err : jsstring),
    run (main G cwd config now entries) schedule = Some s ->
    In (t, StreamError i err) schedule ->
    exists err',
      first_error schedule = Some err'
      /\ uncaught s = Some err'
      /\ unpublished s
      /\ (forall path, request cwd config s path = None)
      /\ (forall before after s1,
             schedule = before ++ after ->
             run (main G cwd config now entries) before = Some s1 ->
             unpublished s1).
Proof.
  intros G cwd config now entries schedule s t i err Hr Hin.
  destruct (first_error_exists schedule t i err Hin) as [err' Hf].
  pose proof (consistent_main G cwd config now entries) as Hc.
  pose proof (main_alive G cwd config now entries) as Ha.
  destruct (run_first_error G _ _ _ _ Hc Ha Hr Hf) as [Hu Hun].
  exists err'.
  split; [exact Hf|]. split; [exact Hu|]. split; [exact Hun|]. split.
  - intros path. now apply request_unpublished.
  - intros before after s1 -> Hb.
    rewrite run_app, Hb in Hr.
    exact (dead_run_never_published G _ _ _ _ _ _ Hc Hb Hr Hu).
Qed.

Lemma read_error_is_fatal_witness :
  exists s,
    run (main StoredGzip.encoder Scenario.cwd Scenario.config 0 Scenario.entries)
        Scenario.failing = Some s
    /\ exists err',
        first_error Scenario.failing = Some err'
        /\ uncaught s = Some err'
        /\ unpublished s
        /\ (forall path, request Scenario.cwd Scenario.config s path = None)
        /\ (forall before after s1,
               Scenario.failing = before ++ after ->
               run (main StoredGzip.encoder Scenario.cwd Scenario.config 0
                         Scenario.entries) before = Some s1 ->
               unpublished s1).
Proof.
  destruct (run (main StoredGzip.encoder Scenario.cwd Scenario.config 0
                      Scenario.entries) Scenario.failing) as [s|] eqn:E.
  - exists s. split; [reflexivity|].
    apply (read_error_is_fatal StoredGzip.encoder Scenario.cwd Scenario.config 0
             Scenario.entries Scenario.failing s 2000 0%nat (lit "EIO")).
    + exact E.
    + right. left. reflexivity.
  - exfalso.
    assert (X : option_map (fun _ => tt)
                  (run (main StoredGzip.encoder Scenario.cwd Scenario.config 0
                             Scenario.entries) Scenario.failing) = Some tt)
      by (vm_compute; reflexivity).
    rewrite E in X. discriminate X.
Defined.

(** ** The timestamp of the manifest *)

Lemma main_no_assets G cwd config now entries :
  getAssets cwd config entries = [] ->
  published (main G cwd config now entries) now [].
Proof.
  intros H. unfold main, generateManifest. rewrite H. cbn. repeat split.
Qed.

Lemma main_some_assets G cwd config now entries :
  getAssets cwd config entries <> [] ->
  unpublished (main G cwd config now entries).
Proof.
  intros H. unfold main, generateManifest.
  destruct (getAssets cwd config entries); [contradiction|].
  cbn. repeat split.
Qed.

(** C7, as the code has it: the timestamp of the manifest, which
    [handleManifest] sends as [Last-Modified], is the time at which the
    callback of [main] ran, that is the time of the last event of the
    build (the ['end'] of a gzip stream), or the time of the call of
    [main] when there is no asset at all; [start], the time taken at the
    start of the build, is not used for it. *)
Theorem manifest_timestamp_is_publication_time :
  forall (G : Gzip) (cwd : jsstring) (config : Config) (now : Z)
         (entries : list (jsstring * dirent)) (schedule : list (Z * event))
         (s : Server G) (ts : Z),
    run (main G cwd config now entries) schedule = Some s ->
    currentManifestTimestamp s = Some ts ->
    start s = now
    /\ ((getAssets cwd config entries = [] /\ schedule = [] /\ ts = now)
        \/ (exists before i, schedule = before ++ [(ts, GzipEnd i)]))
    /\ (forall r,
           request cwd config s (lit "/assets/manifest.json") = Some r ->
           In (lit "Last-Modified", Date.toUTCString ts) (headers r)).
Proof.
  intros G cwd config now entries schedule s ts Hr Ht.
  pose proof (consistent_main G cwd config now entries) as Hc.
  pose proof (main_alive G cwd config now entries) as Ha.
  assert (Hstart_and_when :
            start s = now
            /\ ((getAssets cwd config entries = [] /\ schedule = [] /\ ts = now)
                \/ (exists before i, schedule = before ++ [(ts, GzipEnd i)]))).
  { destruct (getAssets cwd config entries) as [|a assets] eqn:A.
    - destruct (main_no_assets G cwd config now entries A) as (Hm & Hts & _).
      destruct schedule as [|tev rest]; cbn [run] in Hr.
      + injection Hr as <-. split; [apply main_start|].
        left. repeat split. congruence.
      + rewrite (published_quiet G _ tev [] Hc Ha Hm) in Hr. discriminate.
    - assert (Hu : unpublished (main G cwd config now entries)).
      { apply main_some_assets. rewrite A. discriminate. }
      destruct (run_publishes G _ _ _ _ Hc Ha Hu Hr Ht)
        as (before & i & s1 & -> & _ & _ & _ & Hs).
      split; [rewrite Hs; apply main_start|].
      right. eauto. }
  destruct Hstart_and_when as [H1 H2].
  split; [exact H1|]. split; [exact H2|].
  intros r. unfold request.
  destruct (serving s); [|discriminate].
  rewrite Ht. destruct (currentManifest s) as [m|]; [|discriminate].
  intros H. injection H as <-.
  unfold app_get.
  change (manifest_route (lit "/assets/manifest.json")) with true.
  right. right. left. reflexivity.
Qed.

Lemma manifest_timestamp_is_publication_time_witness :
  exists s,
    run (main StoredGzip.encoder Scenario.cwd Scenario.config 0 Scenario.entries)
        Scenario.good = Some s
    /\ currentManifestTimestamp s = Some 5000
    /\ start s = 0
    /\ ((getAssets Scenario.cwd Scenario.config Scenario.entries = []
         /\ Scenario.good = [] /\ 5000 = 0)
        \/ (exists before i, Scenario.good = before ++ [(5000, GzipEnd i)]))
    /\ (forall r,
           request Scenario.cwd Scenario.config s (lit "/assets/manifest.json")
           = Some r ->
           In (lit "Last-Modified", Date.toUTCString 5000) (headers r)).
Proof.
  assert (X : option_map (@currentManifestTimestamp StoredGzip.encoder)
                (run (main StoredGzip.encoder Scenario.cwd Scenario.config 0
                           Scenario.entries) Scenario.good) = Some (Some 5000))
    by (vm_compute; reflexivity).
  destruct (run (main StoredGzip.encoder Scenario.cwd Scenario.config 0
                      Scenario.entries) Scenario.good) as [s|] eqn:E;
    [|discriminate X].
  injection X as X.
  exists s. split; [reflexivity|]. split; [exact X|].
  apply (manifest_timestamp_is_publication_time StoredGzip.encoder Scenario.cwd
           Scenario.config 0 Scenario.entries Scenario.good s 5000 E X).
Defined.

(** C7, as stated, fails: a build started at time 0 whose last event
    comes at time 5000 is served with the [Last-Modified] of time 5000,
    not that of time 0. *)
Lemma manifest_timestamp_is_not_build_start :
  ~ (forall (G : Gzip) (cwd : jsstring) (config : Config) (now : Z)
            (entries : list (jsstring * dirent)) (schedule : list (Z * event))
            (s : Server G) (r : Response),
        run (main G cwd config now entries) schedule = Some s ->
        request cwd config s (lit "/assets/manifest.json") = Some r ->
        In (lit "Last-Modified", Date.toUTCString now) (headers r)).
Proof.
  intros H.
  specialize (H StoredGzip.encoder Scenario.cwd Scenario.config 0
                Scenario.entries Scenario.good).
  assert (X : option_map
                (fun r => map snd (filter (fun h => str_eqb (fst h) (lit "Last-Modified"))
                                          (headers r)))
                match run (main StoredGzip.encoder Scenario.cwd Scenario.config 0
                                Scenario.entries) Scenario.good with
                | Some s => request Scenario.cwd Scenario.config s
                                    (lit "/assets/manifest.json")
                | None => None
                end
              = Some [lit "Thu, 01 Jan 1970 00:00:05 GMT"])
    by (vm_compute; reflexivity).
  assert (Hrun : exists s,
             run (main StoredGzip.encoder Scenario.cwd Scenario.config 0
                       Scenario.entries) Scenario.good = Some s
             /\ exists r,
                 request Scenario.cwd Scenario.config s
                         (lit "/assets/manifest.json") = Some r
                 /\ map snd (filter (fun h => str_eqb (fst h) (lit "Last-Modified"))
                                    (headers r))
                    = [lit "Thu, 01 Jan 1970 00:00:05 GMT"]).
  { destruct (run (main StoredGzip.encoder Scenario.cwd Scenario.config 0
                        Scenario.entries) Scenario.good) as [s|];
      [|discriminate X].
    exists s. split; [reflexivity|].
    destruct (request Scenario.cwd Scenario.config s (lit "/assets/manifest.json"))
      as [r|]; [|discriminate X].
    exists r. split; [reflexivity|]. now injection X. }
  clear X.
  destruct Hrun as (s & Hs & r & Hreq & Hlm).
  specialize (H s r Hs Hreq).
  assert (Hin : In (Date.toUTCString 0)
                   (map snd (filter (fun h => str_eqb (fst h) (lit "Last-Modified"))
                                    (headers r)))).
  { apply in_map_iff. exists (lit "Last-Modified", Date.toUTCString 0).
    split; [reflexivity|]. apply filter_In. split; [exact H|].
    apply str_eqb_refl. }
  rewrite Hlm in Hin. destruct Hin as [Hin|[]].
  vm_compute in Hin. discriminate.
Qed.

(** ** How many files are processed at once *)

Lemma in_flight_le (G : Gzip) (ps : list (Pipeline G)) :
  (in_flight ps <= length ps)%nat.
Proof. unfold in_flight. apply filter_length_le. Qed.

Lemma deliver_length (G : Gzip) (s s' : Server G) (tev : Z * event) :
  deliver s tev = Some s' -> length (pipelines s') = length (pipelines s).
Proof.
  unfold deliver. destruct (uncaught s).
  { intros H. now injection H as <-. }
  destruct (handle_event (pipelines s) (snd tev)) as [[ps call]|] eqn:He;
    [|discriminate].
  intros H. injection H as <-.
  assert (L : length ps = length (pipelines s)).
  { destruct (snd tev) as [i data|i|i err|i|i]; cbn [handle_event] in He;
      destruct (nth_error (pipelines s) i) as [p|]; try discriminate.
    - destruct (v_stream p); try discriminate.
      injection He as <- _. apply set_nth_length.
    - destruct (v_stream p); try discriminate.
      injection He as <- _. apply set_nth_length.
    - destruct (v_stream p); try discriminate.
      injection He as <- _. apply set_nth_length.
    - destruct (v_gzip_out p); try discriminate.
      injection He as <- _. apply set_nth_length.
    - destruct (v_gzip_ending p); try discriminate.
      destruct (v_gzip_out p); try discriminate.
      destruct (v_result p); try discriminate.
      injection He as <- _. apply set_nth_length. }
  destruct call as [[err|m]|]; exact L.
Qed.

Lemma run_length (G : Gzip) (s s' : Server G) (schedule : list (Z * event)) :
  run s schedule = Some s' -> length (pipelines s') = length (pipelines s).
Proof.
  revert s. induction schedule as [|tev rest IH]; intros s; cbn [run].
  - intros H. now injection H as <-.
  - destruct (deliver s tev) as [s1|] eqn:D; [|discriminate].
    intros H. rewrite (IH _ H). eapply deliver_length; eauto.
Qed.

Lemma main_pipelines G cwd config now entries :
  pipelines (main G cwd config now entries)
  = map (iteratee G cwd config) (getAssets cwd config entries).
Proof.
  unfold main, generateManifest.
  destruct (map (iteratee G cwd config) (getAssets cwd config entries));
    reflexivity.
Qed.

(** C9, as the code has it: [async.map] starts the pipeline of every
    discovered file at once, whatever the configuration says: right after
    [main] has started the build, as many pipelines are in flight as there
    are assets, and that number is the only bound during the build. *)
Theorem all_pipelines_in_flight_at_once :
  forall (G : Gzip) (cwd : jsstring) (config : Config) (now : Z)
         (entries : list (jsstring * dirent)),
    in_flight (pipelines (main G cwd config now entries))
    = length (getAssets cwd config entries)
    /\ (forall schedule s,
           run (main G cwd config now entries) schedule = Some s ->
           (in_flight (pipelines s) <= length (getAssets cwd config entries))%nat).
Proof.
  intros G cwd config now entries. split.
  - rewrite main_pipelines. apply in_flight_start.
  - intros schedule s Hr.
    eapply Nat.le_trans; [apply in_flight_le|].
    rewrite (run_length G _ _ _ Hr), main_pipelines, length_map.
    apply Nat.le_refl.
Qed.

(** ** Paths *)

Section PathFacts.

Import Path.

Lemma valid_name_good (n : jsstring) : valid_name n = true <-> good_seg n.
Proof.
  unfold valid_name, good_seg, no_slash.
  rewrite !andb_true_iff, !negb_true_iff, !str_eqb_neq, forallb_forall.
  split.
  - intros (((A & B) & C) & D). repeat split; auto.
    intros Hin. specialize (D _ Hin).
    rewrite negb_true_iff, Ascii.eqb_neq in D. congruence.
  - intros (A & B & C & D). repeat split; auto.
    intros c Hin. rewrite negb_true_iff, Ascii.eqb_neq.
    intros ->. contradiction.
Qed.

Lemma split_nonempty (p : jsstring) : split p <> [].
Proof.
  destruct p as [|c r]; cbn [split]; [discriminate|].
  destruct (Ascii.eqb c slash); [discriminate|].
  destruct (split r); discriminate.
Qed.

Lemma split_app_slash (a b : jsstring) :
  split (a ++ slash :: b) = split a ++ split b.
Proof.
  induction a as [|c a IH]; cbn [split Datatypes.app].
  - rewrite Ascii.eqb_refl. reflexivity.
  - destruct (Ascii.eqb c slash); [now rewrite IH|].
    rewrite IH. pose proof (split_nonempty a) as H.
    destruct (split a) as [|seg segs]; [contradiction|]. reflexivity.
Qed.

Lemma split_no_slash (s : jsstring) : no_slash s -> split s = [s].
Proof.
  unfold no_slash. induction s as [|c s IH]; intros H; cbn [split]; [reflexivity|].
  destruct (Ascii.eqb_spec c slash) as [->|_].
  - exfalso. apply H. now left.
  - rewrite IH; [reflexivity|]. intros Hin. apply H. now right.
Qed.

Lemma no_slash_nil : no_slash [].
Proof. intros []. Qed.

Lemma no_slash_cons (c : ascii) (s : jsstring) :
  c <> slash -> no_slash s -> no_slash (c :: s).
Proof. intros Hc Hs [H|H]; [congruence | contradiction]. Qed.

Lemma split_segments_no_slash (p : jsstring) : Forall no_slash (split p).
Proof.
  induction p as [|c r IH]; cbn [split].
  - constructor; [exact no_slash_nil | constructor].
  - destruct (Ascii.eqb_spec c slash) as [->|Hc].
    + constructor; [exact no_slash_nil | exact IH].
    + destruct (split r) as [|seg segs].
      * constructor; [|constructor]. apply no_slash_cons; [exact Hc | exact no_slash_nil].
      * inversion IH as [|? ? Hseg Hsegs]; subst.
        constructor; [|exact Hsegs]. now apply no_slash_cons.
Qed.

Lemma split_unsplit (segs : list jsstring) :
  segs <> [] -> Forall no_slash segs -> split (unsplit segs) = segs.
Proof.
  induction segs as [|s segs IH]; intros Hne Hall; [contradiction|].
  inversion Hall as [|? ? Hs Hsegs]; subst.
  destruct segs as [|s' segs].
  - now apply split_no_slash.
  - change (unsplit (s :: s' :: segs)) with (s ++ slash :: unsplit (s' :: segs)).
    rewrite split_app_slash, (split_no_slash s Hs).
    cbn [Datatypes.app]. f_equal. apply IH; [discriminate | exact Hsegs].
Qed.

Lemma norm_stack_nil (al : bool) (st : list jsstring) : norm_stack al [] st = st.
Proof. reflexivity. Qed.

Lemma norm_stack_app (al : bool) (a b : jsstring) (st : list jsstring) :
  norm_stack al (a ++ slash :: b) st = norm_stack al b (norm_stack al a st).
Proof.
  unfold norm_stack. now rewrite split_app_slash, fold_left_app.
Qed.

Lemma norm_step_good (al : bool) (st : list jsstring) (s : jsstring) :
  good_seg s -> norm_step al st s = s :: st.
Proof.
  intros (A & B & C & _). unfold norm_step.
  apply str_eqb_neq in A, B, C. now rewrite A, B, C.
Qed.

Lemma norm_fold_good (al : bool) (segs st : list jsstring) :
  Forall good_seg segs ->
  fold_left (norm_step al) segs st = rev segs ++ st.
Proof.
  intros H. revert st. induction H as [|s segs Hs _ IH]; intros st; cbn [fold_left rev].
  - reflexivity.
  - rewrite (norm_step_good al st s Hs), IH, <- app_assoc. reflexivity.
Qed.

Lemma dotdot_no_slash : no_slash dotdot.
Proof. intros [H|[H|[]]]; discriminate. Qed.

Lemma kept_seg_no_slash (s : jsstring) : kept_seg s -> no_slash s.
Proof. intros [(_ & _ & _ & H)| ->]; [exact H | exact dotdot_no_slash]. Qed.

Lemma kept_seg_nonempty (s : jsstring) : kept_seg s -> s <> [].
Proof. intros [(H & _)| ->]; [exact H | discriminate]. Qed.

Lemma norm_step_cases (al : bool) (st : list jsstring) (s : jsstring) :
  no_slash s ->
  (s = [] \/ s = [dot]) /\ norm_step al st s = st
  \/ s = dotdot
  \/ good_seg s /\ norm_step al st s = s :: st.
Proof.
  intros Hs. unfold norm_step.
  destruct (str_eqb s []) eqn:A; [apply str_eqb_eq in A; auto|].
  destruct (str_eqb s [dot]) eqn:B; [apply str_eqb_eq in B; auto|].
  destruct (str_eqb s dotdot) eqn:C; [apply str_eqb_eq in C; auto|].
  right. right. apply str_eqb_neq in A, B, C. repeat split; auto.
Qed.

Lemma norm_step_dotdot (al : bool) (st : list jsstring) :
  norm_step al st dotdot
  = match st with
    | [] => if al then [dotdot] else []
    | top :: below =>
        if str_eqb top dotdot
        then (if al then dotdot :: st else st)
        else below
    end.
Proof. reflexivity. Qed.

Lemma norm_step_kept (al : bool) (st : list jsstring) (s : jsstring) :
  no_slash s -> Forall kept_seg st -> Forall kept_seg (norm_step al st s).
Proof.
  intros Hs Hst.
  destruct (norm_step_cases al st s Hs) as [[_ ->]|[->|[Hg ->]]].
  - exact Hst.
  - rewrite norm_step_dotdot. destruct st as [|top below].
    + destruct al; [constructor; [now right | constructor] | constructor].
    + inversion Hst; subst. destruct (str_eqb top dotdot); [destruct al|]; auto.
      constructor; [now right | auto].
  - constructor; [now left | exact Hst].
Qed.

Lemma norm_step_clean (st : list jsstring) (s : jsstring) :
  no_slash s -> Forall good_seg st -> Forall good_seg (norm_step false st s).
Proof.
  intros Hs Hst.
  destruct (norm_step_cases false st s Hs) as [[_ ->]|[->|[Hg ->]]].
  - exact Hst.
  - rewrite norm_step_dotdot. destruct st as [|top below]; [constructor|].
    inversion Hst; subst. destruct (str_eqb top dotdot); auto.
  - constructor; assumption.
Qed.

Lemma norm_fold_kept (al : bool) (segs st : list jsstring) :
  Forall no_slash segs -> Forall kept_seg st ->
  Forall kept_seg (fold_left (norm_step al) segs st).
Proof.
  intros H. revert st. induction H as [|s segs Hs _ IH]; intros st Hst;
    cbn [fold_left]; [exact Hst|].
  apply IH. now apply norm_step_kept.
Qed.

Lemma norm_fold_clean (segs st : list jsstring) :
  Forall no_slash segs -> Forall good_seg st ->
  Forall good_seg (fold_left (norm_step false) segs st).
Proof.
  intros H. revert st. induction H as [|s segs Hs _ IH]; intros st Hst;
    cbn [fold_left]; [exact Hst|].
  apply IH. now apply norm_step_clean.
Qed.

Lemma norm_stack_clean (p : jsstring) (st : list jsstring) :
  Forall good_seg st -> Forall good_seg (norm_stack false p st).
Proof. apply norm_fold_clean, split_segments_no_slash. Qed.

Lemma norm_stack_kept (al : bool) (p : jsstring) :
  Forall kept_seg (norm_stack al p []).
Proof. apply norm_fold_kept; [apply split_segments_no_slash | constructor]. Qed.

Lemma norm_step_dotdot_clean (st : list jsstring) :
  Forall good_seg st -> norm_step false st dotdot = tl st.
Proof.
  intros H. rewrite norm_step_dotdot. destruct st as [|top below]; [reflexivity|].
  inversion H as [|? ? (_ & _ & Hd & _) _]; subst.
  apply str_eqb_neq in Hd. now rewrite Hd.
Qed.

Lemma tl_clean (st : list jsstring) : Forall good_seg st -> Forall good_seg (tl st).
Proof. intros H. destruct H; [constructor | assumption]. Qed.

Lemma pops_clean (k : nat) (st : list jsstring) :
  Forall good_seg st -> Forall good_seg (pops k st).
Proof. intros H. induction k; cbn [pops]; [exact H | now apply tl_clean]. Qed.

Lemma pops_tl (k : nat) (st : list jsstring) : pops k (tl st) = tl (pops k st).
Proof. induction k; cbn [pops]; [reflexivity | now rewrite IHk]. Qed.

Lemma norm_fold_dotdots (k : nat) (st : list jsstring) :
  Forall good_seg st ->
  fold_left (norm_step false) (repeat dotdot k) st = pops k st.
Proof.
  revert st. induction k as [|k IH]; intros st H; cbn [repeat fold_left pops].
  - reflexivity.
  - rewrite (norm_step_dotdot_clean st H), IH by now apply tl_clean.
    apply pops_tl.
Qed.

Lemma repeat_snoc {A : Type} (x : A) (k : nat) :
  repeat x k ++ [x] = x :: repeat x k.
Proof. induction k; cbn; [reflexivity | now rewrite IHk]. Qed.

Lemma rev_repeat {A : Type} (x : A) (k : nat) : rev (repeat x k) = repeat x k.
Proof.
  induction k; cbn [repeat rev]; [reflexivity|].
  rewrite IHk. apply repeat_snoc.
Qed.

(** A relative path and its normal form climb and descend alike from any
    stack of plain segments. *)
Lemma norm_step_sim (base : list jsstring) (s : jsstring) (k : nat)
      (names : list jsstring) :
  Forall good_seg base -> no_slash s -> Forall good_seg names ->
  exists k' names',
    Forall good_seg names'
    /\ norm_step true (names ++ repeat dotdot k) s = names' ++ repeat dotdot k'
    /\ norm_step false (names ++ pops k base) s = names' ++ pops k' base.
Proof.
  intros Hb Hs Hn.
  destruct (norm_step_cases true (names ++ repeat dotdot k) s Hs)
    as [[Hs' E]|[->|[Hg E]]].
  - exists k, names. split; [exact Hn|]. split; [exact E|].
    unfold norm_step. destruct Hs' as [-> | ->]; reflexivity.
  - destruct names as [|n names].
    + cbn [Datatypes.app]. exists (S k), []. split; [constructor|].
      cbn [Datatypes.app]. split.
      * rewrite norm_step_dotdot. destruct k; reflexivity.
      * apply norm_step_dotdot_clean. now apply pops_clean.
    + inversion Hn as [|? ? Hgn Hn']; subst.
      exists k, names. split; [exact Hn'|].
      rewrite !norm_step_dotdot. cbn [Datatypes.app].
      destruct Hgn as (_ & _ & Hd & _). apply str_eqb_neq in Hd.
      rewrite Hd. split; reflexivity.
  - exists k, (s :: names). split; [now constructor|]. split; [exact E|].
    now rewrite norm_step_good.
Qed.

Lemma norm_fold_sim (base segs : list jsstring) :
  Forall good_seg base -> Forall no_slash segs ->
  forall k names,
    Forall good_seg names ->
    exists k' names',
      Forall good_seg names'
      /\ fold_left (norm_step true) segs (names ++ repeat dotdot k)
         = names' ++ repeat dotdot k'
      /\ fold_left (norm_step false) segs (names ++ pops k base)
         = names' ++ pops k' base.
Proof.
  intros Hb Hsegs. induction Hsegs as [|s segs Hs _ IH]; intros k names Hn.
  - exists k, names. repeat split; assumption.
  - cbn [fold_left].
    destruct (norm_step_sim base s k names Hb Hs Hn) as (k1 & n1 & Hn1 & E1 & E2).
    rewrite E1, E2. now apply IH.
Qed.

Lemma norm_stack_of_normal_form (base : list jsstring) (p : jsstring) :
  Forall good_seg base ->
  fold_left (norm_step false) (rev (norm_stack true p [])) base
  = norm_stack false p base.
Proof.
  intros Hb. unfold norm_stack.
  destruct (norm_fold_sim base (split p) Hb (split_segments_no_slash p) 0 []
              (Forall_nil _)) as (k & names & Hn & E1 & E2).
  cbn [Datatypes.app repeat pops] in E1, E2. rewrite E1, E2.
  rewrite rev_app_distr, rev_repeat, fold_left_app.
  rewrite (norm_fold_dotdots k base Hb).
  rewrite norm_fold_good by now apply Forall_rev.
  now rewrite rev_involutive.
Qed.

Lemma norm_fold_fixed (st : list jsstring) :
  Forall good_seg st -> fold_left (norm_step false) (rev st) [] = st.
Proof.
  intros H. rewrite norm_fold_good by now apply Forall_rev.
  now rewrite rev_involutive, app_nil_r.
Qed.

Lemma good_seg_no_slash (l : list jsstring) :
  Forall good_seg l -> Forall no_slash l.
Proof. apply Forall_impl. intros s (_ & _ & _ & H). exact H. Qed.

Lemma good_seg_kept (l : list jsstring) : Forall good_seg l -> Forall kept_seg l.
Proof. apply Forall_impl. intros s H. now left. Qed.

Lemma kept_no_slash (l : list jsstring) : Forall kept_seg l -> Forall no_slash l.
Proof. apply Forall_impl, kept_seg_no_slash. Qed.

(** The first character of a joined list of segments. *)
Lemma unsplit_head (l : list jsstring) :
  l <> [] -> Forall kept_seg l ->
  exists c rest, unsplit l = c :: rest /\ c <> slash.
Proof.
  intros Hne Hl. destruct l as [|s l]; [contradiction|].
  inversion Hl as [|? ? Hs _]; subst.
  pose proof (kept_seg_nonempty s Hs) as Hs1.
  pose proof (kept_seg_no_slash s Hs) as Hs2.
  destruct s as [|c s]; [contradiction|].
  exists c. destruct l as [|s' l]; cbn [unsplit Datatypes.app]; eexists; split;
    try reflexivity; intros ->; apply Hs2; now left.
Qed.

Lemma isAbsolute_unsplit (l : list jsstring) :
  l <> [] -> Forall kept_seg l -> isAbsolute (unsplit l) = false.
Proof.
  intros Hne Hl. destruct (unsplit_head l Hne Hl) as (c & r & E & Hc).
  rewrite E. cbn. now apply Ascii.eqb_neq.
Qed.

Lemma unsplit_cons (s : jsstring) (l : list jsstring) :
  l <> [] -> unsplit (s :: l) = s ++ slash :: unsplit l.
Proof. destruct l; [contradiction | reflexivity]. Qed.

Lemma unsplit_one (s : jsstring) : unsplit [s] = s.
Proof. reflexivity. Qed.

(** The last character of a joined list of segments. *)
Lemma unsplit_last (l : list jsstring) :
  l <> [] -> Forall kept_seg l ->
  exists c rest, rev (unsplit l) = c :: rest /\ c <> slash.
Proof.
  induction l as [|s l IH]; intros Hne Hl; [contradiction|].
  inversion Hl as [|? ? Hs Hl']; subst.
  destruct (list_eq_dec jsstring_dec l []) as [->|Hl0].
  - rewrite unsplit_one.
    pose proof (kept_seg_nonempty s Hs) as Hs1.
    pose proof (kept_seg_no_slash s Hs) as Hs2.
    destruct (rev s) as [|c r] eqn:R.
    + apply (f_equal (@rev ascii)) in R. rewrite rev_involutive in R.
      cbn in R. contradiction.
    + exists c, r. split; [reflexivity|]. intros ->. apply Hs2.
      apply in_rev. rewrite R. now left.
  - destruct (IH Hl0 Hl') as (c & rest & E & Hc).
    rewrite (unsplit_cons s l Hl0), rev_app_distr. cbn [rev].
    rewrite E. exists c. eexists. split; [reflexivity | exact Hc].
Qed.

Lemma isAbsolute_app (d x : jsstring) :
  d <> [] -> isAbsolute (d ++ x) = isAbsolute d.
Proof. destruct d; [contradiction | reflexivity]. Qed.

Lemma ends_with_slash_app (d x : jsstring) (c : ascii) (rest : jsstring) :
  rev x = c :: rest -> ends_with_slash (d ++ x) = Ascii.eqb c slash.
Proof.
  intros E. unfold ends_with_slash. rewrite rev_app_distr, E. reflexivity.
Qed.

Lemma normalizeString_joined (al : bool) (d : jsstring) (names : list jsstring) :
  names <> [] -> Forall good_seg names ->
  normalizeString (d ++ slash :: unsplit names) al
  = unsplit (rev (norm_stack al d []) ++ names).
Proof.
  intros Hne Hn. unfold normalizeString.
  rewrite norm_stack_app. unfold norm_stack at 1.
  rewrite split_unsplit by (auto using good_seg_no_slash).
  rewrite norm_fold_good by exact Hn.
  now rewrite rev_app_distr, rev_involutive.
Qed.

(** [path.join(d, names.join('/'))] for a directory [d] that is not the
    empty string. *)
Lemma normalize_joined (d : jsstring) (names : list jsstring) :
  d <> [] -> names <> [] -> Forall good_seg names ->
  normalize (d ++ slash :: unsplit names)
  = (if isAbsolute d then [slash] else [])
      ++ unsplit (rev (norm_stack (negb (isAbsolute d)) d []) ++ names).
Proof.
  intros Hd Hne Hn.
  destruct (unsplit_last names Hne (good_seg_kept _ Hn)) as (c & rest & E & Hc).
  assert (Et : ends_with_slash (d ++ slash :: unsplit names) = false).
  { rewrite (ends_with_slash_app d (slash :: unsplit names) c (rest ++ [slash])).
    - now apply Ascii.eqb_neq.
    - cbn [rev]. now rewrite E. }
  assert (Ea : isAbsolute (d ++ slash :: unsplit names) = isAbsolute d)
    by now apply isAbsolute_app.
  unfold normalize.
  destruct (d ++ slash :: unsplit names) as [|c0 p0] eqn:P.
  { destruct d; discriminate. }
  rewrite Et, Ea, <- P, normalizeString_joined by assumption.
  set (st := norm_stack (negb (isAbsolute d)) d []).
  assert (Hk : Forall kept_seg (rev st ++ names)).
  { apply Forall_app. split; [|now apply good_seg_kept].
    apply Forall_rev, norm_stack_kept. }
  destruct (unsplit_head (rev st ++ names)) as (c1 & r1 & E1 & _);
    [destruct (rev st); [cbn; exact Hne | discriminate] | exact Hk |].
  rewrite E1. destruct (isAbsolute d); reflexivity.
Qed.

Lemma normalize_names (names : list jsstring) :
  names <> [] -> Forall good_seg names ->
  normalize (unsplit names) = unsplit names.
Proof.
  intros Hne Hn.
  destruct (unsplit_head names Hne (good_seg_kept _ Hn)) as (c & r & E & Hc).
  destruct (unsplit_last names Hne (good_seg_kept _ Hn)) as (c' & r' & E' & Hc').
  unfold normalize, normalizeString, norm_stack.
  rewrite split_unsplit by (auto using good_seg_no_slash).
  rewrite norm_fold_good by exact Hn.
  rewrite app_nil_r, rev_involutive.
  unfold ends_with_slash, isAbsolute. rewrite E', E.
  apply Ascii.eqb_neq in Hc, Hc'. rewrite Hc, Hc'. reflexivity.
Qed.

Lemma join_two (d : jsstring) (names : list jsstring) :
  names <> [] -> Forall good_seg names ->
  join [d; unsplit names]
  = match d with
    | [] => unsplit names
    | _ => (if isAbsolute d then [slash] else [])
             ++ unsplit (rev (norm_stack (negb (isAbsolute d)) d []) ++ names)
    end.
Proof.
  intros Hne Hn.
  destruct (unsplit_head names Hne (good_seg_kept _ Hn)) as (c & r & E & Hc).
  unfold join. cbn [join_args]. destruct d as [|c0 d].
  - rewrite E, <- E. now apply normalize_names.
  - rewrite E, <- E. apply normalize_joined; [discriminate | assumption..].
Qed.

Variable cwd : jsstring.
Hypothesis cwd_absolute : isAbsolute cwd = true.

Lemma cwd_nonempty : cwd <> [].
Proof. intros E. rewrite E in cwd_absolute. discriminate. Qed.

Lemma rstack_clean (p : jsstring) : Forall good_seg (rstack cwd p).
Proof.
  unfold rstack. apply norm_stack_clean.
  destruct (isAbsolute p); [constructor|].
  apply norm_stack_clean. constructor.
Qed.

Lemma resolve_loop_nil (rest : list jsstring) (acc : jsstring) :
  resolve_loop ([] :: rest) acc = resolve_loop rest acc.
Proof. reflexivity. Qed.

Lemma resolve_loop_cons (p : jsstring) (rest : list jsstring) (acc : jsstring) :
  p <> [] ->
  resolve_loop (p :: rest) acc
  = if isAbsolute p then (p ++ slash :: acc, true)
    else resolve_loop rest (p ++ slash :: acc).
Proof. destruct p; [contradiction | reflexivity]. Qed.

Lemma norm_stack_trailing (al : bool) (p : jsstring) (st : list jsstring) :
  norm_stack al (p ++ [slash]) st = norm_stack al p st.
Proof. now rewrite norm_stack_app, norm_stack_nil. Qed.

Lemma resolve_loop_last (acc : jsstring) :
  resolve_loop [cwd] acc = (cwd ++ slash :: acc, true).
Proof.
  rewrite resolve_loop_cons by exact cwd_nonempty.
  now rewrite cwd_absolute.
Qed.

(** [path.resolve(p)] *)
Lemma resolve_one (p : jsstring) :
  resolve cwd [p] = slash :: unsplit (rev (rstack cwd p)).
Proof.
  unfold resolve, rstack. cbn [rev Datatypes.app].
  destruct (list_eq_dec ascii_dec p []) as [->|Hp].
  - rewrite resolve_loop_nil, resolve_loop_last.
    cbn [negb isAbsolute]. unfold normalizeString.
    now rewrite norm_stack_trailing, norm_stack_nil.
  - rewrite resolve_loop_cons by exact Hp.
    destruct (isAbsolute p).
    + cbn [negb]. unfold normalizeString. now rewrite norm_stack_trailing.
    + rewrite resolve_loop_last. cbn [negb]. unfold normalizeString.
      now rewrite norm_stack_app, norm_stack_trailing.
Qed.

(** [path.resolve(dir, names.join('/'))] *)
Lemma resolve_below (dir : jsstring) (names : list jsstring) :
  names <> [] -> Forall good_seg names ->
  resolve cwd [dir; unsplit names]
  = slash :: unsplit (rev (rstack cwd dir) ++ names).
Proof.
  intros Hne Hn.
  destruct (unsplit_head names Hne (good_seg_kept _ Hn)) as (c & r & E & Hc).
  assert (Hrel : isAbsolute (unsplit names) = false).
  { rewrite E. cbn. now apply Ascii.eqb_neq. }
  assert (Hx : unsplit names <> []) by (rewrite E; discriminate).
  assert (Hstack : forall st,
             norm_stack false (unsplit names ++ [slash]) st = rev names ++ st).
  { intros st. rewrite norm_stack_trailing. unfold norm_stack.
    rewrite split_unsplit by (auto using good_seg_no_slash).
    now apply norm_fold_good. }
  unfold resolve, rstack. cbn [rev Datatypes.app].
  rewrite resolve_loop_cons, Hrel by exact Hx.
  destruct (list_eq_dec ascii_dec dir []) as [->|Hd].
  - rewrite resolve_loop_nil, resolve_loop_last.
    cbn [negb isAbsolute]. unfold normalizeString.
    rewrite norm_stack_app, Hstack, norm_stack_nil.
    now rewrite rev_app_distr, rev_involutive.
  - rewrite resolve_loop_cons by exact Hd.
    destruct (isAbsolute dir).
    + cbn [negb]. unfold normalizeString.
      rewrite norm_stack_app, Hstack.
      now rewrite rev_app_distr, rev_involutive.
    + rewrite resolve_loop_last. cbn [negb]. unfold normalizeString.
      rewrite norm_stack_app, norm_stack_app, Hstack.
      now rewrite rev_app_distr, rev_involutive.
Qed.

(** The segments of [path.join(d, names.join('/'))], once resolved: those
    of [d], then the names. *)
Lemma rstack_join (d : jsstring) (names : list jsstring) :
  names <> [] -> Forall good_seg names ->
  rstack cwd (join [d; unsplit names]) = rev names ++ rstack cwd d.
Proof.
  intros Hne Hn.
  pose proof (good_seg_no_slash _ Hn) as Hns.
  rewrite join_two by assumption.
  destruct d as [|c0 d0] eqn:D.
  - unfold rstack.
    rewrite (isAbsolute_unsplit names Hne (good_seg_kept _ Hn)).
    cbn [isAbsolute]. rewrite norm_stack_nil.
    unfold norm_stack at 1. rewrite split_unsplit by assumption.
    now rewrite norm_fold_good.
  - rewrite <- D.
    assert (Hq : forall st,
               Forall kept_seg st ->
               split (unsplit (rev st ++ names)) = rev st ++ names
               /\ isAbsolute (unsplit (rev st ++ names)) = false).
    { intros st Hst.
      assert (Hk : Forall kept_seg (rev st ++ names)).
      { apply Forall_app. split; [now apply Forall_rev | now apply good_seg_kept]. }
      assert (Hne' : rev st ++ names <> []).
      { destruct (rev st); [exact Hne | discriminate]. }
      split; [apply split_unsplit; [exact Hne' | now apply kept_no_slash]|].
      now apply isAbsolute_unsplit. }
    unfold rstack at 2.
    destruct (isAbsolute d) eqn:A; cbn [negb Datatypes.app].
    + destruct (Hq _ (norm_stack_kept false d)) as [Hsplit _].
      unfold rstack. cbn [isAbsolute]. rewrite Ascii.eqb_refl.
      change (slash :: unsplit (rev (norm_stack false d []) ++ names))
        with ([] ++ slash :: unsplit (rev (norm_stack false d []) ++ names)).
      rewrite norm_stack_app, norm_stack_nil.
      unfold norm_stack at 1. rewrite Hsplit, fold_left_app.
      rewrite norm_fold_fixed by (apply norm_stack_clean; constructor).
      now apply norm_fold_good.
    + destruct (Hq _ (norm_stack_kept true d)) as [Hsplit Hrel].
      unfold rstack. rewrite Hrel.
      unfold norm_stack at 1. rewrite Hsplit, fold_left_app.
      rewrite norm_stack_of_normal_form by (apply norm_stack_clean; constructor).
      now apply norm_fold_good.
Qed.

Lemma segments_resolved (l : list jsstring) :
  Forall good_seg l -> segments (slash :: unsplit l) = l.
Proof.
  intros Hl. unfold segments. cbn [split]. rewrite Ascii.eqb_refl.
  cbn [filter str_eqb]. rewrite str_eqb_refl. cbn [negb].
  destruct l as [|s l]; [reflexivity|].
  rewrite split_unsplit by (auto using good_seg_no_slash; discriminate).
  apply forallb_filter_id. apply forallb_forall. intros x Hx.
  rewrite Forall_forall in Hl. destruct (Hl x Hx) as (H & _).
  apply negb_true_iff. now apply str_eqb_neq.
Qed.

Lemma drop_common_prefix (l names : list jsstring) :
  names <> [] -> Forall good_seg names ->
  drop_common l (l ++ names) = ([], names).
Proof.
  intros Hne Hn. induction l as [|x l IH]; cbn [drop_common Datatypes.app].
  - reflexivity.
  - now rewrite str_eqb_refl.
Qed.

(** [path.relative(frm, to)] when [to] resolves below [frm]. *)
Lemma relative_below (frm to : jsstring) (names : list jsstring) :
  names <> [] -> Forall good_seg names ->
  rstack cwd to = rev names ++ rstack cwd frm ->
  relative cwd frm to = unsplit names.
Proof.
  intros Hne Hn Hto.
  assert (Hlen : forall (l : list jsstring), l ++ names <> l).
  { intros l E. apply (f_equal (@Datatypes.length jsstring)) in E.
    rewrite length_app in E. destruct names; [contradiction|]. cbn in E. lia. }
  unfold relative.
  destruct (str_eqb frm to) eqn:E1.
  { apply str_eqb_eq in E1. subst to. exfalso.
    apply (f_equal (@rev jsstring)) in Hto.
    rewrite rev_app_distr, rev_involutive in Hto.
    symmetry in Hto. exact (Hlen _ Hto). }
  rewrite !resolve_one, Hto, rev_app_distr, rev_involutive.
  pose proof (rstack_clean frm) as Hc.
  assert (Hc' : Forall good_seg (rev (rstack cwd frm) ++ names)).
  { apply Forall_app. split; [now apply Forall_rev | exact Hn]. }
  destruct (str_eqb (slash :: unsplit (rev (rstack cwd frm)))
                    (slash :: unsplit (rev (rstack cwd frm) ++ names))) eqn:E2.
  { apply str_eqb_eq in E2. exfalso.
    apply (f_equal segments) in E2.
    rewrite !segments_resolved in E2 by (auto using Forall_rev).
    symmetry in E2. exact (Hlen _ E2). }
  rewrite !segments_resolved by (auto using Forall_rev).
  now rewrite drop_common_prefix.
Qed.

End PathFacts.

(** ** Discovery *)

Lemma wf_dirent_Directory (entries : list (jsstring * dirent)) :
  wf_dirent (Directory entries)
  = forallb valid_name (map fst entries)
    && distinct (map fst entries)
    && forallb (fun ne => wf_dirent (snd ne)) entries.
Proof. reflexivity. Qed.

Lemma files_under_Directory (entries : list (jsstring * dirent)) :
  files_under (Directory entries)
  = flat_map (fun ne => map (cons (fst ne)) (files_under (snd ne))) entries.
Proof. reflexivity. Qed.

Lemma visit_Directory cwd config fullPath entries files :
  visit cwd config fullPath (Directory entries) files
  = fold_left
      (fun files (e : jsstring * dirent) =>
         visit cwd config (Path.join [fullPath; fst e]) (snd e) files)
      entries files.
Proof. reflexivity. Qed.

Section DiscoveryFacts.

Variable cwd : jsstring.
Variable config : Config.
Hypothesis cwd_absolute : Path.isAbsolute cwd = true.

Lemma rstack_join_name (d n : jsstring) :
  good_seg n -> rstack cwd (Path.join [d; n]) = n :: rstack cwd d.
Proof.
  intros Hn.
  exact (rstack_join cwd d [n] ltac:(discriminate)
           (Forall_cons n Hn (Forall_nil _))).
Qed.

(** What the walk adds to [files] below one entry whose path resolves
    to the content root followed by [segs]. *)
Lemma visit_spec (e : dirent) :
  wf_dirent e = true ->
  forall fullPath segs files,
    Forall good_seg segs ->
    rstack cwd fullPath = rev segs ++ rstack cwd (root config) ->
    (e = File -> segs <> []) ->
    visit cwd config fullPath e files
    = files ++ map (fun rest => Path.unsplit (segs ++ rest)) (files_under e).
Proof.
  induction e as [| |entries IH] using dirent_tree_ind;
    intros Hwf fullPath segs files Hsegs Hstack Hfile.
  - cbn [visit files_under map]. rewrite app_nil_r.
    rewrite (relative_below cwd cwd_absolute (root config) fullPath segs);
      auto.
  - cbn [visit files_under map]. now rewrite app_nil_r.
  - rewrite visit_Directory, files_under_Directory.
    rewrite wf_dirent_Directory, !andb_true_iff in Hwf.
    destruct Hwf as [[Hnames _] Hsub].
    clear Hfile. revert files.
    induction entries as [|[n sub] entries IHentries]; intros files.
    + cbn. now rewrite app_nil_r.
    + cbn [fold_left flat_map fst snd map forallb] in *.
      apply andb_true_iff in Hnames as [Hn Hnames].
      apply andb_true_iff in Hsub as [Hs Hsub].
      inversion IH as [|? ? IHsub IHrest]; subst. cbn [snd] in IHsub.
      apply valid_name_good in Hn.
      rewrite (IHsub Hs (Path.join [fullPath; n]) (segs ++ [n]) files).
      * rewrite (IHentries IHrest Hnames Hsub).
        rewrite map_app, map_map, <- app_assoc.
        f_equal. f_equal. apply map_ext. intros rest.
        now rewrite <- app_assoc.
      * apply Forall_app. split; [exact Hsegs | now constructor].
      * rewrite rstack_join_name by exact Hn.
        rewrite Hstack, rev_app_distr. reflexivity.
      * intros _. destruct segs; discriminate.
Qed.

Lemma files_under_good (e : dirent) :
  wf_dirent e = true ->
  forall segs, In segs (files_under e) -> Forall good_seg segs.
Proof.
  induction e as [| |entries IH] using dirent_tree_ind; intros Hwf segs Hin.
  - destruct Hin as [<-|[]]. constructor.
  - destruct Hin.
  - rewrite files_under_Directory in Hin.
    rewrite wf_dirent_Directory, !andb_true_iff in Hwf.
    destruct Hwf as [[Hnames _] Hsub].
    apply in_flat_map in Hin as ([n sub] & Hne & Hin). cbn [fst snd] in Hin.
    apply in_map_iff in Hin as (rest & <- & Hrest).
    rewrite forallb_forall in Hnames, Hsub.
    rewrite Forall_forall in IH.
    constructor.
    + apply valid_name_good, Hnames, in_map_iff. now exists (n, sub).
    + apply (IH (n, sub) Hne); [exact (Hsub (n, sub) Hne) | exact Hrest].
Qed.

Lemma files_under_nonempty (entries : list (jsstring * dirent)) (segs : list jsstring) :
  In segs (files_under (Directory entries)) -> segs <> [].
Proof.
  rewrite files_under_Directory. intros Hin.
  apply in_flat_map in Hin as (ne & _ & Hin).
  apply in_map_iff in Hin as (rest & <- & _). discriminate.
Qed.

(** The relative paths [readDirRecursive] collects. *)
Lemma readDirRecursive_spec (entries : list (jsstring * dirent)) :
  wf_entries entries = true ->
  readDirRecursive cwd config (root config) entries []
  = map Path.unsplit (files_under (Directory entries)).
Proof.
  intros Hwf.
  change (readDirRecursive cwd config (root config) entries [])
    with (visit cwd config (root config) (Directory entries) []).
  rewrite (visit_spec (Directory entries) Hwf (root config) [] []).
  - reflexivity.
  - constructor.
  - reflexivity.
  - discriminate.
Qed.

(** The name [generateManifest] gives to a discovered asset is the
    relative path the walk found. *)
Lemma relative_of_join (segs : list jsstring) :
  segs <> [] -> Forall good_seg segs ->
  Path.relative cwd (root config) (Path.join [root config; Path.unsplit segs])
  = Path.unsplit segs.
Proof.
  intros Hne Hs.
  apply (relative_below cwd cwd_absolute); [exact Hne | exact Hs|].
  now apply rstack_join.
Qed.

Lemma asset_names (entries : list (jsstring * dirent)) :
  wf_entries entries = true ->
  map (Path.relative cwd (root config)) (getAssets cwd config entries)
  = filter (allowed config) (map Path.unsplit (files_under (Directory entries))).
Proof.
  intros Hwf. unfold getAssets.
  rewrite (readDirRecursive_spec entries Hwf), map_map.
  fold (allowed config).
  set (files := map Path.unsplit (files_under (Directory entries))).
  rewrite <- (map_id (filter (allowed config) files)) at 2.
  apply map_ext_in. intros f Hf.
  apply filter_In in Hf as [Hf _].
  apply in_map_iff in Hf as (segs & <- & Hsegs).
  apply relative_of_join.
  - now apply (files_under_nonempty entries).
  - now apply (files_under_good (Directory entries)).
Qed.

End DiscoveryFacts.

(** ** What the pipelines compute *)

Section PipelineFacts.

Variable G : Gzip.
Variable cwd : jsstring.
Variable config : Config.

Local Abbreviation Pipeline := (Pipeline G).
Local Abbreviation Server := (Server G).

Lemma gz_writes_snoc (st : gz_state G) (chunks : list (list byte)) (c : list byte) :
  gz_writes G st (chunks ++ [c])
  = (fst (gz_write G (fst (gz_writes G st chunks)) c),
     snd (gz_writes G st chunks)
     ++ snd (gz_write G (fst (gz_writes G st chunks)) c)).
Proof.
  revert st. induction chunks as [|c0 chunks IH]; intros st;
    cbn [gz_writes Datatypes.app fst snd].
  - now rewrite app_nil_r.
  - rewrite IH. cbn [fst snd]. now rewrite app_assoc.
Qed.

Lemma gz_run_writes (st : gz_state G) (chunks : list (list byte)) :
  gz_run G st chunks
  = snd (gz_writes G st chunks) ++ gz_end G (fst (gz_writes G st chunks)).
Proof.
  revert st. induction chunks as [|c chunks IH]; intros st;
    cbn [gz_run gz_writes fst snd Datatypes.app].
  - reflexivity.
  - now rewrite IH, app_assoc.
Qed.

Lemma chunks_of_snoc (i : nat) (history : list (Z * event)) (t : Z) (ev : event) :
  chunks_of i (history ++ [(t, ev)])
  = chunks_of i history
    ++ match ev with
       | StreamData j data => if Nat.eqb i j then [data] else []
       | _ => []
       end.
Proof.
  induction history as [|[t' ev'] history IH]; cbn [chunks_of Datatypes.app].
  - destruct ev; reflexivity.
  - destruct ev' as [j' data'| | | |]; try exact IH.
    destruct (Nat.eqb i j'); [|exact IH].
    cbn [Datatypes.app]. now rewrite IH.
Qed.

Lemma length_concat_app (a b : list (list byte)) :
  Z.of_nat (length (concat (a ++ b)))
  = Z.of_nat (length (concat a)) + Z.of_nat (length (concat b)).
Proof. rewrite concat_app, length_app. lia. Qed.

Lemma tracks_iteratee (file : jsstring) : tracks (iteratee G cwd config file) [].
Proof.
  unfold tracks, iteratee, emitted.
  cbn [v_crc v_compressed v_gzip_out v_gzip_ending v_gzip v_result
       concat gz_writes fst snd length].
  split; [|split; [|split]]; try reflexivity. discriminate.
Qed.

Lemma tracks_data (p : Pipeline) (chunks : list (list byte)) (data : list byte) :
  tracks p chunks -> v_gzip_ending p = false -> v_result p = None ->
  tracks (on_stream_data p data) (chunks ++ [data]).
Proof.
  intros (Hcrc & Hlen & Hgz & Hres) E R. specialize (Hgz E).
  unfold tracks, emitted in *.
  cbn [on_stream_data v_crc v_compressed v_gzip_out v_gzip_ending v_gzip v_result].
  rewrite E in *. rewrite gz_writes_snoc. cbn [fst snd].
  rewrite <- Hgz. split; [|split; [|split]].
  - rewrite Hcrc, crc32_unsigned_app, concat_app. cbn [concat].
    now rewrite app_nil_r.
  - rewrite !length_concat_app. lia.
  - reflexivity.
  - intros e He. congruence.
Qed.

Lemma tracks_end (p : Pipeline) (chunks : list (list byte)) :
  tracks p chunks -> v_gzip_ending p = false -> v_result p = None ->
  tracks (on_stream_end p) chunks.
Proof.
  intros (Hcrc & Hlen & Hgz & Hres) E R. specialize (Hgz E).
  unfold tracks, emitted in *.
  cbn [on_stream_end v_crc v_compressed v_gzip_out v_gzip_ending v_gzip v_result].
  rewrite E in *. rewrite gz_run_writes, <- Hgz.
  split; [|split; [|split]].
  - exact Hcrc.
  - rewrite !length_concat_app. lia.
  - discriminate.
  - intros e He. congruence.
Qed.

Lemma tracks_error (p : Pipeline) (chunks : list (list byte)) :
  tracks p chunks -> tracks (on_stream_error p) chunks.
Proof.
  intros (Hcrc & Hlen & Hgz & Hres). unfold tracks in *.
  cbn [on_stream_error v_crc v_compressed v_gzip_out v_gzip_ending v_gzip v_result].
  split; [|split; [|split]]; assumption.
Qed.

Lemma tracks_gzip_data (p : Pipeline) (chunks : list (list byte))
      (data : list byte) (pending : list (list byte)) :
  tracks p chunks -> v_gzip_out p = data :: pending -> v_result p = None ->
  tracks (on_gzip_data p data pending) chunks.
Proof.
  intros (Hcrc & Hlen & Hgz & Hres) Q R. unfold tracks in *.
  cbn [on_gzip_data v_crc v_compressed v_gzip_out v_gzip_ending v_gzip v_result].
  rewrite Q in Hlen. cbn [concat] in Hlen. rewrite length_app in Hlen.
  split; [|split; [|split]]; try assumption.
  - lia.
  - intros e He. congruence.
Qed.

Lemma tracks_gzip_end (p : Pipeline) (chunks : list (list byte)) :
  tracks p chunks -> tracks (on_gzip_end p) chunks.
Proof.
  intros (Hcrc & Hlen & Hgz & Hres). unfold tracks in *.
  cbn [on_gzip_end v_crc v_compressed v_gzip_out v_gzip_ending v_gzip v_result].
  split; [|split; [|split]]; try assumption.
  intros e He. now injection He as <-.
Qed.

Lemma map_set_nth_same {A B : Type} (f : A -> B) (i : nat) (v x : A) (l : list A) :
  nth_error l i = Some x -> f v = f x -> map f (set_nth i v l) = map f l.
Proof.
  revert i. induction l as [|y l IH]; intros [|i]; cbn; try discriminate.
  - intros H E. injection H as ->. now rewrite E.
  - intros H E. now rewrite (IH i H E).
Qed.

Lemma ending_no_result (p : Pipeline) :
  pipe_ok p -> v_gzip_ending p = false \/ v_gzip_out p <> [] ->
  v_result p = None.
Proof.
  intros [_ H] Hc. destruct (v_result p) as [e|]; [|reflexivity].
  destruct H as [H1 H2]; [discriminate|].
  destruct Hc as [Hc|Hc]; congruence.
Qed.

Lemma flowing_not_ending (p : Pipeline) :
  pipe_ok p -> v_stream p = Flowing -> v_gzip_ending p = false.
Proof.
  intros [H _] F. destruct (v_gzip_ending p); [|reflexivity].
  destruct H as [H _]. rewrite (H eq_refl) in F. discriminate.
Qed.

(** One handler run keeps the pipelines on track. *)
Lemma follows_deliver (assets : list jsstring) (s s' : Server)
      (history : list (Z * event)) (t : Z) (ev : event) :
  consistent s -> uncaught s = None ->
  follows cwd config assets s history ->
  deliver s (t, ev) = Some s' ->
  follows cwd config assets s' (history ++ [(t, ev)]).
Proof.
  intros [Hok _] U [Hnames Htr] Hd.
  unfold deliver in Hd. rewrite U in Hd. cbn [snd fst] in Hd.
  destruct (handle_event (pipelines s) ev) as [[ps call]|] eqn:He;
    [|discriminate].
  injection Hd as <-.
  assert (Hps : pipelines (after_callback t (with_pipelines s ps) call) = ps).
  { destruct call as [[err|m]|]; reflexivity. }
  unfold follows. rewrite Hps. clear Hps.
  assert (Hother : forall i p p' j q,
             nth_error (pipelines s) i = Some p ->
             v_name p' = v_name p ->
             tracks p' (chunks_of i (history ++ [(t, ev)])) ->
             (forall k, k <> i ->
                        chunks_of k (history ++ [(t, ev)]) = chunks_of k history) ->
             ps = set_nth i p' (pipelines s) ->
             (map (@v_name G) ps = map (Path.relative cwd (root config)) assets
              /\ (nth_error ps j = Some q -> tracks q (chunks_of j (history ++ [(t, ev)]))))).
  { intros i p p' j q Hp Hn Ht Hk ->. split.
    - rewrite (map_set_nth_same (@v_name G) i p' p _ Hp Hn). exact Hnames.
    - destruct (Nat.eq_dec i j) as [<-|Hij].
      + rewrite (nth_error_set_nth_eq i p' _ p Hp). intros H. now injection H as <-.
      + rewrite (nth_error_set_nth_neq i j p' _ Hij). intros H.
        rewrite Hk by congruence. now apply Htr. }
  assert (Hsame : forall i k, k <> i ->
             match ev with StreamData j _ => j = i | _ => True end ->
             chunks_of k (history ++ [(t, ev)]) = chunks_of k history).
  { intros i k Hk Hev. rewrite chunks_of_snoc.
    destruct ev as [j data| | | |]; try apply app_nil_r.
    subst j. apply Nat.eqb_neq in Hk. rewrite Hk. apply app_nil_r. }
  assert (Hall : forall i p p',
             nth_error (pipelines s) i = Some p ->
             v_name p' = v_name p ->
             tracks p' (chunks_of i (history ++ [(t, ev)])) ->
             match ev with StreamData j _ => j = i | _ => True end ->
             ps = set_nth i p' (pipelines s) ->
             map (@v_name G) ps = map (Path.relative cwd (root config)) assets
             /\ (forall j q, nth_error ps j = Some q ->
                             tracks q (chunks_of j (history ++ [(t, ev)])))).
  { intros i p p' Hp Hn Ht Hev Eps. split.
    - exact (proj1 (Hother i p p' O p Hp Hn Ht (fun k Hk => Hsame i k Hk Hev) Eps)).
    - intros j q.
      exact (proj2 (Hother i p p' j q Hp Hn Ht (fun k Hk => Hsame i k Hk Hev) Eps)). }
  destruct ev as [i data|i|i err|i|i]; cbn [handle_event] in He;
    destruct (nth_error (pipelines s) i) as [p|] eqn:Hp; try discriminate;
    pose proof (nth_error_Forall _ _ _ _ Hok Hp) as Hpok;
    pose proof (Htr i p Hp) as Htp.
  - destruct (v_stream p) eqn:F; try discriminate.
    injection He as <- _.
    apply (Hall i p (on_stream_data p data) Hp); auto.
    rewrite chunks_of_snoc, Nat.eqb_refl.
    pose proof (flowing_not_ending p Hpok F) as E.
    apply tracks_data; [exact Htp | exact E|].
    apply ending_no_result; auto.
  - destruct (v_stream p) eqn:F; try discriminate.
    injection He as <- _.
    apply (Hall i p (on_stream_end p) Hp); auto.
    rewrite chunks_of_snoc, app_nil_r.
    pose proof (flowing_not_ending p Hpok F) as E.
    apply tracks_end; [exact Htp | exact E|].
    apply ending_no_result; auto.
  - destruct (v_stream p) eqn:F; try discriminate.
    injection He as <- _.
    apply (Hall i p (on_stream_error p) Hp); auto.
    rewrite chunks_of_snoc, app_nil_r. now apply tracks_error.
  - destruct (v_gzip_out p) as [|d pending] eqn:Q; try discriminate.
    injection He as <- _.
    apply (Hall i p (on_gzip_data p d pending) Hp); auto.
    rewrite chunks_of_snoc, app_nil_r.
    apply tracks_gzip_data; [exact Htp | exact Q|].
    apply ending_no_result; [exact Hpok|]. right. congruence.
  - destruct (v_gzip_ending p) eqn:E; try discriminate.
    destruct (v_gzip_out p) as [|] eqn:Q; try discriminate.
    destruct (v_result p) eqn:R; try discriminate.
    injection He as <- _.
    apply (Hall i p (on_gzip_end p) Hp); auto.
    rewrite chunks_of_snoc, app_nil_r. now apply tracks_gzip_end.
Qed.

Lemma follows_run (assets : list jsstring) (schedule : list (Z * event)) :
  forall (s s' : Server) (history : list (Z * event)),
    consistent s -> follows cwd config assets s history ->
    run s schedule = Some s' -> uncaught s' = None ->
    follows cwd config assets s' (history ++ schedule).
Proof.
  induction schedule as [|[t ev] rest IH]; intros s s' history Hc Hf Hr Hu;
    cbn [run] in Hr.
  - injection Hr as <-. now rewrite app_nil_r.
  - destruct (deliver s (t, ev)) as [s1|] eqn:D; [|discriminate].
    destruct (uncaught s) as [err|] eqn:U.
    { unfold deliver in D. rewrite U in D. injection D as <-.
      rewrite (run_dead G s rest err U) in Hr. injection Hr as <-. congruence. }
    change (history ++ (t, ev) :: rest) with (history ++ [(t, ev)] ++ rest).
    rewrite app_assoc.
    apply (IH s1 s' (history ++ [(t, ev)])); auto.
    + eapply consistent_deliver; eauto.
    + eapply follows_deliver; eauto.
Qed.

Lemma follows_main (now : Z) (entries : list (jsstring * dirent)) :
  follows cwd config (getAssets cwd config entries)
          (main G cwd config now entries) [].
Proof.
  unfold follows. rewrite main_pipelines. split.
  - rewrite map_map. reflexivity.
  - intros i p Hp. rewrite nth_error_map in Hp.
    destruct (nth_error (getAssets cwd config entries) i) as [file|];
      [|discriminate].
    injection Hp as <-. apply tracks_iteratee.
Qed.

Lemma collect_entries (ps : list Pipeline) (m : list ManifestEntry) :
  collect ps = Some m ->
  (forall i p, nth_error ps i = Some p -> forall e, v_result p = Some e -> e = entry_of p) ->
  m = map (@entry_of G) ps.
Proof.
  revert m. induction ps as [|p ps IH]; intros m; cbn [collect map].
  - intros H _. now injection H as <-.
  - destruct (v_result p) as [e|] eqn:R; [|discriminate].
    destruct (collect ps) as [es|]; [|discriminate].
    intros H Hall. injection H as <-. f_equal.
    + exact (Hall O p eq_refl e R).
    + apply IH; [reflexivity|]. intros i q Hq. exact (Hall (S i) q Hq).
Qed.

(** The manifest [main] publishes: one entry per discovered asset, in
    the order of discovery; its name is the path of the asset relative to
    the root, its checksum the CRC-32 of all the bytes the read stream
    delivered, its compressed size the number of bytes the gzip stream
    emitted for them. *)
Lemma published_entries (now : Z) (entries : list (jsstring * dirent))
      (schedule : list (Z * event)) (s : Server) (m : list ManifestEntry) :
  run (main G cwd config now entries) schedule = Some s ->
  currentManifest s = Some m ->
  map name m
  = map (Path.relative cwd (root config)) (getAssets cwd config entries)
  /\ forall i file,
      nth_error (getAssets cwd config entries) i = Some file ->
      nth_error m i = Some (entry_for G cwd config schedule i file).
Proof.
  intros Hr Hm.
  pose proof (consistent_main G cwd config now entries) as Hc0.
  pose proof (consistent_run G _ _ _ Hc0 Hr) as Hc.
  destruct Hc as [Hok [Hu|(U & Hdone & ts & m' & (Hm' & _) & Hcol)]].
  { exfalso. exact (unpublished_not_published G s m Hu Hm). }
  assert (m' = m) by congruence. subst m'.
  assert (Hf : follows cwd config (getAssets cwd config entries) s schedule).
  { apply (follows_run _ schedule _ s [] Hc0 (follows_main now entries) Hr U). }
  destruct Hf as [Hnames Htr].
  assert (Em : m = map (@entry_of G) (pipelines s)).
  { apply collect_entries; [exact Hcol|].
    intros i p Hp. now destruct (Htr i p Hp) as (_ & _ & _ & H). }
  split.
  - rewrite Em, map_map. exact Hnames.
  - intros i file Hfile.
    assert (Hn : nth_error (map (@v_name G) (pipelines s)) i
                 = Some (Path.relative cwd (root config) file)).
    { rewrite Hnames, nth_error_map, Hfile. reflexivity. }
    rewrite nth_error_map in Hn.
    destruct (nth_error (pipelines s) i) as [p|] eqn:Hp; [|discriminate].
    injection Hn as Hn.
    rewrite Em, nth_error_map, Hp. cbn [option_map]. f_equal.
    destruct (Htr i p Hp) as (Hcrc & Hlen & _ & _).
    destruct (done_not_flowing G _ _ _ Hok Hdone Hp) as (_ & Hq & Hres).
    destruct (nth_error_Forall _ _ _ _ Hok Hp) as [_ Hend].
    destruct (Hend Hres) as [He _].
    rewrite Hq, He in Hlen. unfold emitted in Hlen. cbn [concat length] in Hlen.
    unfold entry_of, entry_for, gz_output.
    rewrite Hn, Hcrc, <- Hlen. f_equal. lia.
Qed.

End PipelineFacts.

(** ** The checksum a pipeline computes *)

Lemma v_crc_data (G : Gzip) (p : Pipeline G) (data : list byte) :
  v_crc (on_stream_data p data) = crc32.unsigned data (Some (v_crc p)).
Proof. reflexivity. Qed.

(** The ['data'] handler, run on one buffer after the other, folds the
    buffers into [crc]. *)
Lemma v_crc_fold (G : Gzip) (chunks : list (list byte)) :
  forall p : Pipeline G,
    v_crc (fold_left (@on_stream_data G) chunks p)
    = fold_left (fun crc data => crc32.unsigned data (Some crc)) chunks (v_crc p).
Proof.
  induction chunks as [|c chunks IH]; intros p.
  - now rewrite !fold_left_nil.
  - now rewrite !fold_left_cons, IH, v_crc_data.
Qed.

(** C5: the checksum the code computes is the CRC-32 of the bytes of the
    file, whatever the buffers they arrive in.  The iteratee seeds [crc]
    with [crc32.unsigned('')], the CRC-32 of the empty input, which is 0;
    its ['data'] handler folds each buffer into [crc] with
    [crc32.unsigned(data, crc)]; after any sequence of buffers [crc] is
    the one-shot CRC-32 of their concatenation, so two cuts of the same
    bytes give the same value.  The same holds in a build, where the
    handlers of all the files and of their gzip streams run interleaved:
    at any time [crc] is the CRC-32 of the bytes read so far, and the
    checksum of a published entry is the CRC-32 of all the bytes its file
    delivered. *)
Theorem crc32_chunked_fold :
  forall (G : Gzip) (cwd : jsstring) (config : Config),
    (forall (file : jsstring) (chunks : list (list byte)),
        v_crc (iteratee G cwd config file) = crc32.unsigned [] None
        /\ v_crc (fold_left (@on_stream_data G) chunks (iteratee G cwd config file))
           = crc32.unsigned (concat chunks) None
        /\ (forall chunks' : list (list byte),
               concat chunks' = concat chunks ->
               v_crc (fold_left (@on_stream_data G) chunks'
                                (iteratee G cwd config file))
               = v_crc (fold_left (@on_stream_data G) chunks
                                  (iteratee G cwd config file))))
    /\ crc32.unsigned [] None = 0
    /\ (forall chunks : list (list byte),
           fold_left (fun crc data => crc32.unsigned data (Some crc)) chunks
                     (crc32.unsigned [] None)
           = crc32.unsigned (concat chunks) None)
    /\ (forall (now : Z) (entries : list (jsstring * dirent))
               (schedule : list (Z * event)) (s : Server G)
               (i : nat) (p : Pipeline G),
           run (main G cwd config now entries) schedule = Some s ->
           uncaught s = None ->
           nth_error (pipelines s) i = Some p ->
           v_crc p = crc32.unsigned (concat (chunks_of i schedule)) None)
    /\ (forall (now : Z) (entries : list (jsstring * dirent))
               (schedule : list (Z * event)) (s : Server G)
               (m : list ManifestEntry) (i : nat) (e : ManifestEntry),
           run (main G cwd config now entries) schedule = Some s ->
           currentManifest s = Some m ->
           nth_error m i = Some e ->
           checksum e = crc32.unsigned (concat (chunks_of i schedule)) None).
Proof.
  intros G cwd config.
  assert (Hfold : forall file chunks,
             v_crc (fold_left (@on_stream_data G) chunks
                              (iteratee G cwd config file))
             = crc32.unsigned (concat chunks) None).
  { intros file chunks. rewrite v_crc_fold.
    change (v_crc (iteratee G cwd config file)) with (crc32.unsigned [] None).
    exact (crc32_fold_from chunks []). }
  split; [|split; [exact crc32_unsigned_empty|split; [|split]]].
  - intros file chunks. split; [reflexivity|]. split; [apply Hfold|].
    intros chunks' E. now rewrite !Hfold, E.
  - intros chunks. exact (crc32_fold_from chunks []).
  - intros now entries schedule s i p Hr U Hp.
    pose proof (follows_run G cwd config (getAssets cwd config entries) schedule
                  _ s [] (consistent_main G cwd config now entries)
                  (follows_main G cwd config now entries) Hr U) as [_ Htr].
    cbn [Datatypes.app] in Htr.
    now destruct (Htr i p Hp) as [Hcrc _].
  - intros now entries schedule s m i e Hr Hm He.
    destruct (published_entries G cwd config now entries schedule s m Hr Hm)
      as [Hnames Hnth].
    assert (Hlen : length m = length (getAssets cwd config entries)).
    { apply (f_equal (@Datatypes.length jsstring)) in Hnames.
      now rewrite !length_map in Hnames. }
    destruct (nth_error (getAssets cwd config entries) i) as [file|] eqn:F.
    + rewrite (Hnth i file F) in He. now injection He as <-.
    + apply nth_error_None in F. rewrite <- Hlen in F.
      apply nth_error_None in F. congruence.
Qed.

Example crc32_of_two_cuts :
  v_crc (fold_left (@on_stream_data StoredGzip.encoder)
                   [Scenario.bytes [49; 50; 51];
                    Scenario.bytes [52; 53; 54; 55; 56; 57]]
                   (iteratee StoredGzip.encoder Scenario.cwd Scenario.config
                             (lit "pk3_assets/weapons/gun.pk3")))
  = 3421780262
  /\ v_crc (fold_left (@on_stream_data StoredGzip.encoder)
                      [Scenario.bytes [49; 50; 51; 52; 53; 54; 55; 56; 57]]
                      (iteratee StoredGzip.encoder Scenario.cwd Scenario.config
                                (lit "pk3_assets/weapons/gun.pk3")))
     = 3421780262.
Proof. vm_compute. split; reflexivity. Qed.

(** ** The files of a tree *)

Lemma indexOf_found_In (l : list jsstring) (x : jsstring) :
  indexOf_found l x = true <-> In x l.
Proof.
  induction l as [|y l IH]; cbn [indexOf_found In]; [split; [discriminate | tauto]|].
  destruct (str_eqb y x) eqn:E.
  - apply str_eqb_eq in E. tauto.
  - apply str_eqb_neq in E. rewrite IH. tauto.
Qed.

(** What [files_under] holds for each kind of entry. *)
Lemma files_under_inv (e : dirent) (segs : list jsstring) :
  In segs (files_under e) ->
  match e with
  | File => segs = []
  | Directory entries => file_at entries segs
  | Other => False
  end.
Proof.
  revert segs. induction e as [| |entries IH] using dirent_tree_ind; intros segs Hin.
  - destruct Hin as [<-|[]]. reflexivity.
  - destruct Hin.
  - rewrite files_under_Directory in Hin.
    apply in_flat_map in Hin as ([n sub] & Hne & Hin). cbn [fst snd] in Hin.
    apply in_map_iff in Hin as (rest & <- & Hrest).
    rewrite Forall_forall in IH. specialize (IH (n, sub) Hne rest Hrest).
    cbn [snd] in IH. destruct sub as [|sub|].
    + subst rest. now apply file_here.
    + now apply file_below with (sub := sub).
    + contradiction.
Qed.

Lemma file_at_iff (entries : list (jsstring * dirent)) (segs : list jsstring) :
  file_at entries segs <-> In segs (files_under (Directory entries)).
Proof.
  split.
  - induction 1 as [entries n Hin|entries n sub segs Hin _ IH];
      rewrite files_under_Directory; apply in_flat_map.
    + exists (n, File). split; [exact Hin|]. now left.
    + exists (n, Directory sub). split; [exact Hin|].
      cbn [fst snd]. now apply in_map.
  - apply (files_under_inv (Directory entries)).
Qed.

Lemma distinct_head (n : jsstring) (rest : list jsstring) :
  distinct (n :: rest) = true -> ~ In n rest /\ distinct rest = true.
Proof.
  cbn [distinct]. rewrite andb_true_iff, negb_true_iff. intros [H1 H2].
  split; [|exact H2]. intros Hin.
  assert (existsb (str_eqb n) rest = true).
  { apply existsb_exists. exists n. split; [exact Hin | apply str_eqb_refl]. }
  congruence.
Qed.

Lemma files_under_NoDup (e : dirent) :
  wf_dirent e = true -> NoDup (files_under e).
Proof.
  induction e as [| |entries IH] using dirent_tree_ind; intros Hwf.
  - repeat constructor. intros [].
  - constructor.
  - rewrite files_under_Directory.
    rewrite wf_dirent_Directory, !andb_true_iff in Hwf.
    destruct Hwf as [[_ Hdist] Hsub].
    induction entries as [|[n sub] entries IHentries]; cbn [flat_map fst snd].
    + constructor.
    + cbn [map forallb fst snd] in Hdist, Hsub.
      apply distinct_head in Hdist as [Hn Hdist].
      apply andb_true_iff in Hsub as [Hs Hsub].
      inversion IH as [|? ? IHsub IHrest]; subst. cbn [snd] in IHsub.
      apply NoDup_app.
      * apply NoDup_map_NoDup_ForallPairs; [|now apply IHsub].
        intros a b _ _ H. now injection H.
      * now apply IHentries.
      * intros x Hx Hx'.
        apply in_map_iff in Hx as (rest & <- & _).
        apply in_flat_map in Hx' as ([n' sub'] & Hne' & Hx'). cbn [fst snd] in Hx'.
        apply in_map_iff in Hx' as (rest' & E & _). injection E as -> _.
        apply Hn. apply in_map_iff. now exists (n, sub').
Qed.

Lemma unsplit_inj (a b : list jsstring) :
  a <> [] -> b <> [] -> Forall good_seg a -> Forall good_seg b ->
  Path.unsplit a = Path.unsplit b -> a = b.
Proof.
  intros Ha Hb Ga Gb E.
  rewrite <- (split_unsplit a Ha (good_seg_no_slash a Ga)).
  rewrite <- (split_unsplit b Hb (good_seg_no_slash b Gb)).
  now rewrite E.
Qed.

Lemma relative_paths_NoDup (entries : list (jsstring * dirent)) :
  wf_entries entries = true ->
  NoDup (map Path.unsplit (files_under (Directory entries))).
Proof.
  intros Hwf. apply NoDup_map_NoDup_ForallPairs.
  - intros a b Ha Hb. apply unsplit_inj.
    + now apply (files_under_nonempty entries).
    + now apply (files_under_nonempty entries).
    + now apply (files_under_good (Directory entries)).
    + now apply (files_under_good (Directory entries)).
  - now apply files_under_NoDup.
Qed.

(** The names of the published manifest: the relative paths of the files
    of the tree, in the order of the walk, that pass the extension filter. *)
Lemma manifest_names (G : Gzip) (cwd : jsstring) (config : Config) (now : Z)
      (entries : list (jsstring * dirent)) (schedule : list (Z * event))
      (s : Server G) (m : list ManifestEntry) :
  Path.isAbsolute cwd = true ->
  wf_entries entries = true ->
  run (main G cwd config now entries) schedule = Some s ->
  currentManifest s = Some m ->
  map name m
  = filter (allowed config) (map Path.unsplit (files_under (Directory entries))).
Proof.
  intros Hcwd Hwf Hr Hm.
  destruct (published_entries G cwd config now entries schedule s m Hr Hm)
    as [Hnames _].
  now rewrite (asset_names cwd config Hcwd entries Hwf) in Hnames.
Qed.

Lemma manifest_entry_file (G : Gzip) (cwd : jsstring) (config : Config) (now : Z)
      (entries : list (jsstring * dirent)) (schedule : list (Z * event))
      (s : Server G) (m : list ManifestEntry) (e : ManifestEntry) :
  Path.isAbsolute cwd = true ->
  wf_entries entries = true ->
  run (main G cwd config now entries) schedule = Some s ->
  currentManifest s = Some m ->
  In e m ->
  exists segs,
    file_at entries segs /\ name e = Path.unsplit segs
    /\ In (Path.extname (name e)) (validAssets config).
Proof.
  intros Hcwd Hwf Hr Hm He.
  pose proof (manifest_names G cwd config now entries schedule s m Hcwd Hwf Hr Hm)
    as Hnames.
  assert (Hn : In (name e) (map name m)) by now apply in_map.
  rewrite Hnames in Hn. apply filter_In in Hn as [Hn Hext].
  apply in_map_iff in Hn as (segs & E & Hsegs).
  exists segs. split; [now apply file_at_iff|]. split; [now symmetry|].
  now apply indexOf_found_In.
Qed.

(** C4: in the manifest [main] publishes for a content root (a tree of
    valid, distinct names), every regular file, at any depth, whose
    [path.extname] is one of [validAssets] (compared with [===]) has exactly
    one entry, named by its path relative to the root; a file with another
    extension has none; and every entry is that of such a file. *)
Theorem manifest_lists_allowed_files :
  forall (G : Gzip) (cwd : jsstring) (config : Config) (now : Z)
         (entries : list (jsstring * dirent)) (schedule : list (Z * event))
         (s : Server G) (m : list ManifestEntry),
    Path.isAbsolute cwd = true ->
    wf_entries entries = true ->
    run (main G cwd config now entries) schedule = Some s ->
    currentManifest s = Some m ->
    (forall segs,
        file_at entries segs ->
        (In (Path.extname (Path.unsplit segs)) (validAssets config) ->
         count_occ jsstring_dec (map name m) (Path.unsplit segs) = 1%nat)
        /\ (~ In (Path.extname (Path.unsplit segs)) (validAssets config) ->
            count_occ jsstring_dec (map name m) (Path.unsplit segs) = 0%nat))
    /\ (forall e,
           In e m ->
           exists segs,
             file_at entries segs /\ name e = Path.unsplit segs
             /\ In (Path.extname (name e)) (validAssets config)).
Proof.
  intros G cwd config now entries schedule s m Hcwd Hwf Hr Hm.
  pose proof (manifest_names G cwd config now entries schedule s m Hcwd Hwf Hr Hm)
    as Hnames.
  pose proof (relative_paths_NoDup entries Hwf) as Hnd.
  split.
  - intros segs Hfile. apply file_at_iff in Hfile.
    assert (Hin : In (Path.unsplit segs)
                     (map Path.unsplit (files_under (Directory entries))))
      by now apply in_map.
    rewrite Hnames. split; intros Hext.
    + apply (proj1 (NoDup_count_occ' jsstring_dec _)).
      * now apply NoDup_filter.
      * apply filter_In. split; [exact Hin|]. now apply indexOf_found_In.
    + apply count_occ_not_In. intros Hf. apply filter_In in Hf as [_ Hf].
      apply indexOf_found_In in Hf. contradiction.
  - intros e He.
    exact (manifest_entry_file G cwd config now entries schedule s m e
             Hcwd Hwf Hr Hm He).
Qed.

(** The run of the scenario that succeeds. *)
Lemma scenario_good_run :
  exists s,
    run (main StoredGzip.encoder Scenario.cwd Scenario.config 0 Scenario.entries)
        Scenario.good = Some s
    /\ currentManifest s
       = Some [{| name := lit "weapons/gun.pk3"; compressed := 32;
                  checksum := 3421780262 |}]
    /\ currentManifestTimestamp s = Some 5000.
Proof.
  assert (X : option_map
                (fun s => (@currentManifest StoredGzip.encoder s,
                           @currentManifestTimestamp StoredGzip.encoder s))
                (run (main StoredGzip.encoder Scenario.cwd Scenario.config 0
                           Scenario.entries) Scenario.good)
              = Some (Some [{| name := lit "weapons/gun.pk3"; compressed := 32;
                               checksum := 3421780262 |}], Some 5000))
    by (vm_compute; reflexivity).
  destruct (run (main StoredGzip.encoder Scenario.cwd Scenario.config 0
                      Scenario.entries) Scenario.good) as [s|];
    [|discriminate X].
  exists s. split; [reflexivity|]. cbn [option_map] in X.
  injection X as X1 X2. now split.
Qed.

(** C2, as the code has it: on a server started by [main], the body of
    [GET /assets/manifest.json] is a JSON array with one object per
    discovered asset, in the order of discovery; each object has exactly
    the fields [name], [compressed] and [checksum], and they hold what the
    pipeline of that asset produced: the path relative to the root, the
    number of bytes the gzip stream emitted, and the CRC-32 of the bytes
    read. *)
Theorem manifest_json_format :
  forall (G : Gzip) (cwd : jsstring) (config : Config) (now : Z)
         (entries : list (jsstring * dirent)) (schedule : list (Z * event))
         (s : Server G) (r : Response),
    run (main G cwd config now entries) schedule = Some s ->
    request cwd config s (lit "/assets/manifest.json") = Some r ->
    exists m elements,
      currentManifest s = Some m
      /\ act r = Json (JArray elements)
      /\ Forall2
           (fun e v =>
              object_with_fields [lit "name"; lit "compressed"; lit "checksum"] v
              /\ field (lit "name") v = Some (JString (name e))
              /\ field (lit "compressed") v = Some (JNumber (compressed e))
              /\ field (lit "checksum") v = Some (JNumber (checksum e)))
           m elements
      /\ length m = length (getAssets cwd config entries)
      /\ (forall i file,
             nth_error (getAssets cwd config entries) i = Some file ->
             nth_error m i = Some (entry_for G cwd config schedule i file)).
Proof.
  intros G cwd config now entries schedule s r Hr. unfold request.
  destruct (serving s); [|discriminate].
  destruct (currentManifestTimestamp s) as [ts|]; [|discriminate].
  destruct (currentManifest s) as [m|] eqn:Hm; [|discriminate].
  intros H. injection H as <-.
  destruct (handleManifest_elements ts m) as (elements & Hact & Hall).
  destruct (published_entries G cwd config now entries schedule s m Hr Hm)
    as [Hnames Hnth].
  exists m, elements. split; [reflexivity|]. split; [|split; [exact Hall|split]].
  - unfold app_get.
    change (manifest_route (lit "/assets/manifest.json")) with true.
    exact Hact.
  - apply (f_equal (@Datatypes.length jsstring)) in Hnames.
    now rewrite !length_map in Hnames.
  - exact Hnth.
Qed.

Lemma manifest_json_format_witness :
  exists s r,
    run (main StoredGzip.encoder Scenario.cwd Scenario.config 0 Scenario.entries)
        Scenario.good = Some s
    /\ request Scenario.cwd Scenario.config s (lit "/assets/manifest.json") = Some r
    /\ exists m elements,
        currentManifest s = Some m
        /\ act r = Json (JArray elements)
        /\ Forall2
             (fun e v =>
                object_with_fields [lit "name"; lit "compressed"; lit "checksum"] v
                /\ field (lit "name") v = Some (JString (name e))
                /\ field (lit "compressed") v = Some (JNumber (compressed e))
                /\ field (lit "checksum") v = Some (JNumber (checksum e)))
             m elements
        /\ length m
           = length (getAssets Scenario.cwd Scenario.config Scenario.entries)
        /\ (forall i file,
               nth_error (getAssets Scenario.cwd Scenario.config Scenario.entries) i
               = Some file ->
               nth_error m i
               = Some (entry_for StoredGzip.encoder Scenario.cwd Scenario.config
                                 Scenario.good i file)).
Proof.
  assert (X : option_map
                (fun s => (@serving StoredGzip.encoder s,
                           @currentManifestTimestamp StoredGzip.encoder s,
                           @currentManifest StoredGzip.encoder s))
                (run (main StoredGzip.encoder Scenario.cwd Scenario.config 0
                           Scenario.entries) Scenario.good)
              = Some (true, Some 5000,
                      Some [{| name := lit "weapons/gun.pk3"; compressed := 32;
                               checksum := 3421780262 |}]))
    by (vm_compute; reflexivity).
  destruct (run (main StoredGzip.encoder Scenario.cwd Scenario.config 0
                      Scenario.entries) Scenario.good) as [s|] eqn:E;
    [|discriminate X].
  cbn [option_map] in X. injection X as X1 X2 X3.
  assert (Hreq : request Scenario.cwd Scenario.config s
                         (lit "/assets/manifest.json")
                 = Some (app_get Scenario.cwd Scenario.config 5000
                           [{| name := lit "weapons/gun.pk3"; compressed := 32;
                               checksum := 3421780262 |}]
                           (lit "/assets/manifest.json"))).
  { unfold request. rewrite X1, X2, X3. reflexivity. }
  exists s. eexists. split; [reflexivity|]. split; [exact Hreq|].
  exact (manifest_json_format StoredGzip.encoder Scenario.cwd Scenario.config 0
           Scenario.entries Scenario.good s _ E Hreq).
Defined.

Lemma manifest_lists_allowed_files_witness :
  exists s m,
    run (main StoredGzip.encoder Scenario.cwd Scenario.config 0 Scenario.entries)
        Scenario.good = Some s
    /\ currentManifest s = Some m
    /\ (forall segs,
           file_at Scenario.entries segs ->
           (In (Path.extname (Path.unsplit segs)) (validAssets Scenario.config) ->
            count_occ jsstring_dec (map name m) (Path.unsplit segs) = 1%nat)
           /\ (~ In (Path.extname (Path.unsplit segs)) (validAssets Scenario.config) ->
               count_occ jsstring_dec (map name m) (Path.unsplit segs) = 0%nat))
    /\ (forall e,
           In e m ->
           exists segs,
             file_at Scenario.entries segs /\ name e = Path.unsplit segs
             /\ In (Path.extname (name e)) (validAssets Scenario.config)).
Proof.
  destruct scenario_good_run as (s & Hr & Hm & _).
  exists s. eexists. split; [exact Hr|]. split; [exact Hm|].
  apply (manifest_lists_allowed_files StoredGzip.encoder Scenario.cwd
           Scenario.config 0 Scenario.entries Scenario.good s _).
  - reflexivity.
  - vm_compute. reflexivity.
  - exact Hr.
  - exact Hm.
Defined.

(** ** Serving stays inside the content root *)





Example scenario_served :
  act (handleAsset Scenario.cwd Scenario.config
         [{| name := lit "weapons/gun.pk3"; compressed := 32;
             checksum := 3421780262 |}]
         (lit "weapons/", lit "3421780262", lit "gun.pk3"))
  = SendFile (lit "/srv/content/pk3_assets/weapons/gun.pk3") Infinity.
Proof. vm_compute. reflexivity. Qed.

Example scenario_traversal_rejected :
  act (handleAsset Scenario.cwd Scenario.config
         [{| name := lit "weapons/gun.pk3"; compressed := 32;
             checksum := 3421780262 |}]
         (lit "weapons/../../", lit "3421780262", lit "gun.pk3"))
  = EndWith 400.
Proof. vm_compute. reflexivity. Qed.

Example scenario_wrong_checksum_rejected :
  act (handleAsset Scenario.cwd Scenario.config
         [{| name := lit "weapons/gun.pk3"; compressed := 32;
             checksum := 3421780262 |}]
         (lit "weapons/", lit "3421780263", lit "gun.pk3"))
  = EndWith 400.
Proof. vm_compute. reflexivity. Qed.

Example decimal_examples :
  decimal 0 = lit "0" /\ decimal 7 = lit "7" /\ decimal 3421780262 = lit "3421780262"
  /\ decimal (-12) = lit "-12" /\ decimal 1000 = lit "1000".
Proof. vm_compute. repeat split. Qed.

(** ** The asset route *)

Section MatcherFacts.

Variable R : Type.

Lemma plus_greedy_Some (cls : ascii -> bool) (s : jsstring) :
  forall (k : jsstring -> jsstring -> option R) (r : R),
    Route.plus_greedy cls k s = Some r ->
    exists m rest,
      s = m ++ rest /\ m <> [] /\ forallb cls m = true /\ k m rest = Some r.
Proof.
  induction s as [|c s IH]; intros k r; cbn [Route.plus_greedy]; [discriminate|].
  destruct (cls c) eqn:C; [|discriminate].
  destruct (Route.plus_greedy cls (fun m rest => k (c :: m) rest) s) as [r'|] eqn:E.
  - intros H. injection H as <-.
    destruct (IH _ _ E) as (m & rest & -> & _ & Hm & Hk).
    exists (c :: m), rest. cbn [forallb]. rewrite C, Hm.
    repeat split; [discriminate | exact Hk].
  - intros H. exists [c], s. cbn [forallb]. rewrite C.
    repeat split; [discriminate | exact H].
Qed.

Lemma plus_lazy_Some (cls : ascii -> bool) (s : jsstring) :
  forall (k : jsstring -> jsstring -> option R) (r : R),
    Route.plus_lazy cls k s = Some r ->
    exists m rest,
      s = m ++ rest /\ m <> [] /\ forallb cls m = true /\ k m rest = Some r.
Proof.
  induction s as [|c s IH]; intros k r; cbn [Route.plus_lazy]; [discriminate|].
  destruct (cls c) eqn:C; [|discriminate].
  destruct (k [c] s) as [r'|] eqn:E.
  - intros H. injection H as <-.
    exists [c], s. cbn [forallb]. rewrite C.
    repeat split; [discriminate | exact E].
  - intros H.
    destruct (IH _ _ H) as (m & rest & -> & _ & Hm & Hk).
    exists (c :: m), rest. cbn [forallb]. rewrite C, Hm.
    repeat split; [discriminate | exact Hk].
Qed.

Lemma char_Some (c : ascii) (k : jsstring -> option R) (s : jsstring) (r : R) :
  Route.char c k s = Some r -> exists s', s = c :: s' /\ k s' = Some r.
Proof.
  unfold Route.char. destruct s as [|c' s']; [discriminate|].
  destruct (Ascii.eqb_spec c' c) as [->|]; [|discriminate].
  intros H. now exists s'.
Qed.

Lemma literal_Some (l : jsstring) (k : jsstring -> option R) (s : jsstring) (r : R) :
  Route.literal l k s = Some r -> exists s', s = l ++ s' /\ k s' = Some r.
Proof.
  revert s. induction l as [|c l IH]; intros s; cbn [Route.literal].
  - intros H. now exists s.
  - intros H. apply char_Some in H as (s1 & -> & H).
    destruct (IH _ H) as (s' & -> & Hk). now exists s'.
Qed.

Lemma alt_Some (a b : jsstring -> option R) (s : jsstring) (r : R) :
  Route.alt a b s = Some r -> a s = Some r \/ b s = Some r.
Proof.
  unfold Route.alt. destruct (a s); [left | right]; assumption.
Qed.

Lemma eos_Some (r r' : R) (s : jsstring) :
  Route.eos r s = Some r' -> s = [] /\ r' = r.
Proof.
  unfold Route.eos. destruct s; [|discriminate].
  intros H. injection H as <-. now split.
Qed.

End MatcherFacts.

(** What the captures of a matching path are. *)
Lemma asset_route_inv (path basedir c basename : jsstring) :
  Route.asset path = Some (basedir, c, basename) ->
  path = lit "/assets/" ++ basedir ++ c ++ "-"%char :: basename
  /\ c <> [] /\ forallb is_digit c = true
  /\ basename <> [] /\ forallb Route.any_char basename = true
  /\ (basedir = []
      \/ exists m, basedir = m ++ [Path.slash] /\ m <> []
                   /\ forallb Route.any_char m = true).
Proof.
  unfold Route.asset. intros H.
  apply literal_Some in H as (s1 & -> & H).
  assert (Htail : forall b s,
             Route.plus_greedy is_digit
               (fun checksum =>
                  Route.char "-"%char
                    (Route.plus_lazy Route.any_char
                       (fun basename => Route.eos (b, checksum, basename)))) s
             = Some (basedir, c, basename) ->
             b = basedir /\ s = c ++ "-"%char :: basename
             /\ c <> [] /\ forallb is_digit c = true
             /\ basename <> [] /\ forallb Route.any_char basename = true).
  { intros b s Hs.
    apply plus_greedy_Some in Hs as (d & rest & -> & Hd & Hdig & Hs).
    apply char_Some in Hs as (rest' & -> & Hs).
    apply plus_lazy_Some in Hs as (n & rest'' & -> & Hn & Hany & Hs).
    apply eos_Some in Hs as [-> Hs]. injection Hs as <- <- <-.
    rewrite app_nil_r. repeat split; assumption. }
  apply alt_Some in H as [H|H].
  - apply plus_greedy_Some in H as (m & rest & -> & Hm & Hany & H).
    apply char_Some in H as (rest' & -> & H).
    apply Htail in H as (<- & -> & Hc & Hdig & Hn & Hnany).
    split.
    + rewrite <- !app_assoc. reflexivity.
    + repeat split; try assumption. right. now exists m.
  - apply Htail in H as (<- & -> & Hc & Hdig & Hn & Hnany).
    repeat split; try assumption. now left.
Qed.

(** ** Digits *)

Lemma is_digit_range (ch : ascii) :
  is_digit ch = true -> (48 <= N_of_ascii ch <= 57)%N.
Proof.
  unfold is_digit. rewrite andb_true_iff, !N.leb_le. tauto.
Qed.

Lemma digit_not (ch other : ascii) :
  is_digit ch = true -> (N_of_ascii other < 48)%N -> Ascii.eqb ch other = false.
Proof.
  intros Hd Ho. apply Ascii.eqb_neq. intros ->.
  apply is_digit_range in Hd. lia.
Qed.

Lemma digit_not_whitespace (ch : ascii) :
  is_digit ch = true -> is_whitespace ch = false.
Proof.
  intros Hd. apply is_digit_range in Hd. unfold is_whitespace.
  rewrite !orb_false_iff, andb_false_iff, !N.leb_gt, !N.eqb_neq. lia.
Qed.

Lemma digits_prefix_all (c : jsstring) :
  forallb is_digit c = true -> digits_prefix c = c.
Proof.
  induction c as [|ch c IH]; cbn [forallb digits_prefix]; [reflexivity|].
  rewrite andb_true_iff. intros [H1 H2]. now rewrite H1, IH.
Qed.

Lemma parseInt10_digits (c : jsstring) :
  c <> [] -> forallb is_digit c = true ->
  parseInt10 c = round_to_double (decimal_value c).
Proof.
  intros Hne Hd. destruct c as [|ch c]; [contradiction|].
  pose proof Hd as Hd'. cbn [forallb] in Hd'. apply andb_true_iff in Hd' as [Hch _].
  unfold parseInt10. cbn [trim_start].
  rewrite (digit_not_whitespace ch Hch).
  rewrite (digit_not ch "-"%char Hch) by (cbn; lia).
  rewrite (digit_not ch "+"%char Hch) by (cbn; lia).
  rewrite (digits_prefix_all (ch :: c) Hd). reflexivity.
Qed.

Lemma narrow_widen (s : jsstring) : narrow (widen s) = Some s.
Proof.
  induction s as [|c s IH]; [reflexivity|].
  change (widen (c :: s)) with (N_of_ascii c :: widen s). cbn [narrow].
  pose proof (N_ascii_bounded c) as Hc. apply N.ltb_lt in Hc.
  now rewrite Hc, IH, ascii_N_embedding.
Qed.

Lemma parseInt10_units_widen (s : jsstring) :
  parseInt10_units (widen s) = parseInt10 s.
Proof.
  unfold parseInt10_units, widen. rewrite map_map. f_equal.
  rewrite <- (map_id s) at 2. apply map_ext. intros x. unfold unit_class.
  pose proof (N_ascii_bounded x) as Hx. apply N.ltb_lt in Hx.
  now rewrite Hx, ascii_N_embedding.
Qed.

(** A string without ['%'] decodes to itself. *)
Lemma decode_from_verbatim (s : jsstring) :
  forall fuel : nat,
    (length s <= fuel)%nat -> ~ In "%"%char s ->
    Route.decode_from fuel s = Some (widen s).
Proof.
  induction s as [|c s IH]; intros fuel Hlen Hno.
  - destruct fuel; reflexivity.
  - destruct fuel as [|fuel]; [cbn [length] in Hlen; lia|].
    cbn [Route.decode_from].
    destruct (Ascii.eqb_spec c "%"%char) as [->|_].
    + exfalso. apply Hno. now left.
    + rewrite IH; [reflexivity | cbn [length] in Hlen; lia|].
      intros Hin. apply Hno. now right.
Qed.

Lemma decode_param_verbatim (s : jsstring) :
  ~ In "%"%char s -> Route.decode_param s = Some (widen s).
Proof.
  intros H. unfold Route.decode_param. now apply decode_from_verbatim.
Qed.

Lemma decode_param_digits (c : jsstring) :
  forallb is_digit c = true -> Route.decode_param c = Some (widen c).
Proof.
  intros Hd. apply decode_param_verbatim. intros Hin.
  rewrite forallb_forall in Hd. apply Hd, is_digit_range in Hin.
  cbn in Hin. lia.
Qed.

Lemma digit_value_range (ch : ascii) :
  is_digit ch = true -> 0 <= digit_value ch <= 9.
Proof.
  intros H. apply is_digit_range in H. unfold digit_value. lia.
Qed.

Lemma decimal_value_from_nonneg (c : jsstring) (acc : Z) :
  forallb is_digit c = true -> 0 <= acc ->
  0 <= fold_left (fun acc ch => 10 * acc + digit_value ch) c acc.
Proof.
  revert acc. induction c as [|ch c IH]; intros acc; cbn [forallb fold_left];
    [auto|].
  rewrite andb_true_iff. intros [H1 H2] Hacc.
  apply IH; [exact H2|]. apply digit_value_range in H1. lia.
Qed.

Lemma decimal_value_nonneg (c : jsstring) :
  forallb is_digit c = true -> 0 <= decimal_value c.
Proof. intros H. apply decimal_value_from_nonneg; [exact H | lia]. Qed.

(** ** Rounding to a double *)

Lemma round_to_double_small (v : Z) :
  v < 2 ^ 53 -> round_to_double v = Num v.
Proof.
  intros H. unfold round_to_double.
  apply Z.ltb_lt in H. now rewrite H.
Qed.

Lemma round_to_double_large (v x : Z) :
  2 ^ 53 <= v -> round_to_double v = Num x -> 2 ^ 53 <= x.
Proof.
  intros Hv. unfold round_to_double.
  destruct (v <? 2 ^ 53) eqn:E; [apply Z.ltb_lt in E; lia|].
  set (e := Z.log2 v - 52).
  assert (Hl : 53 <= Z.log2 v).
  { apply Z.log2_le_pow2; lia. }
  assert (He : 1 <= e) by (unfold e; lia).
  assert (Hq : 2 ^ 52 <= Z.shiftr v e).
  { rewrite Z.shiftr_div_pow2 by lia.
    apply Z.div_le_lower_bound; [apply Z.pow_pos_nonneg; lia|].
    rewrite <- Z.pow_add_r by lia.
    replace (e + 52) with (Z.log2 v) by (unfold e; lia).
    apply Z.log2_spec. lia. }
  set (q := Z.shiftr v e) in *.
  set (q' := if v - Z.shiftl q e <? 2 ^ (e - 1) then q
             else if 2 ^ (e - 1) <? v - Z.shiftl q e then q + 1
                  else if Z.even q then q else q + 1).
  assert (Hq' : q <= q').
  { unfold q'. destruct (v - Z.shiftl q e <? 2 ^ (e - 1)); [lia|].
    destruct (2 ^ (e - 1) <? v - Z.shiftl q e); [lia|].
    destruct (Z.even q); lia. }
  destruct (2 ^ 1024 <=? Z.shiftl q' e); [discriminate|].
  intros H. injection H as <-.
  rewrite Z.shiftl_mul_pow2 by lia.
  assert (H2 : 2 ^ 1 <= 2 ^ e) by (apply Z.pow_le_mono_r; lia).
  change (2 ^ 53) with (2 ^ 52 * 2 ^ 1).
  apply Z.mul_le_mono_nonneg; lia.
Qed.

(** A parsed value equals a number below [2^53] exactly when the digits
    spell that number. *)
Lemma round_to_double_eq (v x : Z) :
  0 <= v -> x < 2 ^ 53 -> (Num x = round_to_double v <-> v = x).
Proof.
  intros Hv Hx. split.
  - intros H. symmetry in H.
    destruct (Z.lt_ge_cases v (2 ^ 53)) as [Hs|Hl].
    + rewrite (round_to_double_small v Hs) in H. now injection H.
    + pose proof (round_to_double_large v x Hl H). lia.
  - intros ->. symmetry. now apply round_to_double_small.
Qed.

(** ** The decimal spelling of a checksum *)

Lemma digit_char_code (d : Z) :
  0 <= d <= 9 -> N_of_ascii (digit_char d) = (48 + Z.to_N d)%N.
Proof.
  intros H. unfold digit_char. apply N_ascii_embedding. lia.
Qed.

Lemma digit_char_is_digit (d : Z) : 0 <= d <= 9 -> is_digit (digit_char d) = true.
Proof.
  intros H. unfold is_digit. rewrite (digit_char_code d H).
  apply andb_true_iff. rewrite !N.leb_le. lia.
Qed.

Lemma digit_char_value (d : Z) : 0 <= d <= 9 -> digit_value (digit_char d) = d.
Proof.
  intros H. unfold digit_value. rewrite (digit_char_code d H). lia.
Qed.

Lemma decimal_value_snoc (ds : jsstring) (ch : ascii) :
  decimal_value (ds ++ [ch]) = 10 * decimal_value ds + digit_value ch.
Proof. unfold decimal_value. now rewrite fold_left_app. Qed.

Lemma digits_of_spec (fuel : nat) :
  forall n, 0 <= n < 2 ^ Z.of_nat (S fuel) ->
            digits_of (S fuel) n <> []
            /\ forallb is_digit (digits_of (S fuel) n) = true
            /\ decimal_value (digits_of (S fuel) n) = n.
Proof.
  induction fuel as [|fuel IH]; intros n Hn.
  - change (2 ^ Z.of_nat 1) with 2 in Hn. cbn [digits_of].
    destruct (n <? 10) eqn:E; [|apply Z.ltb_ge in E; lia].
    split; [discriminate|]. split.
    + cbn [forallb]. rewrite digit_char_is_digit by lia. reflexivity.
    + unfold decimal_value. cbn [fold_left]. rewrite digit_char_value by lia. lia.
  - remember (S fuel) as f eqn:Ef. cbn [digits_of].
    destruct (n <? 10) eqn:E.
    + apply Z.ltb_lt in E. split; [discriminate|]. split.
      * cbn [forallb]. rewrite digit_char_is_digit by lia. reflexivity.
      * unfold decimal_value. cbn [fold_left].
        rewrite digit_char_value by lia. lia.
    + apply Z.ltb_ge in E.
      assert (Hdiv : 0 <= n / 10 < 2 ^ Z.of_nat f).
      { split; [apply Z.div_pos; lia|].
        apply Z.div_lt_upper_bound; [lia|].
        rewrite Nat2Z.inj_succ, Z.pow_succ_r in Hn by lia. lia. }
      destruct (IH (n / 10) Hdiv) as (H1 & H2 & H3).
      pose proof (Z.mod_pos_bound n 10 ltac:(lia)) as Hm.
      split; [|split].
      * destruct (digits_of f (n / 10)); discriminate.
      * rewrite forallb_app, H2. cbn [forallb].
        rewrite digit_char_is_digit by lia. reflexivity.
      * rewrite decimal_value_snoc, H3, digit_char_value by lia.
        pose proof (Z.div_mod n 10 ltac:(lia)). lia.
Qed.

Lemma decimal_spec (z : Z) :
  0 <= z ->
  decimal z <> [] /\ forallb is_digit (decimal z) = true
  /\ decimal_value (decimal z) = z.
Proof.
  intros Hz. unfold decimal.
  destruct (z <? 0) eqn:E; [apply Z.ltb_lt in E; lia|].
  apply digits_of_spec. split; [exact Hz|].
  rewrite Nat2Z.inj_succ, Z2Nat.id by apply Z.log2_nonneg.
  destruct (Z.eq_dec z 0) as [->|Hnz]; [cbn; lia|].
  apply Z.log2_spec. lia.
Qed.

Lemma to_lower_digit (ch : ascii) : is_digit ch = true -> to_lower ch = ch.
Proof.
  intros H. apply is_digit_range in H. unfold to_lower.
  destruct ((65 <=? N_of_ascii ch) && (N_of_ascii ch <=? 90))%N eqn:E;
    [|reflexivity].
  apply andb_true_iff in E as [E _]. apply N.leb_le in E. lia.
Qed.

(** A path the asset route matches is not one of the manifest route: it
    holds a digit. *)
Lemma asset_route_not_manifest (path : jsstring) (captures : jsstring * jsstring * jsstring) :
  Route.asset path = Some captures ->
  manifest_route path = false.
Proof.
  destruct captures as [[basedir c] basename]. intros H.
  destruct (asset_route_inv path basedir c basename H) as (-> & Hne & Hdig & _).
  destruct c as [|ch c]; [contradiction|].
  cbn [forallb] in Hdig. apply andb_true_iff in Hdig as [Hch _].
  assert (Hin : In ch (map to_lower (lit "/assets/" ++ basedir ++ (ch :: c)
                                        ++ "-"%char :: basename))).
  { rewrite <- (to_lower_digit ch Hch) at 1. apply in_map.
    apply in_or_app. right. apply in_or_app. right. now left. }
  assert (Hno : forall l, forallb (fun x => negb (is_digit x)) l = true ->
                          ~ In ch l).
  { intros l Hl Hc. rewrite forallb_forall in Hl. specialize (Hl ch Hc).
    rewrite Hch in Hl. discriminate. }
  unfold manifest_route. apply orb_false_iff. split; apply str_eqb_neq; intros E;
    rewrite E in Hin; revert Hin; apply Hno; reflexivity.
Qed.

(** The answer to a path the asset route matches, when its directory and
    base name decode to strings of the model. *)
Lemma app_get_asset (cwd : jsstring) (config : Config) (ts : Z)
      (m : list ManifestEntry) (path basedir c basename p0 p2 : jsstring) :
  Route.asset path = Some (basedir, c, basename) ->
  Route.decode_param basedir = Some (widen p0) ->
  Route.decode_param basename = Some (widen p2) ->
  app_get cwd config ts m path
  = with_header (lit "Access-Control-Allow-Origin", lit "*")
                (handleAsset cwd config m (p0, c, p2)).
Proof.
  intros Hroute H0 H2.
  destruct (asset_route_inv path basedir c basename Hroute)
    as (_ & _ & Hdig & _).
  unfold app_get.
  rewrite (asset_route_not_manifest path _ Hroute), Hroute.
  rewrite H0, (decode_param_digits c Hdig), H2, !narrow_widen.
  reflexivity.
Qed.

(** What [handleAsset] answers when the checksum parameter is a run of
    digits and the checksums of the manifest are unsigned 32-bit integers:
    the file exactly when an entry has the joined name and, as checksum,
    the decimal value of the digits. *)
Lemma handleAsset_digits (cwd : jsstring) (config : Config)
      (m : list ManifestEntry) (p0 c p2 : jsstring) :
  c <> [] -> forallb is_digit c = true ->
  (forall e, In e m -> 0 <= checksum e < 2 ^ 32) ->
  (act (handleAsset cwd config m (p0, c, p2))
   = SendFile (Path.resolve cwd [root config; Path.join [p0; p2]]) Infinity
   <-> exists e, In e m /\ name e = Path.join [p0; p2]
                 /\ checksum e = decimal_value c)
  /\ (act (handleAsset cwd config m (p0, c, p2)) = EndWith 400
      <-> ~ exists e, In e m /\ name e = Path.join [p0; p2]
                      /\ checksum e = decimal_value c).
Proof.
  intros Hne Hdig Hrange. unfold handleAsset.
  rewrite (parseInt10_digits c Hne Hdig).
  assert (Hval : forall e, In e m ->
                   (Num (checksum e) = round_to_double (decimal_value c)
                    <-> checksum e = decimal_value c)).
  { intros e He. specialize (Hrange e He).
    rewrite round_to_double_eq; [|now apply decimal_value_nonneg | lia].
    split; congruence. }
  destruct (find_asset m (Path.join [p0; p2]) (round_to_double (decimal_value c)))
    as [e|] eqn:F; cbn [act].
  - apply find_asset_Some in F as (He & Hn & Hc).
    assert (L : exists e, In e m /\ name e = Path.join [p0; p2]
                          /\ checksum e = decimal_value c).
    { exists e. split; [exact He|]. split; [exact Hn|]. now apply Hval. }
    split; split; try discriminate; auto. intros H. contradiction.
  - assert (L : ~ exists e, In e m /\ name e = Path.join [p0; p2]
                            /\ checksum e = decimal_value c).
    { intros (e & He & Hn & Hc).
      apply (find_asset_None _ _ _ F e He). split; [exact Hn|].
      now apply Hval. }
    split; split; try discriminate; auto. intros H. contradiction.
Qed.

(** C10: the checksum capture of a matching asset URL is a non-empty run
    of decimal digits (a segment with any other character is never what the
    route captures) and reaches [handleAsset] as it is; [handleAsset]
    reads it as a base-10 integer and compares that value with the
    checksums of the manifest: the URL is answered with the file exactly
    when an entry has the joined name and the decimal value of the digits
    as checksum, and with status 400 otherwise; so two URLs that differ
    only in the spelling of that value, such as [007] and [7], get the same
    answer, in particular that of the canonical URL. *)
Theorem checksum_segment_is_decimal :
  forall (cwd : jsstring) (config : Config) (ts : Z) (m : list ManifestEntry)
         (path basedir c basename : jsstring),
    Route.asset path = Some (basedir, c, basename) ->
    (c <> [] /\ forallb is_digit c = true)
    /\ Route.decode_param c = Some (widen c)
    /\ parseInt10 c = round_to_double (decimal_value c)
    /\ (forall e,
           0 <= checksum e < 2 ^ 32 ->
           (Num (checksum e) = parseInt10 c <-> decimal_value c = checksum e))
    /\ (forall p0 p2,
           Route.decode_param basedir = Some (widen p0) ->
           Route.decode_param basename = Some (widen p2) ->
           (forall e, In e m -> 0 <= checksum e < 2 ^ 32) ->
           (act (app_get cwd config ts m path)
            = SendFile (Path.resolve cwd [root config; Path.join [p0; p2]])
                       Infinity
            <-> exists e, In e m /\ name e = Path.join [p0; p2]
                          /\ checksum e = decimal_value c)
           /\ (act (app_get cwd config ts m path) = EndWith 400
               <-> ~ exists e, In e m /\ name e = Path.join [p0; p2]
                               /\ checksum e = decimal_value c))
    /\ (forall path' c',
           Route.asset path' = Some (basedir, c', basename) ->
           decimal_value c' = decimal_value c ->
           app_get cwd config ts m path' = app_get cwd config ts m path)
    /\ (forall e path',
           In e m -> 0 <= checksum e < 2 ^ 32 ->
           decimal_value c = checksum e ->
           Route.asset path' = Some (basedir, decimal (checksum e), basename) ->
           app_get cwd config ts m path = app_get cwd config ts m path').
Proof.
  intros cwd config ts m path basedir c basename Hroute.
  destruct (asset_route_inv path basedir c basename Hroute)
    as (_ & Hne & Hdig & _).
  pose proof (parseInt10_digits c Hne Hdig) as Hparse.
  assert (Hsame : forall path' c',
             Route.asset path' = Some (basedir, c', basename) ->
             decimal_value c' = decimal_value c ->
             app_get cwd config ts m path' = app_get cwd config ts m path).
  { intros path' c' Hroute' Hval.
    destruct (asset_route_inv path' basedir c' basename Hroute')
      as (_ & Hne' & Hdig' & _).
    unfold app_get.
    rewrite (asset_route_not_manifest path _ Hroute).
    rewrite (asset_route_not_manifest path' _ Hroute').
    rewrite Hroute, Hroute'.
    rewrite (decode_param_digits c Hdig), (decode_param_digits c' Hdig').
    destruct (Route.decode_param basedir) as [w0|]; [|reflexivity].
    destruct (Route.decode_param basename) as [w2|]; [|reflexivity].
    rewrite !narrow_widen.
    destruct (narrow w0) as [p0|].
    - destruct (narrow w2) as [p2|].
      + unfold handleAsset.
        rewrite Hparse, (parseInt10_digits c' Hne' Hdig'), Hval. reflexivity.
      + unfold handleAsset_units. rewrite !parseInt10_units_widen.
        rewrite Hparse, (parseInt10_digits c' Hne' Hdig'), Hval. reflexivity.
    - unfold handleAsset_units. rewrite !parseInt10_units_widen.
      rewrite Hparse, (parseInt10_digits c' Hne' Hdig'), Hval. reflexivity. }
  split; [now split|]. split; [now apply decode_param_digits|].
  split; [exact Hparse|]. split; [|split; [|split]].
  - intros e He. rewrite Hparse.
    apply round_to_double_eq; [now apply decimal_value_nonneg | lia].
  - intros p0 p2 H0 H2 Hrange.
    rewrite (app_get_asset cwd config ts m path basedir c basename p0 p2
               Hroute H0 H2).
    cbn [with_header act].
    now apply handleAsset_digits.
  - exact Hsame.
  - intros e path' _ He Hval Hroute'. symmetry.
    apply (Hsame path' (decimal (checksum e)) Hroute').
    destruct (decimal_spec (checksum e)) as (_ & _ & H); [lia|]. congruence.
Qed.

Lemma checksum_segment_is_decimal_witness :
  act (app_get Scenario.cwd Scenario.config 0 Scenario.listed
               (lit "/assets/weapons/007-gun.pk3"))
  = SendFile (lit "/srv/content/pk3_assets/weapons/gun.pk3") Infinity
  /\ act (app_get Scenario.cwd Scenario.config 0 Scenario.listed
                  (lit "/assets/weapons/008-gun.pk3"))
     = EndWith 400
  /\ app_get Scenario.cwd Scenario.config 0 Scenario.listed
             (lit "/assets/weapons/7-gun.pk3")
     = app_get Scenario.cwd Scenario.config 0 Scenario.listed
               (lit "/assets/weapons/007-gun.pk3").
Proof.
  assert (Hrange : forall e, In e Scenario.listed -> 0 <= checksum e < 2 ^ 32).
  { intros e [<-|[]]. cbn. lia. }
  destruct (checksum_segment_is_decimal Scenario.cwd Scenario.config 0
              Scenario.listed (lit "/assets/weapons/007-gun.pk3")
              (lit "weapons/") (lit "007") (lit "gun.pk3") eq_refl)
    as (_ & _ & _ & _ & Hserved & Hsame & _).
  destruct (checksum_segment_is_decimal Scenario.cwd Scenario.config 0
              Scenario.listed (lit "/assets/weapons/008-gun.pk3")
              (lit "weapons/") (lit "008") (lit "gun.pk3") eq_refl)
    as (_ & _ & _ & _ & Hrejected & _).
  destruct (Hserved (lit "weapons/") (lit "gun.pk3") eq_refl eq_refl Hrange)
    as [[_ Hyes] _].
  destruct (Hrejected (lit "weapons/") (lit "gun.pk3") eq_refl eq_refl Hrange)
    as [_ [_ Hno]].
  split; [|split].
  - apply Hyes.
    exists {| name := lit "weapons/gun.pk3"; compressed := 32; checksum := 7 |}.
    split; [now left|]. split; reflexivity.
  - apply Hno. intros (e & [<-|[]] & _ & Hc). cbn in Hc. discriminate.
  - exact (Hsame (lit "/assets/weapons/7-gun.pk3") (lit "7") eq_refl eq_refl).
Defined.

Example manifest_route_examples :
  manifest_route (lit "/assets/manifest.json") = true
  /\ manifest_route (lit "/Assets/Manifest.JSON/") = true
  /\ manifest_route (lit "/assets/manifest.json//") = false
  /\ manifest_route (lit "/assets/manifest_json") = false.
Proof. vm_compute. repeat split. Qed.

Example noncanonical_checksum_served :
  act (app_get Scenario.cwd Scenario.config 0
         [{| name := lit "weapons/gun.pk3"; compressed := 32; checksum := 7 |}]
         (lit "/assets/weapons/007-gun.pk3"))
  = SendFile (lit "/srv/content/pk3_assets/weapons/gun.pk3") Infinity
  /\ Route.asset (lit "/assets/weapons/7x-gun.pk3") = None
  /\ Route.asset (lit "/assets/weapons/-gun.pk3") = None.
Proof. vm_compute. repeat split. Qed.

(** ** A content root with many files *)

Lemma numbered_name_length (k : nat) : length (numbered_name k) = (k + 5)%nat.
Proof.
  unfold numbered_name. rewrite length_app, repeat_length. cbn. lia.
Qed.

Lemma numbered_name_inj (j k : nat) : numbered_name j = numbered_name k -> j = k.
Proof.
  intros H. apply (f_equal (@Datatypes.length ascii)) in H.
  rewrite !numbered_name_length in H. lia.
Qed.

Lemma numbered_name_good (k : nat) : good_seg (numbered_name k).
Proof.
  unfold good_seg, numbered_name. cbn [repeat Datatypes.app].
  repeat split; try discriminate.
  intros [H|H]; [discriminate|].
  apply in_app_or in H as [H|H].
  - apply repeat_spec in H. discriminate.
  - cbn in H. repeat (destruct H as [H|H]; [discriminate|]). exact H.
Qed.

Lemma take_until_slash_no_slash (s : jsstring) :
  no_slash s -> Path.take_until_slash s = s.
Proof.
  unfold no_slash. induction s as [|c s IH]; intros H; cbn [Path.take_until_slash];
    [reflexivity|].
  destruct (Ascii.eqb_spec c Path.slash) as [->|_].
  - exfalso. apply H. now left.
  - rewrite IH; [reflexivity|]. intros Hin. apply H. now right.
Qed.

Lemma numbered_name_extname (k : nat) :
  Path.extname (numbered_name k) = lit ".pk3".
Proof.
  unfold Path.extname, Path.rev_basename.
  assert (Hrev : rev (numbered_name k)
                 = "3"%char :: "k"%char :: "p"%char :: "."%char
                       :: "a"%char :: repeat "a"%char k).
  { unfold numbered_name. rewrite rev_app_distr, rev_repeat. reflexivity. }
  rewrite Hrev. cbn [Path.drop_slashes Ascii.eqb Bool.eqb Path.slash].
  rewrite take_until_slash_no_slash.
  - reflexivity.
  - rewrite <- Hrev. intros Hin. apply in_rev in Hin.
    now apply (numbered_name_good k).
Qed.

Lemma many_files_from_distinct (start n : nat) :
  distinct (map numbered_name (seq start n)) = true.
Proof.
  revert start. induction n as [|n IH]; intros start; cbn [seq map distinct];
    [reflexivity|].
  rewrite IH, andb_true_r. apply negb_true_iff.
  destruct (existsb (str_eqb (numbered_name start))
                    (map numbered_name (seq (S start) n))) eqn:E; [|reflexivity].
  apply existsb_exists in E as (x & Hx & Heq).
  apply in_map_iff in Hx as (k & <- & Hk). apply in_seq in Hk.
  apply str_eqb_eq, numbered_name_inj in Heq. lia.
Qed.

Lemma many_files_wf (n : nat) : wf_entries (many_files n) = true.
Proof.
  unfold wf_entries, many_files. rewrite wf_dirent_Directory, map_map.
  cbn [fst]. rewrite !andb_true_iff. split; [split|].
  - apply forallb_forall. intros x Hx.
    apply in_map_iff in Hx as (k & <- & _).
    apply valid_name_good, numbered_name_good.
  - apply many_files_from_distinct.
  - apply forallb_forall. intros x Hx.
    apply in_map_iff in Hx as (k & <- & _). reflexivity.
Qed.

Lemma many_files_paths (l : list nat) :
  map Path.unsplit
      (files_under (Directory (map (fun k => (numbered_name k, File)) l)))
  = map numbered_name l.
Proof.
  rewrite files_under_Directory.
  induction l as [|k l IH]; cbn [map flat_map fst snd files_under Datatypes.app];
    [reflexivity|].
  now rewrite IH.
Qed.

Lemma many_files_assets (cwd : jsstring) (n : nat) :
  Path.isAbsolute cwd = true ->
  length (getAssets cwd (loadConfig None) (many_files n)) = n.
Proof.
  intros Hcwd.
  rewrite <- (length_map (Path.relative cwd (root (loadConfig None)))).
  rewrite (asset_names cwd (loadConfig None) Hcwd (many_files n) (many_files_wf n)).
  unfold many_files. rewrite many_files_paths.
  rewrite forallb_filter_id.
  - now rewrite length_map, length_seq.
  - apply forallb_forall. intros x Hx.
    apply in_map_iff in Hx as (k & <- & _).
    unfold allowed. rewrite numbered_name_extname. reflexivity.
Qed.

(** C9, as stated, fails: no number bounds the pipelines in flight under
    the default configuration; a content root with [limit + 1] files has
    them all in flight at once. *)
Lemma concurrency_is_not_bounded :
  ~ (exists limit : nat,
        forall (G : Gzip) (cwd : jsstring) (now : Z)
               (entries : list (jsstring * dirent)),
          Path.isAbsolute cwd = true ->
          wf_entries entries = true ->
          (in_flight (pipelines (main G cwd (loadConfig None) now entries))
           <= limit)%nat).
Proof.
  intros [limit H].
  specialize (H StoredGzip.encoder Scenario.cwd 0 (many_files (S limit))
                eq_refl (many_files_wf (S limit))).
  rewrite main_pipelines, in_flight_start in H.
  rewrite (many_files_assets Scenario.cwd (S limit) eq_refl) in H. lia.
Qed.

(** ** Counting byte strings *)

Lemma byte_of_nat_to_N (n : nat) :
  (n < 256)%nat -> Byte.to_N (byte_of_nat n) = N.of_nat n.
Proof.
  intros H. unfold byte_of_nat.
  destruct (Byte.of_N (N.of_nat n)) as [b|] eqn:E.
  - now apply Byte.to_of_N.
  - pose proof (Byte.to_of_N_option_map (N.of_nat n)) as X.
    rewrite E in X. cbn [option_map] in X.
    destruct (N.leb_spec (N.of_nat n) 255); [discriminate | lia].
Qed.

Lemma all_bytes_complete (b : byte) : In b all_bytes.
Proof.
  unfold all_bytes. apply in_map_iff.
  exists (N.to_nat (Byte.to_N b)).
  pose proof (Byte.to_N_bounded b) as Hb.
  split.
  - unfold byte_of_nat. rewrite N2Nat.id, Byte.of_to_N. reflexivity.
  - apply in_seq. lia.
Qed.

Lemma all_bytes_NoDup : NoDup all_bytes.
Proof.
  unfold all_bytes. apply NoDup_map_NoDup_ForallPairs; [|apply seq_NoDup].
  intros j k Hj Hk E. apply in_seq in Hj, Hk.
  apply (f_equal Byte.to_N) in E.
  rewrite !byte_of_nat_to_N in E by lia. lia.
Qed.

Lemma all_bytes_length : length all_bytes = 256%nat.
Proof. unfold all_bytes. now rewrite length_map, length_seq. Qed.

Lemma flat_map_length_const {A B : Type} (f : A -> list B) (c : nat) (l : list A) :
  (forall x, length (f x) = c) -> length (flat_map f l) = (length l * c)%nat.
Proof.
  intros H. induction l as [|x l IH]; cbn [flat_map length]; [reflexivity|].
  rewrite length_app, H, IH. lia.
Qed.

Lemma flat_map_NoDup {A B : Type} (f : A -> list B) (l : list A) :
  NoDup l ->
  (forall x, NoDup (f x)) ->
  (forall x y b, In b (f x) -> In b (f y) -> x = y) ->
  NoDup (flat_map f l).
Proof.
  intros Hl Hf Hdisj. induction Hl as [|x l Hx Hl IH]; cbn [flat_map].
  - constructor.
  - apply NoDup_app; [apply Hf | exact IH|].
    intros b Hb Hb'. apply in_flat_map in Hb' as (y & Hy & Hb').
    rewrite (Hdisj x y b Hb Hb') in Hx. contradiction.
Qed.

Lemma words_length (n : nat) : length (words n) = (256 ^ n)%nat.
Proof.
  induction n as [|n IH]; cbn [words]; [reflexivity|].
  rewrite (flat_map_length_const _ (256 ^ n)).
  - rewrite all_bytes_length. now rewrite Nat.pow_succ_r'.
  - intros b. now rewrite length_map.
Qed.

Lemma words_spec (n : nat) (w : list byte) : In w (words n) <-> length w = n.
Proof.
  revert w. induction n as [|n IH]; intros w; cbn [words].
  - split.
    + intros [<-|[]]. reflexivity.
    + intros H. left. symmetry. now apply length_zero_iff_nil.
  - rewrite in_flat_map. split.
    + intros (b & _ & Hw). apply in_map_iff in Hw as (w' & <- & Hw').
      cbn [length]. f_equal. now apply IH.
    + intros H. destruct w as [|b w]; [discriminate|].
      exists b. split; [apply all_bytes_complete|].
      apply in_map. apply IH. cbn [length] in H. lia.
Qed.

Lemma words_NoDup (n : nat) : NoDup (words n).
Proof.
  induction n as [|n IH]; cbn [words].
  - repeat constructor. intros [].
  - apply flat_map_NoDup.
    + apply all_bytes_NoDup.
    + intros b. apply NoDup_map_NoDup_ForallPairs; [|exact IH].
      intros x y _ _ E. now injection E.
    + intros x y w Hx Hy.
      apply in_map_iff in Hx as (wx & <- & _).
      apply in_map_iff in Hy as (wy & E & _). now injection E.
Qed.

Lemma words_upto_spec (m : nat) (w : list byte) :
  (length w <= m)%nat -> In w (words_upto m).
Proof.
  intros H. unfold words_upto. apply in_flat_map.
  exists (length w). split; [apply in_seq; lia | now apply words_spec].
Qed.

Lemma words_upto_length (m : nat) : (length (words_upto m) < 256 ^ S m)%nat.
Proof.
  unfold words_upto. induction m as [|m IH].
  - cbn. lia.
  - rewrite seq_S, flat_map_app, length_app. cbn [flat_map Nat.add].
    rewrite app_nil_r, words_length.
    rewrite (Nat.pow_succ_r' 256 (S m)). lia.
Qed.

(** No injection maps the byte strings of length [n] to shorter ones. *)
Lemma no_injection_into_shorter (n m : nat) (f : list byte -> list byte) :
  (m < n)%nat ->
  (forall w, length w = n -> (length (f w) <= m)%nat) ->
  (forall w1 w2, length w1 = n -> length w2 = n -> f w1 = f w2 -> w1 = w2) ->
  False.
Proof.
  intros Hmn Hshort Hinj.
  assert (Hnd : NoDup (map f (words n))).
  { apply NoDup_map_NoDup_ForallPairs; [|apply words_NoDup].
    intros w1 w2 H1 H2. apply Hinj; now apply words_spec. }
  assert (Hincl : incl (map f (words n)) (words_upto m)).
  { intros y Hy. apply in_map_iff in Hy as (w & <- & Hw).
    apply words_upto_spec, Hshort. now apply words_spec. }
  pose proof (NoDup_incl_length Hnd Hincl) as Hlen.
  rewrite length_map, words_length in Hlen.
  pose proof (words_upto_length m) as Hup.
  assert (Hpow : (256 ^ S m <= 256 ^ n)%nat) by (apply Nat.pow_le_mono_r; lia).
  lia.
Qed.

(** Some input of [n] bytes leaves any lossless gzip encoder longer than
    it went in. *)
Lemma encoder_expands_some_input (G : Gzip) (cut : list byte -> list (list byte))
      (n : nat) :
  (2 <= n)%nat ->
  (forall c, concat (cut c) = c) ->
  lossless_on n G -> gzip_magic_on n G ->
  exists content,
    length content = n /\ (n < length (gz_output G (cut content)))%nat.
Proof.
  intros Hn Hcut Hloss Hmagic.
  set (P := fun w : list byte => (length (gz_output G (cut w)) <= n)%nat).
  destruct (Forall_Exists_dec P (fun w => le_dec _ _) (words n)) as [Hall|Hex].
  - exfalso. rewrite Forall_forall in Hall.
    apply (no_injection_into_shorter n (n - 2)
             (fun w => skipn 2 (gz_output G (cut w)))); [lia| |].
    + intros w Hw. rewrite length_skipn.
      assert (P w) by (apply Hall; now apply words_spec). unfold P in *. lia.
    + intros w1 w2 H1 H2 E.
      destruct (Hmagic (cut w1)) as [r1 E1]; [now rewrite Hcut|].
      destruct (Hmagic (cut w2)) as [r2 E2]; [now rewrite Hcut|].
      rewrite E1, E2 in E. cbn [skipn] in E. subst r2.
      rewrite <- (Hcut w1), <- (Hcut w2).
      apply Hloss; rewrite ?Hcut; congruence.
  - apply Exists_exists in Hex as (w & Hw & HP).
    exists w. split; [now apply words_spec|]. unfold P in HP. lia.
Qed.

(** ** The stored-blocks encoder *)

Lemma stored_gz_run (st : list byte) (chunks : list (list byte)) :
  gz_run StoredGzip.encoder st chunks
  = [StoredGzip.header;
     StoredGzip.blocks (S (length (st ++ concat chunks))) (st ++ concat chunks);
     StoredGzip.trailer (st ++ concat chunks)].
Proof.
  revert st. induction chunks as [|c chunks IH]; intros st.
  - cbn [gz_run concat]. rewrite app_nil_r. reflexivity.
  - cbn [gz_run concat]. cbn [gz_write StoredGzip.encoder fst snd Datatypes.app].
    rewrite IH, <- app_assoc. reflexivity.
Qed.

Lemma stored_gz_output (chunks : list (list byte)) :
  gz_output StoredGzip.encoder chunks
  = StoredGzip.header
      ++ StoredGzip.blocks (S (length (concat chunks))) (concat chunks)
      ++ StoredGzip.trailer (concat chunks).
Proof.
  unfold gz_output.
  change (createGzip StoredGzip.encoder) with (@nil byte).
  rewrite stored_gz_run. cbn [concat Datatypes.app]. now rewrite app_nil_r.
Qed.

Lemma stored_single_block (data : list byte) :
  Z.of_nat (length data) <= 65535 ->
  StoredGzip.blocks (S (length data)) data
  = x01 :: StoredGzip.le16 (Z.of_nat (length data))
        ++ StoredGzip.le16 (65535 - Z.of_nat (length data)) ++ data.
Proof.
  intros H. cbn [StoredGzip.blocks].
  apply Z.leb_le in H. now rewrite H.
Qed.

Lemma app_inv_same_length {A : Type} (a b x y : list A) :
  length a = length b -> a ++ x = b ++ y -> a = b.
Proof.
  revert b. induction a as [|c a IH]; intros [|d b] L E; try discriminate.
  - reflexivity.
  - cbn in L, E. injection E as -> E. f_equal. apply IH; [lia | exact E].
Qed.

Lemma stored_lossless (n : nat) :
  Z.of_nat n <= 65535 -> lossless_on n StoredGzip.encoder.
Proof.
  intros Hn chunks1 chunks2 L1 L2 E.
  rewrite !stored_gz_output in E.
  rewrite !stored_single_block in E by lia.
  apply app_inv_head in E.
  rewrite L1, L2 in E. injection E as E.
  apply (app_inv_same_length (concat chunks1) (concat chunks2)
           (StoredGzip.trailer (concat chunks1))
           (StoredGzip.trailer (concat chunks2))); [congruence | exact E].
Qed.

Lemma stored_magic (n : nat) : gzip_magic_on n StoredGzip.encoder.
Proof.
  intros chunks _. rewrite stored_gz_output. eexists. reflexivity.
Qed.

(** ** A build that reads one file in one buffer *)

Section OneFile.

Variable G : Gzip.

Local Abbreviation Pipeline := (Pipeline G).
Local Abbreviation Server := (Server G).

Lemma deliver_stream_data (s : Server) (p : Pipeline) (t : Z) (data : list byte) :
  uncaught s = None -> pipelines s = [p] -> v_stream p = Flowing ->
  deliver s (t, StreamData 0%nat data)
  = Some (with_pipelines s [on_stream_data p data]).
Proof.
  intros U Hp F. unfold deliver. rewrite U. cbn [snd fst handle_event].
  rewrite Hp. cbn [nth_error]. rewrite F. reflexivity.
Qed.

Lemma deliver_stream_end (s : Server) (p : Pipeline) (t : Z) :
  uncaught s = None -> pipelines s = [p] -> v_stream p = Flowing ->
  deliver s (t, StreamEnd 0%nat) = Some (with_pipelines s [on_stream_end p]).
Proof.
  intros U Hp F. unfold deliver. rewrite U. cbn [snd fst handle_event].
  rewrite Hp. cbn [nth_error]. rewrite F. reflexivity.
Qed.

Lemma deliver_gzip_data (s : Server) (p : Pipeline) (t : Z)
      (data : list byte) (pending : list (list byte)) :
  uncaught s = None -> pipelines s = [p] -> v_gzip_out p = data :: pending ->
  deliver s (t, GzipData 0%nat)
  = Some (with_pipelines s [on_gzip_data p data pending]).
Proof.
  intros U Hp Q. unfold deliver. rewrite U. cbn [snd fst handle_event].
  rewrite Hp. cbn [nth_error]. rewrite Q. reflexivity.
Qed.

Lemma deliver_gzip_end (s : Server) (p : Pipeline) (t : Z) :
  uncaught s = None -> pipelines s = [p] ->
  v_gzip_ending p = true -> v_gzip_out p = [] -> v_result p = None ->
  deliver s (t, GzipEnd 0%nat)
  = Some (main_callback t (with_pipelines s [on_gzip_end p])
                        (CallbackOk [entry_of p])).
Proof.
  intros U Hp E Q R. unfold deliver. rewrite U. cbn [snd fst handle_event].
  rewrite Hp. cbn [nth_error]. rewrite E, Q, R. reflexivity.
Qed.

(** The gzip stream delivers all the buffers it holds. *)
Lemma drain (t : Z) (queue : list (list byte)) :
  forall (s : Server) (p : Pipeline),
    uncaught s = None -> pipelines s = [p] -> v_gzip_out p = queue ->
    exists p',
      run s (repeat (t, GzipData 0%nat) (length queue))
      = Some (with_pipelines s [p'])
      /\ v_gzip_out p' = [] /\ v_gzip_ending p' = v_gzip_ending p
      /\ v_result p' = v_result p.
Proof.
  induction queue as [|data pending IH]; intros s p U Hp Q; cbn [length repeat run].
  - exists p. rewrite <- Hp. destruct s; cbn. repeat split; auto.
  - rewrite (deliver_gzip_data s p t data pending U Hp Q).
    destruct (IH (with_pipelines s [on_gzip_data p data pending])
                 (on_gzip_data p data pending) U eq_refl eq_refl)
      as (p' & Hr & H1 & H2 & H3).
    exists p'. split; [exact Hr|]. repeat split; assumption.
Qed.

Lemma chunks_of_app (i : nat) (a b : list (Z * event)) :
  chunks_of i (a ++ b) = chunks_of i a ++ chunks_of i b.
Proof.
  induction a as [|[t ev] a IH]; cbn [chunks_of Datatypes.app]; [reflexivity|].
  destruct ev as [j data| | | |]; try exact IH.
  destruct (Nat.eqb i j); [|exact IH]. cbn [Datatypes.app]. now rewrite IH.
Qed.

Lemma chunks_of_gzip_data (i : nat) (t : Z) (k : nat) :
  chunks_of i (repeat (t, GzipData 0%nat) k) = [].
Proof. induction k; cbn [repeat chunks_of]; auto. Qed.

Lemma chunks_of_reading (content : list byte) :
  chunks_of 0 (reading G content) = [content].
Proof.
  unfold reading. rewrite !chunks_of_app, chunks_of_gzip_data. reflexivity.
Qed.

(** Reading the only asset in one buffer ends with a published manifest. *)
Lemma reading_publishes (cwd : jsstring) (config : Config) (now : Z)
      (entries : list (jsstring * dirent)) (file : jsstring)
      (content : list byte) :
  getAssets cwd config entries = [file] ->
  exists s m,
    run (main G cwd config now entries) (reading G content) = Some s
    /\ currentManifest s = Some m.
Proof.
  intros Hassets.
  set (s0 := main G cwd config now entries).
  assert (U0 : uncaught s0 = None) by apply main_alive.
  assert (Hp0 : pipelines s0 = [iteratee G cwd config file]).
  { unfold s0. now rewrite main_pipelines, Hassets. }
  set (p0 := iteratee G cwd config file) in *.
  set (p1 := on_stream_data p0 content).
  set (p2 := on_stream_end p1).
  unfold reading. cbn [Datatypes.app run].
  rewrite (deliver_stream_data s0 p0 1000 content U0 Hp0 eq_refl).
  fold p1.
  rewrite (deliver_stream_end (with_pipelines s0 [p1]) p1 2000 U0 eq_refl eq_refl).
  destruct (drain 3000 (v_gzip_out p2) (with_pipelines s0 [p2]) p2 U0 eq_refl eq_refl)
    as (p3 & Hr & Hq & He & Hres).
  assert (Hlen : length (gz_run G (createGzip G) [content])
                 = length (v_gzip_out p2)).
  { unfold p2, p1, p0. cbn [v_gzip_out on_stream_end on_stream_data iteratee
                             v_gzip gz_run Datatypes.app]. reflexivity. }
  rewrite Hlen.
  change (with_pipelines (with_pipelines s0 [p1]) [on_stream_end p1])
    with (with_pipelines s0 [p2]).
  rewrite run_app, Hr. cbn [run].
  rewrite (deliver_gzip_end (with_pipelines (with_pipelines s0 [p2]) [p3]) p3 4000
             U0 eq_refl).
  - eexists. eexists. split; reflexivity.
  - rewrite He. reflexivity.
  - exact Hq.
  - rewrite Hres. reflexivity.
Qed.

End OneFile.

(** ** The compressed size in the scenario *)

Lemma scenario_assets :
  getAssets Scenario.cwd Scenario.config Scenario.entries
  = [lit "pk3_assets/weapons/gun.pk3"].
Proof. vm_compute. reflexivity. Qed.

Lemma scenario_name :
  Path.relative Scenario.cwd (root Scenario.config) (lit "pk3_assets/weapons/gun.pk3")
  = lit "weapons/gun.pk3".
Proof. vm_compute. reflexivity. Qed.

(** The manifest of the scenario: the entry of [weapons/gun.pk3] alone. *)
Lemma scenario_manifest (G : Gzip) (now : Z) (schedule : list (Z * event))
      (s : Server G) (m : list ManifestEntry) :
  run (main G Scenario.cwd Scenario.config now Scenario.entries) schedule = Some s ->
  currentManifest s = Some m ->
  m = [entry_for G Scenario.cwd Scenario.config schedule 0
                 (lit "pk3_assets/weapons/gun.pk3")].
Proof.
  intros Hr Hm.
  destruct (published_entries G Scenario.cwd Scenario.config now Scenario.entries
              schedule s m Hr Hm) as [Hnames Hentries].
  rewrite scenario_assets in Hnames, Hentries.
  specialize (Hentries 0%nat _ eq_refl).
  destruct m as [|e [|e' m]]; try discriminate.
  cbn [nth_error] in Hentries. now injection Hentries as ->.
Qed.

Lemma single_chunk (c : list byte) : concat [c] = c.
Proof. cbn [concat]. apply app_nil_r. Qed.

(** For any lossless gzip encoder, some content of the size of the
    scenario's file gets a compressed size above that size. *)
Lemma some_content_grows (G : Gzip) (now : Z) :
  lossless_on Scenario.gun_size G -> gzip_magic_on Scenario.gun_size G ->
  exists content schedule s e,
    Z.of_nat (length content) = 10000
    /\ concat (chunks_of 0 schedule) = content
    /\ run (main G Scenario.cwd Scenario.config now Scenario.entries) schedule
       = Some s
    /\ currentManifest s = Some [e]
    /\ 10000 < compressed e.
Proof.
  intros Hloss Hmagic.
  destruct (encoder_expands_some_input G (fun c => [c]) Scenario.gun_size)
    as (content & Hlen & Hbig);
    [unfold Scenario.gun_size; lia | exact single_chunk | exact Hloss | exact Hmagic|].
  destruct (reading_publishes G Scenario.cwd Scenario.config now Scenario.entries
              _ content scenario_assets) as (s & m & Hr & Hm).
  pose proof (scenario_manifest G now (reading G content) s m Hr Hm) as Em.
  exists content, (reading G content), s.
  eexists. split; [|split; [|split; [exact Hr | split; [rewrite Hm, Em; reflexivity|]]]].
  - rewrite Hlen. unfold Scenario.gun_size. lia.
  - rewrite chunks_of_reading. apply single_chunk.
  - unfold entry_for. cbn [compressed]. rewrite chunks_of_reading.
    unfold Scenario.gun_size in Hbig. lia.
Qed.

(** C8, as the code has it: in the scenario the manifest has the single
    entry of [weapons/gun.pk3], whose compressed size is the number of
    bytes the gzip stream emitted for the buffers read, whatever they are;
    no bound by the size of the file follows: with any lossless gzip
    encoder some content of 10000 bytes is published with a compressed
    size above 10000. *)
Theorem compressed_size_is_gzip_output_length :
  forall (G : Gzip) (now : Z) (schedule : list (Z * event)) (s : Server G)
         (m : list ManifestEntry),
    run (main G Scenario.cwd Scenario.config now Scenario.entries) schedule = Some s ->
    currentManifest s = Some m ->
    (exists e,
        m = [e] /\ name e = lit "weapons/gun.pk3"
        /\ compressed e = Z.of_nat (length (gz_output G (chunks_of 0 schedule))))
    /\ (lossless_on Scenario.gun_size G -> gzip_magic_on Scenario.gun_size G ->
        exists content schedule' s' e',
          Z.of_nat (length content) = 10000
          /\ concat (chunks_of 0 schedule') = content
          /\ run (main G Scenario.cwd Scenario.config now Scenario.entries) schedule'
             = Some s'
          /\ currentManifest s' = Some [e']
          /\ 10000 < compressed e').
Proof.
  intros G now schedule s m Hr Hm. split.
  - rewrite (scenario_manifest G now schedule s m Hr Hm).
    eexists. split; [reflexivity|]. split; [exact scenario_name | reflexivity].
  - apply some_content_grows.
Qed.

Lemma compressed_size_is_gzip_output_length_witness :
  exists s m,
    run (main StoredGzip.encoder Scenario.cwd Scenario.config 0 Scenario.entries)
        Scenario.good = Some s
    /\ currentManifest s = Some m
    /\ (exists e,
           m = [e] /\ name e = lit "weapons/gun.pk3"
           /\ compressed e
              = Z.of_nat (length (gz_output StoredGzip.encoder
                                            (chunks_of 0 Scenario.good))))
    /\ exists content schedule' s' e',
        Z.of_nat (length content) = 10000
        /\ concat (chunks_of 0 schedule') = content
        /\ run (main StoredGzip.encoder Scenario.cwd Scenario.config 0
                     Scenario.entries) schedule' = Some s'
        /\ currentManifest s' = Some [e']
        /\ 10000 < compressed e'.
Proof.
  destruct scenario_good_run as (s & Hr & Hm & _).
  exists s. eexists. split; [exact Hr|]. split; [exact Hm|].
  destruct (compressed_size_is_gzip_output_length StoredGzip.encoder 0
              Scenario.good s _ Hr Hm) as [H1 H2].
  split; [exact H1|].
  apply H2.
  - apply stored_lossless. unfold Scenario.gun_size. lia.
  - apply stored_magic.
Defined.

(** C8, as stated, fails for every gzip encoder: none that is lossless
    and starts its output with the gzip identification bytes keeps the
    compressed size of every 10000-byte content at or below 10000. *)
Lemma compressed_size_exceeds_input :
  ~ (exists G : Gzip,
        lossless_on Scenario.gun_size G /\ gzip_magic_on Scenario.gun_size G
        /\ forall (content : list byte) (schedule : list (Z * event))
                  (s : Server G) (e : ManifestEntry),
            Z.of_nat (length content) = 10000 ->
            concat (chunks_of 0 schedule) = content ->
            run (main G Scenario.cwd Scenario.config 0 Scenario.entries) schedule
            = Some s ->
            currentManifest s = Some [e] ->
            compressed e <= 10000).
Proof.
  intros (G & Hloss & Hmagic & Hclaim).
  destruct (some_content_grows G 0 Hloss Hmagic)
    as (content & schedule & s & e & Hlen & Hc & Hr & Hm & Hbig).
  specialize (Hclaim content schedule s e Hlen Hc Hr Hm). lia.
Qed.

(** * Further properties of the content server *)

(** ** The asset route, read forwards *)

Lemma longer_prefix {A : Type} (a b m rest : list A) :
  a ++ b = m ++ rest -> (length a < length m)%nat ->
  exists l, l <> [] /\ m = a ++ l /\ b = l ++ rest.
Proof.
  intros H Hlen. apply app_eq_app in H as [l [[-> ->]|[-> ->]]].
  - rewrite length_app in Hlen. lia.
  - exists l. split; [|now split]. intros ->.
    rewrite app_nil_r in Hlen. lia.
Qed.

Section MatcherComplete.

Variable R : Type.

Lemma plus_greedy_None (cls : ascii -> bool) (s : jsstring)
      (k : jsstring -> jsstring -> option R) :
  (forall m rest, s = m ++ rest -> m <> [] -> forallb cls m = true ->
                  k m rest = None) ->
  Route.plus_greedy cls k s = None.
Proof.
  intros H. destruct (Route.plus_greedy cls k s) as [r|] eqn:E; [|reflexivity].
  apply plus_greedy_Some in E as (m & rest & Hs & Hm & Hc & Hk).
  rewrite (H m rest Hs Hm Hc) in Hk. discriminate.
Qed.

(** The greedy repetition settles on a run when every longer run fails. *)
Lemma plus_greedy_longest (cls : ascii -> bool) (m : jsstring) :
  forall (rest : jsstring) (k : jsstring -> jsstring -> option R) (r : R),
    m <> [] -> forallb cls m = true -> k m rest = Some r ->
    (forall m' rest', m ++ rest = m' ++ rest' -> (length m < length m')%nat ->
                      forallb cls m' = true -> k m' rest' = None) ->
    Route.plus_greedy cls k (m ++ rest) = Some r.
Proof.
  induction m as [|c m IH]; intros rest k r Hne Hc Hk Hlong; [contradiction|].
  cbn [forallb] in Hc. apply andb_true_iff in Hc as [Hc1 Hc2].
  cbn [Datatypes.app Route.plus_greedy]. rewrite Hc1.
  destruct m as [|c' m].
  - cbn [Datatypes.app]. rewrite plus_greedy_None; [exact Hk|].
    intros m' rest' Hs Hm' Hcm'. apply Hlong.
    + cbn [Datatypes.app]. now rewrite Hs.
    + destruct m'; [contradiction|]. cbn [length]. lia.
    + cbn [forallb]. now rewrite Hc1.
  - rewrite (IH rest (fun m0 rest0 => k (c :: m0) rest0) r);
      [reflexivity | discriminate | exact Hc2 | exact Hk |].
    intros m' rest' Hs Hlen Hcm'. apply Hlong.
    + cbn [Datatypes.app] in *. now rewrite Hs.
    + cbn [length] in *. lia.
    + cbn [forallb]. now rewrite Hc1.
Qed.

(** The lazy repetition before [$] takes all that is left. *)
Lemma plus_lazy_eos (cls : ascii -> bool) (s : jsstring) :
  forall f : jsstring -> R,
    s <> [] -> forallb cls s = true ->
    Route.plus_lazy cls (fun m => Route.eos (f m)) s = Some (f s).
Proof.
  induction s as [|c s IH]; intros f Hne Hc; [contradiction|].
  cbn [forallb] in Hc. apply andb_true_iff in Hc as [Hc1 Hc2].
  cbn [Route.plus_lazy]. rewrite Hc1.
  destruct s as [|c' s]; [reflexivity|].
  cbn [Route.eos].
  apply (IH (fun m => f (c :: m))); [discriminate | exact Hc2].
Qed.

Lemma char_None (c : ascii) (k : jsstring -> option R) (s : jsstring) :
  (forall s', s <> c :: s') -> Route.char c k s = None.
Proof.
  intros H. unfold Route.char. destruct s as [|c' s']; [reflexivity|].
  destruct (Ascii.eqb_spec c' c) as [->|]; [|reflexivity].
  exfalso. now apply (H s').
Qed.

Lemma char_here (c : ascii) (k : jsstring -> option R) (s : jsstring) :
  Route.char c k (c :: s) = k s.
Proof. unfold Route.char. now rewrite Ascii.eqb_refl. Qed.

Lemma literal_here (l : jsstring) (k : jsstring -> option R) (s : jsstring) :
  Route.literal l k (l ++ s) = k s.
Proof.
  induction l as [|c l IH]; cbn [Route.literal Datatypes.app]; [reflexivity|].
  now rewrite char_here.
Qed.

End MatcherComplete.

Lemma digits_no (c : jsstring) (other : ascii) :
  forallb is_digit c = true -> (N_of_ascii other < 48)%N -> ~ In other c.
Proof.
  intros Hd Ho Hin. rewrite forallb_forall in Hd.
  apply Hd, is_digit_range in Hin. lia.
Qed.

(** The checksum and the base name, read after the directory [b]. *)
Lemma asset_tail (b ds base : jsstring) :
  ds <> [] -> forallb is_digit ds = true ->
  base <> [] -> forallb Route.any_char base = true ->
  Route.plus_greedy is_digit
    (fun checksum =>
       Route.char "-"%char
         (Route.plus_lazy Route.any_char
            (fun basename => Route.eos (b, checksum, basename))))
    (ds ++ "-"%char :: base)
  = Some (b, ds, base).
Proof.
  intros Hds Hdig Hbase Hany.
  apply plus_greedy_longest; [exact Hds | exact Hdig | |].
  - rewrite char_here.
    exact (plus_lazy_eos _ Route.any_char base (fun basename => (b, ds, basename))
             Hbase Hany).
  - intros m' rest' Hs Hlen Hm'. exfalso.
    destruct (longer_prefix _ _ _ _ Hs Hlen) as (l & Hl & -> & El).
    destruct l as [|x l]; [contradiction|]. injection El as <- _.
    rewrite forallb_app in Hm'. apply andb_true_iff in Hm' as [_ Hm'].
    cbn in Hm'. discriminate.
Qed.

(** The route reads a URL made of a directory, digits, a dash and a base
    name as these three. *)
Lemma asset_route_complete (d ds base : jsstring) :
  (d = [] \/ exists m, d = m ++ [Path.slash] /\ m <> []
                       /\ forallb Route.any_char m = true) ->
  ds <> [] -> forallb is_digit ds = true ->
  base <> [] -> forallb Route.any_char base = true -> no_slash base ->
  Route.asset (lit "/assets/" ++ d ++ ds ++ "-"%char :: base)
  = Some (d, ds, base).
Proof.
  intros Hd Hds Hdig Hbase Hany Hns.
  assert (Hfree : ~ In Path.slash (ds ++ "-"%char :: base)).
  { intros Hin. apply in_app_or in Hin as [Hin|[Hin|Hin]].
    - revert Hin. apply digits_no; [exact Hdig | cbn; lia].
    - discriminate.
    - now apply Hns. }
  unfold Route.asset. rewrite literal_here. unfold Route.alt.
  destruct Hd as [->|(m & -> & Hm & Hmany)].
  - cbn [Datatypes.app]. rewrite plus_greedy_None.
    + now apply asset_tail.
    + intros m rest Hs _ _. apply char_None. intros s' ->.
      apply Hfree. rewrite Hs. apply in_or_app. right. now left.
  - rewrite <- app_assoc. cbn [Datatypes.app].
    rewrite (plus_greedy_longest _ Route.any_char m
               (Path.slash :: ds ++ "-"%char :: base) _
               (m ++ [Path.slash], ds, base)); [reflexivity | exact Hm | exact Hmany | |].
    + rewrite char_here. now apply asset_tail.
    + intros m' rest' Hs Hlen _. apply char_None. intros s' ->.
      destruct (longer_prefix _ _ _ _ Hs Hlen) as (l & Hl & _ & El).
      destruct l as [|x l]; [contradiction|]. injection El as _ El.
      apply Hfree. rewrite El. apply in_or_app. right. now left.
Qed.

(** X1: a path the asset route matches is [/assets/], the directory
    capture, the checksum capture, a dash and the base-name capture, in
    this order and with nothing else; the directory capture is empty or
    ends with a slash, the checksum capture is a non-empty run of digits,
    the base name is not empty; a path that does not start with
    [/assets/] is not matched. *)
Theorem asset_route_captures_spell_the_path :
  forall path : jsstring,
    match Route.asset path with
    | Some (basedir, c, basename) =>
        path = lit "/assets/" ++ basedir ++ c ++ "-"%char :: basename
        /\ (basedir = [] \/ exists m, basedir = m ++ [Path.slash] /\ m <> [])
        /\ c <> [] /\ forallb is_digit c = true
        /\ basename <> []
    | None => True
    end
    /\ (starts_with (lit "/assets/") path = false -> Route.asset path = None).
Proof.
  intros path. split.
  - destruct (Route.asset path) as [[[basedir c] basename]|] eqn:E; [|exact I].
    destruct (asset_route_inv path basedir c basename E)
      as (Hp & Hc & Hd & Hb & _ & Hdir).
    split; [exact Hp|]. split; [|now repeat split].
    destruct Hdir as [->|(m & -> & Hm & _)]; [now left|].
    right. now exists m.
  - intros Hs. destruct (Route.asset path) as [[[basedir c] basename]|] eqn:E;
      [|reflexivity].
    destruct (asset_route_inv path basedir c basename E) as (-> & _).
    cbn in Hs. discriminate.
Qed.

(** ** From a manifest entry to its URL *)

Lemma unsplit_snoc (dirs : list jsstring) (base : jsstring) :
  Path.unsplit (dirs ++ [base]) = url_dir dirs ++ base.
Proof.
  induction dirs as [|d dirs IH]; [reflexivity|].
  cbn [Datatypes.app]. rewrite unsplit_cons by (destruct dirs; discriminate).
  rewrite IH. unfold url_dir. cbn [map concat].
  now rewrite <- !app_assoc.
Qed.

Lemma norm_stack_url_dir (al : bool) (dirs st : list jsstring) :
  Forall good_seg dirs ->
  Path.norm_stack al (url_dir dirs) st = rev dirs ++ st.
Proof.
  intros H. revert st. induction H as [|d dirs Hd _ IH]; intros st.
  - reflexivity.
  - unfold url_dir. cbn [map concat]. rewrite <- app_assoc. cbn [Datatypes.app].
    rewrite norm_stack_app. fold (url_dir dirs). rewrite IH.
    unfold Path.norm_stack at 1.
    rewrite split_no_slash by apply Hd.
    cbn [fold_left rev]. rewrite (norm_step_good al st d Hd).
    now rewrite <- app_assoc.
Qed.

Lemma url_dir_relative (d : jsstring) (dirs : list jsstring) :
  good_seg d -> Path.isAbsolute (url_dir (d :: dirs)) = false.
Proof.
  intros (Hne & _ & _ & Hns). unfold url_dir. cbn [map concat].
  destruct d as [|c d]; [contradiction|]. cbn.
  apply Ascii.eqb_neq. intros ->. apply Hns. now left.
Qed.

(** [path.join(basedir, basename)] gives back the name whose URL was
    taken apart. *)
Lemma join_dir_base (dirs : list jsstring) (base : jsstring) :
  Forall good_seg dirs -> good_seg base ->
  Path.join [url_dir dirs; base] = Path.unsplit (dirs ++ [base]).
Proof.
  intros Hd Hb.
  rewrite <- (unsplit_one base) at 1.
  rewrite join_two; [|discriminate | now constructor].
  destruct dirs as [|d dirs]; [reflexivity|].
  inversion Hd as [|? ? Hd1 _]; subst.
  assert (Hne : url_dir (d :: dirs) <> []).
  { unfold url_dir. cbn [map concat]. destruct d; [now destruct Hd1|discriminate]. }
  destruct (url_dir (d :: dirs)) as [|c0 r0] eqn:E; [contradiction|].
  rewrite <- E, (url_dir_relative d dirs Hd1).
  cbn [negb Datatypes.app].
  now rewrite (norm_stack_url_dir true (d :: dirs) [] Hd), app_nil_r, rev_involutive.
Qed.

Lemma is_pchar_printable (c : ascii) :
  is_pchar c = true -> (33 <= N_of_ascii c <= 126)%N.
Proof.
  unfold is_pchar. cbn [existsb].
  rewrite ?orb_true_iff, ?andb_true_iff, ?N.leb_le, ?N.eqb_eq. lia.
Qed.

Lemma plain_char (s : jsstring) (c : ascii) :
  plain s = true -> In c s -> (33 <= N_of_ascii c <= 126)%N.
Proof.
  unfold plain. rewrite forallb_forall. intros H Hc.
  apply H, orb_true_iff in Hc as [Hc|Hc].
  - now apply is_pchar_printable.
  - apply Ascii.eqb_eq in Hc. subst c. cbn. lia.
Qed.

Lemma plain_any (s : jsstring) : plain s = true -> forallb Route.any_char s = true.
Proof.
  intros H. apply forallb_forall. intros c Hc.
  pose proof (plain_char s c H Hc) as Hn. unfold Route.any_char.
  apply negb_true_iff, orb_false_iff. split; apply N.eqb_neq; lia.
Qed.

Lemma plain_decode (s : jsstring) :
  plain s = true -> Route.decode_param s = Some (widen s).
Proof.
  intros H. apply decode_param_verbatim. intros Hin.
  unfold plain in H. rewrite forallb_forall in H.
  apply H in Hin. cbn in Hin. discriminate.
Qed.

Lemma plain_app (a b : jsstring) :
  plain (a ++ b) = true -> plain a = true /\ plain b = true.
Proof. unfold plain. rewrite forallb_app. apply andb_true_iff. Qed.

Lemma url_dir_shape (dirs : list jsstring) :
  Forall good_seg dirs -> plain (url_dir dirs) = true ->
  url_dir dirs = []
  \/ exists m, url_dir dirs = m ++ [Path.slash] /\ m <> []
               /\ forallb Route.any_char m = true.
Proof.
  intros Hg Hp.
  destruct (list_eq_dec jsstring_dec dirs []) as [->|Hne]; [now left|].
  destruct (exists_last Hne) as (dirs' & d & E).
  right. subst dirs. apply Forall_app in Hg as [_ Hd].
  inversion Hd as [|? ? Hd1 _]; subst.
  unfold url_dir in *. rewrite map_app, concat_app in *. cbn [map concat] in *.
  rewrite app_nil_r in *. rewrite app_assoc in *.
  exists (concat (map (fun s => s ++ [Path.slash]) dirs') ++ d).
  split; [reflexivity|]. split.
  - destruct Hd1 as [Hd1 _]. destruct d; [contradiction|].
    intros H. apply app_eq_nil in H as [_ H]. discriminate.
  - apply plain_app in Hp as [Hp _]. now apply plain_any.
Qed.

(** ** What a published manifest holds *)

(** Every entry of the published manifest is the entry of one asset. *)
Lemma published_entry_at (G : Gzip) (cwd : jsstring) (config : Config) (now : Z)
      (entries : list (jsstring * dirent)) (schedule : list (Z * event))
      (s : Server G) (m : list ManifestEntry) (e : ManifestEntry) :
  run (main G cwd config now entries) schedule = Some s ->
  currentManifest s = Some m ->
  In e m ->
  exists i file,
    nth_error (getAssets cwd config entries) i = Some file
    /\ e = entry_for G cwd config schedule i file.
Proof.
  intros Hr Hm He.
  destruct (published_entries G cwd config now entries schedule s m Hr Hm)
    as [Hnames Hnth].
  apply In_nth_error in He as [i Hi].
  assert (Hlen : length m = length (getAssets cwd config entries)).
  { apply (f_equal (@Datatypes.length jsstring)) in Hnames.
    now rewrite !length_map in Hnames. }
  destruct (nth_error (getAssets cwd config entries) i) as [file|] eqn:F.
  - exists i, file. split; [exact F|].
    specialize (Hnth i file F). congruence.
  - apply nth_error_None in F. rewrite <- Hlen in F.
    apply nth_error_None in F. congruence.
Qed.

(** A server with a manifest listens, is alive and has a timestamp. *)
Lemma published_serving (G : Gzip) (cwd : jsstring) (config : Config) (now : Z)
      (entries : list (jsstring * dirent)) (schedule : list (Z * event))
      (s : Server G) (m : list ManifestEntry) :
  run (main G cwd config now entries) schedule = Some s ->
  currentManifest s = Some m ->
  serving s = true /\ exists ts, currentManifestTimestamp s = Some ts.
Proof.
  intros Hr Hm.
  pose proof (consistent_run G _ _ _ (consistent_main G cwd config now entries) Hr)
    as [_ [Hu|(U & _ & ts & m' & (_ & Hts & Hl) & _)]].
  - exfalso. exact (unpublished_not_published G s m Hu Hm).
  - split; [|now exists ts]. unfold serving. now rewrite Hl, U.
Qed.

Lemma entry_for_checksum_range (G : Gzip) (cwd : jsstring) (config : Config)
      (schedule : list (Z * event)) (i : nat) (file : jsstring) :
  0 <= checksum (entry_for G cwd config schedule i file) < 2 ^ 32
  /\ 0 <= compressed (entry_for G cwd config schedule i file).
Proof.
  unfold entry_for. cbn [checksum compressed].
  split; [apply crc32_unsigned_range | lia].
Qed.

(** X2: every entry of the manifest a server has published can be
    fetched: the URL made of [/assets/], the directory of the entry's
    name, its checksum in decimal, a dash and the base name is answered
    with [res.sendFile] of the file the entry names, below the content
    root.  (The name must be its own spelling in a URL: made, between its
    slashes, of the characters a URL path carries literally.) *)
Theorem listed_asset_is_served_at_its_url :
  forall (G : Gzip) (cwd : jsstring) (config : Config) (now : Z)
         (entries : list (jsstring * dirent)) (schedule : list (Z * event))
         (s : Server G) (m : list ManifestEntry) (e : ManifestEntry),
    Path.isAbsolute cwd = true ->
    wf_entries entries = true ->
    run (main G cwd config now entries) schedule = Some s ->
    currentManifest s = Some m ->
    In e m ->
    plain (name e) = true ->
    exists r,
      request cwd config s (asset_url e) = Some r
      /\ act r = SendFile (Path.resolve cwd [root config; name e]) Infinity.
Proof.
  intros G cwd config now entries schedule s m e Hcwd Hwf Hr Hm He Hplain.
  destruct (published_serving G cwd config now entries schedule s m Hr Hm)
    as [Hserving [ts Hts]].
  destruct (published_entry_at G cwd config now entries schedule s m e Hr Hm He)
    as (i & file & _ & Ee).
  destruct (entry_for_checksum_range G cwd config schedule i file) as [Hrange _].
  rewrite <- Ee in Hrange.
  destruct (manifest_entry_file G cwd config now entries schedule s m e
              Hcwd Hwf Hr Hm He) as (segs & Hfile & Hname & _).
  apply file_at_iff in Hfile.
  pose proof (files_under_nonempty entries segs Hfile) as Hne.
  pose proof (files_under_good (Directory entries) Hwf segs Hfile) as Hgood.
  destruct (exists_last Hne) as (dirs & base & ->).
  apply Forall_app in Hgood as [Hdirs Hbase].
  pose proof (Forall_inv Hbase) as Hb.
  assert (Hsplit : Path.split (name e) = dirs ++ [base]).
  { rewrite Hname. apply split_unsplit; [now destruct dirs|].
    apply good_seg_no_slash. apply Forall_app. split; [exact Hdirs|].
    now constructor. }
  assert (Hurl : asset_url e
                 = lit "/assets/" ++ url_dir dirs ++ decimal (checksum e)
                     ++ "-"%char :: base).
  { unfold asset_url. now rewrite Hsplit, removelast_last, last_last. }
  rewrite unsplit_snoc in Hname.
  rewrite Hname in Hplain. apply plain_app in Hplain as [Hpd Hpb].
  destruct (decimal_spec (checksum e)) as (Hdne & Hddig & Hdval); [lia|].
  assert (Hroute : Route.asset (asset_url e)
                   = Some (url_dir dirs, decimal (checksum e), base)).
  { rewrite Hurl. apply asset_route_complete.
    - now apply url_dir_shape.
    - exact Hdne.
    - exact Hddig.
    - apply Hb.
    - now apply plain_any.
    - apply Hb. }
  assert (Hparse : parseInt10 (decimal (checksum e)) = Num (checksum e)).
  { rewrite (parseInt10_digits _ Hdne Hddig), Hdval.
    apply round_to_double_small. lia. }
  assert (Hjoin : Path.join [url_dir dirs; base] = name e).
  { rewrite Hname, <- unsplit_snoc. now apply join_dir_base. }
  eexists. split.
  - unfold request. rewrite Hserving, Hts, Hm. reflexivity.
  - rewrite (app_get_asset cwd config ts m _ _ _ _ _ _ Hroute
               (plain_decode _ Hpd) (plain_decode _ Hpb)).
    cbn [with_header act]. unfold handleAsset.
    rewrite Hparse, Hjoin.
    destruct (find_asset m (name e) (Num (checksum e))) as [e'|] eqn:F;
      [reflexivity|].
    exfalso. exact (find_asset_None _ _ _ F e He (conj eq_refl eq_refl)).
Qed.

Lemma listed_asset_is_served_at_its_url_witness :
  exists s r,
    run (main StoredGzip.encoder Scenario.cwd Scenario.config 0 Scenario.entries)
        Scenario.good = Some s
    /\ request Scenario.cwd Scenario.config s
               (lit "/assets/weapons/3421780262-gun.pk3") = Some r
    /\ act r = SendFile (lit "/srv/content/pk3_assets/weapons/gun.pk3") Infinity.
Proof.
  destruct scenario_good_run as (s & Hr & Hm & _).
  destruct (listed_asset_is_served_at_its_url StoredGzip.encoder Scenario.cwd
              Scenario.config 0 Scenario.entries Scenario.good s _
              {| name := lit "weapons/gun.pk3"; compressed := 32;
                 checksum := 3421780262 |}
              eq_refl eq_refl Hr Hm (or_introl eq_refl) eq_refl)
    as (r & Hreq & Hact).
  exists s, r. split; [exact Hr|]. split; [exact Hreq | exact Hact].
Defined.



(** ** The manifest does not depend on the order of the events *)

(** X4: the names and the checksums of the published manifest depend
    on the content root and on the bytes of the files only: two builds of
    the same root, under any two schedules (any interleaving of the files'
    events, any cut of the files into buffers) and any two gzip encoders,
    publish the same names and the same checksums, entry by entry, as soon
    as each file delivers the same bytes in both. *)
Theorem manifest_is_independent_of_the_schedule :
  forall (G G' : Gzip) (cwd : jsstring) (config : Config) (now now' : Z)
         (entries : list (jsstring * dirent))
         (schedule schedule' : list (Z * event))
         (s : Server G) (s' : Server G') (m m' : list ManifestEntry),
    run (main G cwd config now entries) schedule = Some s ->
    run (main G' cwd config now' entries) schedule' = Some s' ->
    currentManifest s = Some m ->
    currentManifest s' = Some m' ->
    (forall i, concat (chunks_of i schedule) = concat (chunks_of i schedule')) ->
    map name m = map name m' /\ map checksum m = map checksum m'.
Proof.
  intros G G' cwd config now now' entries schedule schedule' s s' m m'
         Hr Hr' Hm Hm' Hsame.
  destruct (published_entries G cwd config now entries schedule s m Hr Hm)
    as [Hnames Hnth].
  destruct (published_entries G' cwd config now' entries schedule' s' m' Hr' Hm')
    as [Hnames' Hnth'].
  split; [congruence|].
  assert (Hlen : length m = length (getAssets cwd config entries)).
  { apply (f_equal (@Datatypes.length jsstring)) in Hnames.
    now rewrite !length_map in Hnames. }
  assert (Hlen' : length m' = length (getAssets cwd config entries)).
  { apply (f_equal (@Datatypes.length jsstring)) in Hnames'.
    now rewrite !length_map in Hnames'. }
  apply nth_error_ext. intros i. rewrite !nth_error_map.
  destruct (nth_error (getAssets cwd config entries) i) as [file|] eqn:F.
  - rewrite (Hnth i file F), (Hnth' i file F).
    unfold entry_for. cbn [option_map checksum]. now rewrite Hsame.
  - apply nth_error_None in F.
    assert (E : nth_error m i = None) by (apply nth_error_None; lia).
    assert (E' : nth_error m' i = None) by (apply nth_error_None; lia).
    now rewrite E, E'.
Qed.

Lemma manifest_is_independent_of_the_schedule_witness :
  exists s s' m m',
    run (main StoredGzip.encoder Scenario.cwd Scenario.config 0 Scenario.entries)
        Scenario.good = Some s
    /\ run (main StoredGzip.encoder Scenario.cwd Scenario.config 7 Scenario.entries)
           (reading StoredGzip.encoder
                    (Scenario.bytes [49; 50; 51; 52; 53; 54; 55; 56; 57]))
       = Some s'
    /\ currentManifest s = Some m
    /\ currentManifest s' = Some m'
    /\ map name m = map name m' /\ map checksum m = map checksum m'.
Proof.
  destruct scenario_good_run as (s & Hr & Hm & _).
  destruct (reading_publishes StoredGzip.encoder Scenario.cwd Scenario.config 7
              Scenario.entries _
              (Scenario.bytes [49; 50; 51; 52; 53; 54; 55; 56; 57])
              scenario_assets) as (s' & m' & Hr' & Hm').
  exists s, s'. eexists. eexists.
  split; [exact Hr|]. split; [exact Hr'|]. split; [exact Hm|].
  split; [exact Hm'|].
  apply (manifest_is_independent_of_the_schedule StoredGzip.encoder
           StoredGzip.encoder Scenario.cwd Scenario.config 0 7 Scenario.entries
           Scenario.good
           (reading StoredGzip.encoder
                    (Scenario.bytes [49; 50; 51; 52; 53; 54; 55; 56; 57]))
           s s' _ _ Hr Hr' Hm Hm').
  intros i. destruct i as [|i].
  - now rewrite chunks_of_reading.
  - unfold reading. now rewrite !chunks_of_app, chunks_of_gzip_data.
Defined.

(** ** A content root without assets *)

Lemma filter_none {A : Type} (f : A -> bool) (l : list A) :
  (forall x, In x l -> f x = false) -> filter f l = [].
Proof.
  induction l as [|x l IH]; intros H; cbn [filter]; [reflexivity|].
  rewrite (H x (or_introl eq_refl)). apply IH. intros y Hy. apply H. now right.
Qed.

Lemma no_allowed_file_no_asset (cwd : jsstring) (config : Config)
      (entries : list (jsstring * dirent)) :
  Path.isAbsolute cwd = true ->
  wf_entries entries = true ->
  (forall segs, file_at entries segs ->
                ~ In (Path.extname (Path.unsplit segs)) (validAssets config)) ->
  getAssets cwd config entries = [].
Proof.
  intros Hcwd Hwf Hnone.
  pose proof (asset_names cwd config Hcwd entries Hwf) as H.
  rewrite filter_none in H.
  - now apply map_eq_nil in H.
  - intros x Hx. apply in_map_iff in Hx as (segs & <- & Hsegs).
    apply file_at_iff in Hsegs. unfold allowed.
    destruct (indexOf_found (validAssets config) (Path.extname (Path.unsplit segs)))
      eqn:E; [|reflexivity].
    apply indexOf_found_In in E. exfalso. now apply (Hnone segs).
Qed.

(** X5: when no regular file below the content root has an allowed
    extension (an empty root, or an empty [validAssets]), [main] publishes
    the empty manifest and listens before it returns, at the time of the
    call; no stream event can follow; the manifest is served as the empty
    array and no request is answered with a file. *)
Theorem root_without_assets_serves_empty_manifest :
  forall (G : Gzip) (cwd : jsstring) (config : Config) (now : Z)
         (entries : list (jsstring * dirent)),
    Path.isAbsolute cwd = true ->
    wf_entries entries = true ->
    (forall segs, file_at entries segs ->
                  ~ In (Path.extname (Path.unsplit segs)) (validAssets config)) ->
    published (main G cwd config now entries) now []
    /\ (forall tev, deliver (main G cwd config now entries) tev = None)
    /\ (exists r,
           request cwd config (main G cwd config now entries)
                   (lit "/assets/manifest.json") = Some r
           /\ act r = Json (JArray [])
           /\ json_body (JArray []) = lit "[]")
    /\ (forall path, exists r,
           request cwd config (main G cwd config now entries) path = Some r
           /\ forall p maxAge, act r <> SendFile p maxAge).
Proof.
  intros G cwd config now entries Hcwd Hwf Hnone.
  pose proof (no_allowed_file_no_asset cwd config entries Hcwd Hwf Hnone) as Ha.
  pose proof (main_no_assets G cwd config now entries Ha) as Hp.
  pose proof (main_alive G cwd config now entries) as U.
  pose proof (consistent_main G cwd config now entries) as Hc.
  destruct Hp as (Hm & Hts & Hl).
  assert (Hreq : forall path,
             request cwd config (main G cwd config now entries) path
             = Some (app_get cwd config now [] path)).
  { intros path. unfold request, serving. now rewrite Hl, U, Hts, Hm. }
  split; [now repeat split|]. split; [|split].
  - intros tev. exact (published_quiet G _ tev [] Hc U Hm).
  - eexists. split; [apply Hreq|]. split; reflexivity.
  - intros path. eexists. split; [apply Hreq|].
    intros p maxAge. unfold app_get. cbn [with_header act].
    destruct (manifest_route path); [discriminate|].
    destruct (Route.asset path) as [[[c0 c1] c2]|]; [|discriminate].
    destruct (Route.decode_param c0) as [w0|]; [|discriminate].
    destruct (Route.decode_param c1) as [w1|]; [|discriminate].
    destruct (Route.decode_param c2) as [w2|]; [|discriminate].
    destruct (narrow w0); [destruct (narrow w1); [destruct (narrow w2)|]|];
      try discriminate;
      unfold handleAsset_units; destruct (narrow _); discriminate.
Qed.

Lemma root_without_assets_serves_empty_manifest_witness :
  published (main StoredGzip.encoder Scenario.cwd Scenario.config 0
                  [(lit "readme.txt", File); (lit "docs", Directory [])]) 0 []
  /\ (forall tev,
         deliver (main StoredGzip.encoder Scenario.cwd Scenario.config 0
                       [(lit "readme.txt", File); (lit "docs", Directory [])]) tev
         = None)
  /\ (exists r,
         request Scenario.cwd Scenario.config
                 (main StoredGzip.encoder Scenario.cwd Scenario.config 0
                       [(lit "readme.txt", File); (lit "docs", Directory [])])
                 (lit "/assets/manifest.json") = Some r
         /\ act r = Json (JArray [])
         /\ json_body (JArray []) = lit "[]")
  /\ (forall path, exists r,
         request Scenario.cwd Scenario.config
                 (main StoredGzip.encoder Scenario.cwd Scenario.config 0
                       [(lit "readme.txt", File); (lit "docs", Directory [])])
                 path = Some r
         /\ forall p maxAge, act r <> SendFile p maxAge).
Proof.
  apply (root_without_assets_serves_empty_manifest StoredGzip.encoder
           Scenario.cwd Scenario.config 0
           [(lit "readme.txt", File); (lit "docs", Directory [])]
           eq_refl eq_refl).
  intros segs Hfile Hin.
  apply file_at_iff in Hfile. cbn in Hfile.
  destruct Hfile as [<-|[]].
  cbn in Hin. repeat (destruct Hin as [Hin|Hin]; [discriminate|]). exact Hin.
Defined.

(** ** What the application routes *)

Lemma starts_with_app (p s : jsstring) : starts_with p (p ++ s) = true.
Proof.
  induction p as [|c p IH]; [reflexivity|].
  cbn [Datatypes.app starts_with]. now rewrite Ascii.eqb_refl.
Qed.

(** X6: every answer of the application carries the header
    [Access-Control-Allow-Origin: *], and nothing is routed outside
    [/assets/]: a path that does not start with [/assets/] (letter case
    aside) reaches neither handler and is left to Express (404), whatever
    the manifest holds. *)
Theorem nothing_is_routed_outside_assets :
  forall (cwd : jsstring) (config : Config) (ts : Z) (m : list ManifestEntry)
         (path : jsstring),
    In (lit "Access-Control-Allow-Origin", lit "*")
       (headers (app_get cwd config ts m path))
    /\ (starts_with (lit "/assets/") (map to_lower path) = false ->
        app_get cwd config ts m path
        = {| headers := [(lit "Access-Control-Allow-Origin", lit "*")];
             act := ByExpress 404 |}).
Proof.
  intros cwd config ts m path. split.
  - unfold app_get, with_header. cbn [headers]. now left.
  - intros Hs. unfold app_get.
    assert (Hm : manifest_route path = false).
    { unfold manifest_route. apply orb_false_iff.
      split; apply str_eqb_neq; intros E; rewrite E in Hs; discriminate. }
    assert (Ha : Route.asset path = None).
    { destruct (Route.asset path) as [[[b c] n]|] eqn:E; [|reflexivity].
      destruct (asset_route_inv path b c n E) as (-> & _).
      rewrite map_app in Hs.
      change (map to_lower (lit "/assets/")) with (lit "/assets/") in Hs.
      rewrite starts_with_app in Hs. discriminate. }
    rewrite Hm, Ha. reflexivity.
Qed.

Lemma nothing_is_routed_outside_assets_witness :
  In (lit "Access-Control-Allow-Origin", lit "*")
     (headers (app_get Scenario.cwd Scenario.config 0 Scenario.listed
                       (lit "/pk3_assets/weapons/gun.pk3")))
  /\ app_get Scenario.cwd Scenario.config 0 Scenario.listed
             (lit "/pk3_assets/weapons/gun.pk3")
     = {| headers := [(lit "Access-Control-Allow-Origin", lit "*")];
          act := ByExpress 404 |}.
Proof.
  destruct (nothing_is_routed_outside_assets Scenario.cwd Scenario.config 0
              Scenario.listed (lit "/pk3_assets/weapons/gun.pk3")) as [H1 H2].
  split; [exact H1 | exact (H2 eq_refl)].
Defined.

(** ** The order of the manifest *)

(** X7: the published manifest lists the assets in the order of the
    walk of [readDirRecursive] (depth first, each directory in the order
    [readdirSync] returns its entries), whatever the order in which the
    pipelines finish; entries that are neither files nor directories are
    skipped; and no name occurs twice. *)
Theorem manifest_is_in_discovery_order :
  forall (G : Gzip) (cwd : jsstring) (config : Config) (now : Z)
         (entries : list (jsstring * dirent)) (schedule : list (Z * event))
         (s : Server G) (m : list ManifestEntry),
    Path.isAbsolute cwd = true ->
    wf_entries entries = true ->
    run (main G cwd config now entries) schedule = Some s ->
    currentManifest s = Some m ->
    map name m
    = filter (allowed config)
             (map Path.unsplit (files_under (Directory entries)))
    /\ NoDup (map name m).
Proof.
  intros G cwd config now entries schedule s m Hcwd Hwf Hr Hm.
  pose proof (manifest_names G cwd config now entries schedule s m Hcwd Hwf Hr Hm)
    as Hn.
  split; [exact Hn|]. rewrite Hn.
  apply NoDup_filter. now apply relative_paths_NoDup.
Qed.

Lemma manifest_is_in_discovery_order_witness :
  exists s m,
    run (main StoredGzip.encoder Scenario.cwd Scenario.config 0 Scenario.entries)
        Scenario.good = Some s
    /\ currentManifest s = Some m
    /\ map name m
       = filter (allowed Scenario.config)
                (map Path.unsplit (files_under (Directory Scenario.entries)))
    /\ NoDup (map name m).
Proof.
  destruct scenario_good_run as (s & Hr & Hm & _).
  exists s. eexists. split; [exact Hr|]. split; [exact Hm|].
  exact (manifest_is_in_discovery_order StoredGzip.encoder Scenario.cwd
           Scenario.config 0 Scenario.entries Scenario.good s _
           eq_refl eq_refl Hr Hm).
Defined.

(** ** The extension the filter looks at *)

Lemma take_until_slash_app (a rest : jsstring) :
  no_slash a -> (rest = [] \/ exists r, rest = Path.slash :: r) ->
  Path.take_until_slash (a ++ rest) = a.
Proof.
  unfold no_slash. induction a as [|c a IH]; intros Ha Hrest.
  - destruct Hrest as [->|[r ->]]; [reflexivity|].
    cbn [Datatypes.app Path.take_until_slash]. now rewrite Ascii.eqb_refl.
  - cbn [Datatypes.app Path.take_until_slash].
    destruct (Ascii.eqb_spec c Path.slash) as [->|_].
    + exfalso. apply Ha. now left.
    + rewrite IH; [reflexivity | | exact Hrest].
      intros Hin. apply Ha. now right.
Qed.

Lemma rev_basename_below (base rest : jsstring) :
  good_seg base -> (rest = [] \/ exists r, rest = Path.slash :: r) ->
  Path.take_until_slash (Path.drop_slashes (rev base ++ rest)) = rev base.
Proof.
  intros (Hne & _ & _ & Hns) Hrest.
  assert (Hns' : no_slash (rev base)).
  { intros Hin. apply Hns. now apply in_rev. }
  destruct (rev base) as [|c r] eqn:E.
  { apply (f_equal (@rev ascii)) in E. rewrite rev_involutive in E.
    contradiction. }
  cbn [Datatypes.app Path.drop_slashes].
  destruct (Ascii.eqb_spec c Path.slash) as [->|_].
  { exfalso. apply Hns'. now left. }
  change (c :: r ++ rest) with ((c :: r) ++ rest).
  now apply take_until_slash_app.
Qed.

Lemma rev_url_dir (dirs : list jsstring) :
  rev (url_dir dirs) = [] \/ exists r, rev (url_dir dirs) = Path.slash :: r.
Proof.
  destruct (list_eq_dec jsstring_dec dirs []) as [->|Hne]; [now left|].
  destruct (exists_last Hne) as (dirs' & d & ->). right.
  unfold url_dir. rewrite map_app, concat_app. cbn [map concat].
  rewrite app_nil_r, app_assoc, rev_app_distr. cbn [rev Datatypes.app].
  eexists. reflexivity.
Qed.

(** The last component of a relative path of the walk is its last name. *)
Lemma rev_basename_unsplit (dirs : list jsstring) (base : jsstring) :
  good_seg base ->
  Path.rev_basename (Path.unsplit (dirs ++ [base])) = rev base.
Proof.
  intros Hb. unfold Path.rev_basename.
  rewrite unsplit_snoc, rev_app_distr.
  apply rev_basename_below; [exact Hb | apply rev_url_dir].
Qed.

Lemma rev_basename_name (base : jsstring) :
  good_seg base -> Path.rev_basename base = rev base.
Proof.
  intros Hb. unfold Path.rev_basename.
  rewrite <- (app_nil_r (rev base)) at 1.
  apply rev_basename_below; [exact Hb | now left].
Qed.

Lemma cut_at_dot_none (l : jsstring) :
  ~ In Path.dot l -> Path.cut_at_dot l = None.
Proof.
  induction l as [|c l IH]; intros H; cbn [Path.cut_at_dot]; [reflexivity|].
  destruct (Ascii.eqb_spec c Path.dot) as [->|_].
  - exfalso. apply H. now left.
  - rewrite IH; [reflexivity|]. intros Hin. apply H. now right.
Qed.

Lemma cut_at_dot_first (a b : jsstring) :
  ~ In Path.dot a -> Path.cut_at_dot (a ++ Path.dot :: b) = Some (a, b).
Proof.
  induction a as [|c a IH]; intros H; cbn [Datatypes.app Path.cut_at_dot].
  - now rewrite Ascii.eqb_refl.
  - destruct (Ascii.eqb_spec c Path.dot) as [->|_].
    + exfalso. apply H. now left.
    + rewrite IH; [reflexivity|]. intros Hin. apply H. now right.
Qed.

(** X9: whether [getAssets] keeps a file depends on the name of the
    file alone, not on the directories above it: [path.extname] of a
    relative path of the walk is that of its last name.  For a name
    [stem.ext] (a stem that is not empty, no dot in [ext]) it is [.ext];
    for a name without a dot after its first character, such as [README]
    or [.pk3], it is empty, so such a file is kept only if the allow-list
    holds the empty string. *)
Theorem listing_depends_on_the_file_name_only :
  forall (config : Config) (segs : list jsstring),
    segs <> [] -> Forall good_seg segs ->
    Path.extname (Path.unsplit segs) = Path.extname (last segs [])
    /\ allowed config (Path.unsplit segs) = allowed config (last segs [])
    /\ (forall stem ext,
           last segs [] = stem ++ Path.dot :: ext ->
           stem <> [] -> ~ In Path.dot ext ->
           Path.extname (Path.unsplit segs) = Path.dot :: ext)
    /\ (~ In Path.dot (tl (last segs [])) ->
        Path.extname (Path.unsplit segs) = []
        /\ (allowed config (Path.unsplit segs) = true ->
            In [] (validAssets config))).
Proof.
  intros config segs Hne Hgood.
  destruct (exists_last Hne) as (dirs & base & ->).
  apply Forall_app in Hgood as [_ Hbase].
  pose proof (Forall_inv Hbase) as Hb.
  rewrite last_last.
  assert (Hext : Path.extname (Path.unsplit (dirs ++ [base])) = Path.extname base).
  { unfold Path.extname.
    now rewrite (rev_basename_unsplit dirs base Hb), (rev_basename_name base Hb). }
  split; [exact Hext|]. split; [unfold allowed; now rewrite Hext|].
  rewrite Hext. unfold Path.extname. rewrite (rev_basename_name base Hb).
  assert (Hdd : str_eqb (rev base) Path.dotdot = false).
  { apply str_eqb_neq. intros E.
    apply (f_equal (@rev ascii)) in E. rewrite rev_involutive in E.
    destruct Hb as (_ & _ & Hb & _). now apply Hb. }
  rewrite Hdd. split.
  - intros stem ext -> Hstem Hdot.
    rewrite rev_app_distr. cbn [rev]. rewrite <- app_assoc. cbn [Datatypes.app].
    rewrite cut_at_dot_first by (intros Hin; apply Hdot; now apply in_rev).
    destruct (rev stem) as [|c r] eqn:E.
    + apply (f_equal (@rev ascii)) in E. rewrite rev_involutive in E.
      contradiction.
    + now rewrite rev_involutive.
  - intros Hdot.
    assert (E : match Path.cut_at_dot (rev base) with
                | Some (rext, _ :: _) => Path.dot :: rev rext
                | _ => []
                end = []).
    { destruct base as [|c t]; [reflexivity|]. cbn [tl] in Hdot. cbn [rev].
      assert (Ht : ~ In Path.dot (rev t)).
      { intros Hin. apply Hdot. now apply in_rev. }
      destruct (Ascii.eqb_spec c Path.dot) as [->|Hc].
      - now rewrite cut_at_dot_first.
      - rewrite cut_at_dot_none; [reflexivity|].
        intros Hin. apply in_app_or in Hin as [Hin|[Hin|[]]]; [now apply Ht|].
        now apply Hc. }
    split.
    + destruct (Path.cut_at_dot (rev base)) as [[rext [|c r]]|]; auto.
    + unfold allowed. rewrite Hext. unfold Path.extname.
      rewrite (rev_basename_name base Hb), Hdd.
      intros Ha. apply indexOf_found_In in Ha.
      destruct (Path.cut_at_dot (rev base)) as [[rext [|c r]]|]; auto.
      discriminate.
Qed.

Lemma listing_depends_on_the_file_name_only_witness :
  Path.extname (lit "mods.d/weapons/gun.pk3") = Path.extname (lit "gun.pk3")
  /\ allowed Scenario.config (lit "mods.d/weapons/gun.pk3")
     = allowed Scenario.config (lit "gun.pk3")
  /\ (forall stem ext,
         lit "gun.pk3" = stem ++ Path.dot :: ext ->
         stem <> [] -> ~ In Path.dot ext ->
         Path.extname (lit "mods.d/weapons/gun.pk3") = Path.dot :: ext)
  /\ (~ In Path.dot (tl (lit "gun.pk3")) ->
      Path.extname (lit "mods.d/weapons/gun.pk3") = []
      /\ (allowed Scenario.config (lit "mods.d/weapons/gun.pk3") = true ->
          In [] (validAssets Scenario.config))).
Proof.
  apply (listing_depends_on_the_file_name_only Scenario.config
           [lit "mods.d"; lit "weapons"; lit "gun.pk3"]).
  - discriminate.
  - repeat constructor; try discriminate;
      intros Hin; cbn in Hin;
      repeat (destruct Hin as [Hin|Hin]; [discriminate|]); exact Hin.
Defined.

Example extname_examples :
  Path.extname (lit "weapons/gun.pk3") = lit ".pk3"
  /\ Path.extname (lit "mods.pk3/README") = []
  /\ Path.extname (lit "weapons/.pk3") = []
  /\ Path.extname (lit "weapons/gun.PK3") = lit ".PK3"
  /\ Path.extname (lit "weapons/gun.pk3.bak") = lit ".bak"
  /\ Path.extname (lit "weapons/gun.") = lit ".".
Proof. vm_compute. repeat split. Qed.

(** ** When a build ends *)

Section Completion.

Variable G : Gzip.
Variable cwd : jsstring.
Variable config : Config.

Local Abbreviation Pipeline := (Pipeline G).
Local Abbreviation Server := (Server G).

Lemma collect_ext (ps ps' : list Pipeline) :
  map (@v_result G) ps = map (@v_result G) ps' -> collect ps = collect ps'.
Proof.
  revert ps'. induction ps as [|p ps IH]; intros [|p' ps'] H;
    try discriminate; [reflexivity|].
  cbn [map] in H. injection H as H1 H2.
  cbn [collect]. now rewrite H1, (IH ps' H2).
Qed.

Lemma collect_all (ps : list Pipeline) :
  (forall i p, nth_error ps i = Some p -> v_result p <> None) ->
  exists m, collect ps = Some m.
Proof.
  induction ps as [|p ps IH]; intros H; cbn [collect]; [now exists []|].
  destruct (v_result p) as [e|] eqn:R.
  - destruct IH as [m Hm].
    + intros i q Hq. exact (H (S i) q Hq).
    + rewrite Hm. now exists (e :: m).
  - exfalso. exact (H O p eq_refl R).
Qed.

Lemma ended_in_snoc (i : nat) (history : list (Z * event)) (t : Z) (ev : event) :
  ended_in i (history ++ [(t, ev)]) <-> ended_in i history \/ ev = GzipEnd i.
Proof.
  unfold ended_in. split.
  - intros [t' H]. apply in_app_or in H as [H|[H|[]]].
    + left. now exists t'.
    + right. now injection H.
  - intros [[t' H]| ->].
    + exists t'. apply in_or_app. now left.
    + exists t. apply in_or_app. right. now left.
Qed.

(** One handler run: a result appears exactly with the ['end'] of the
    gzip stream, and the callback is made as soon as none is missing. *)
Lemma completion_deliver (s s' : Server) (history : list (Z * event))
      (t : Z) (ev : event) :
  uncaught s = None -> uncaught s' = None ->
  answered s history -> waits s ->
  deliver s (t, ev) = Some s' ->
  answered s' (history ++ [(t, ev)]) /\ waits s'.
Proof.
  intros U U' Ha Hw Hd.
  unfold deliver in Hd. rewrite U in Hd. cbn [snd fst] in Hd.
  destruct (handle_event (pipelines s) ev) as [[ps call]|] eqn:He;
    [|discriminate].
  injection Hd as <-.
  assert (Hps : pipelines (after_callback t (with_pipelines s ps) call) = ps).
  { destruct call as [[err|m]|]; reflexivity. }
  (* an event that leaves the results as they are *)
  assert (Hquiet : forall i p p',
             nth_error (pipelines s) i = Some p ->
             v_result p' = v_result p ->
             (forall j, ev <> GzipEnd j) ->
             ps = set_nth i p' (pipelines s) -> call = None ->
             answered (after_callback t (with_pipelines s ps) call)
                      (history ++ [(t, ev)])
             /\ waits (after_callback t (with_pipelines s ps) call)).
  { intros i p p' Hp Hres Hev -> ->. cbn [after_callback]. split.
    - intros j q. cbn [with_pipelines pipelines]. intros Hq.
      rewrite ended_in_snoc.
      destruct (Nat.eq_dec i j) as [<-|Hij].
      + rewrite (nth_error_set_nth_eq i p' _ p Hp) in Hq. injection Hq as <-.
        rewrite Hres, (Ha i p Hp). split; [now left|].
        intros [H|H]; [exact H | now apply Hev in H].
      + rewrite (nth_error_set_nth_neq i j p' _ Hij) in Hq.
        rewrite (Ha j q Hq). split; [now left|].
        intros [H|H]; [exact H | now apply Hev in H].
    - intros Hu. cbn [with_pipelines pipelines].
      rewrite (collect_ext (set_nth i p' (pipelines s)) (pipelines s)).
      + apply Hw. exact Hu.
      + now apply (map_set_nth_same (@v_result G) i p' p). }
  destruct ev as [i data|i|i err|i|i]; cbn [handle_event] in He;
    destruct (nth_error (pipelines s) i) as [p|] eqn:Hp; try discriminate.
  - destruct (v_stream p); try discriminate. injection He as <- <-.
    now apply (Hquiet i p (on_stream_data p data)).
  - destruct (v_stream p); try discriminate. injection He as <- <-.
    now apply (Hquiet i p (on_stream_end p)).
  - destruct (v_stream p); try discriminate. injection He as <- <-.
    cbn in U'. discriminate.
  - destruct (v_gzip_out p) as [|d pending]; try discriminate.
    injection He as <- <-.
    now apply (Hquiet i p (on_gzip_data p d pending)).
  - destruct (v_gzip_ending p); try discriminate.
    destruct (v_gzip_out p); try discriminate.
    destruct (v_result p) eqn:R; try discriminate.
    injection He as <- <-. split.
    + intros j q. rewrite Hps. intros Hq. rewrite ended_in_snoc.
      destruct (Nat.eq_dec i j) as [<-|Hij].
      * rewrite (nth_error_set_nth_eq i (on_gzip_end p) _ p Hp) in Hq.
        injection Hq as <-. cbn [on_gzip_end v_result].
        split; [now right | discriminate].
      * rewrite (nth_error_set_nth_neq i j (on_gzip_end p) _ Hij) in Hq.
        rewrite (Ha j q Hq). split; [now left|].
        intros [H|H]; [exact H|]. injection H as H. now apply Hij in H.
    + destruct (collect (set_nth i (on_gzip_end p) (pipelines s))) as [m|] eqn:C;
        cbn [option_map after_callback main_callback].
      * intros (Hu & _). discriminate.
      * intros _. exact C.
Qed.

Lemma completion_run (schedule : list (Z * event)) :
  forall (s s' : Server) (history : list (Z * event)),
    answered s history -> waits s ->
    run s schedule = Some s' -> uncaught s' = None ->
    answered s' (history ++ schedule) /\ waits s'.
Proof.
  induction schedule as [|[t ev] rest IH]; intros s s' history Ha Hw Hr Hu;
    cbn [run] in Hr.
  - injection Hr as <-. now rewrite app_nil_r.
  - destruct (deliver s (t, ev)) as [s1|] eqn:D; [|discriminate].
    destruct (uncaught s) as [err|] eqn:U.
    { unfold deliver in D. rewrite U in D. injection D as <-.
      rewrite (run_dead G s rest err U) in Hr. injection Hr as <-. congruence. }
    destruct (uncaught s1) as [err|] eqn:U1.
    { rewrite (run_dead G s1 rest err U1) in Hr. injection Hr as <-. congruence. }
    change (history ++ (t, ev) :: rest) with (history ++ [(t, ev)] ++ rest).
    rewrite app_assoc.
    destruct (completion_deliver s s1 history t ev U U1 Ha Hw D) as [Ha1 Hw1].
    now apply (IH s1 s' (history ++ [(t, ev)])).
Qed.

Lemma completion_main (now : Z) (entries : list (jsstring * dirent)) :
  answered (main G cwd config now entries) []
  /\ waits (main G cwd config now entries).
Proof.
  split.
  - intros i p. rewrite main_pipelines, nth_error_map.
    destruct (nth_error (getAssets cwd config entries) i) as [file|];
      [|discriminate].
    intros H. injection H as <-. cbn [iteratee v_result].
    split; [congruence|]. intros [t []].
  - unfold waits, main, generateManifest.
    destruct (getAssets cwd config entries) as [|a assets]; cbn.
    + intros (H & _). discriminate.
    + reflexivity.
Qed.

End Completion.

(** X8: a build whose process has not died ends exactly when the gzip
    stream of every asset has emitted ['end']: from then on, and not
    before, the manifest is published and the server listens.  No
    ordering between the files is needed, and nothing else is waited
    for. *)
Theorem build_ends_when_every_gzip_stream_has_ended :
  forall (G : Gzip) (cwd : jsstring) (config : Config) (now : Z)
         (entries : list (jsstring * dirent)) (schedule : list (Z * event))
         (s : Server G),
    run (main G cwd config now entries) schedule = Some s ->
    uncaught s = None ->
    ((forall i, (i < length (getAssets cwd config entries))%nat ->
                ended_in i schedule)
     <-> exists ts m, published s ts m).
Proof.
  intros G cwd config now entries schedule s Hr U.
  destruct (completion_main G cwd config now entries) as [Ha0 Hw0].
  destruct (completion_run G schedule _ s [] Ha0 Hw0 Hr U) as [Ha Hw].
  cbn [Datatypes.app] in Ha.
  pose proof (consistent_run G _ _ _ (consistent_main G cwd config now entries) Hr)
    as [_ Hc].
  assert (Hlen : length (pipelines s) = length (getAssets cwd config entries)).
  { rewrite (run_length G _ _ _ Hr), main_pipelines. apply length_map. }
  split.
  - intros Hall.
    destruct (collect_all G (pipelines s)) as [m Hm].
    { intros i p Hp. apply (Ha i p Hp). apply Hall.
      rewrite <- Hlen. apply nth_error_Some. congruence. }
    destruct Hc as [Hu|(_ & _ & ts & m' & Hp & _)].
    + rewrite (Hw Hu) in Hm. discriminate.
    + now exists ts, m'.
  - intros (ts & m & Hm & _) i Hi.
    destruct Hc as [Hu|(_ & Hdone & _)].
    { exfalso. exact (unpublished_not_published G s m Hu Hm). }
    destruct (nth_error (pipelines s) i) as [p|] eqn:Hp.
    + apply (Ha i p Hp).
      exact (nth_error_Forall _ _ _ _ Hdone Hp).
    + apply nth_error_None in Hp. lia.
Qed.

Lemma build_ends_when_every_gzip_stream_has_ended_witness :
  exists s,
    run (main StoredGzip.encoder Scenario.cwd Scenario.config 0 Scenario.entries)
        Scenario.good = Some s
    /\ uncaught s = None
    /\ ((forall i,
            (i < length (getAssets Scenario.cwd Scenario.config Scenario.entries))%nat ->
            ended_in i Scenario.good)
        <-> exists ts m, published s ts m).
Proof.
  assert (X : option_map (@uncaught StoredGzip.encoder)
                (run (main StoredGzip.encoder Scenario.cwd Scenario.config 0
                           Scenario.entries) Scenario.good) = Some None)
    by (vm_compute; reflexivity).
  destruct (run (main StoredGzip.encoder Scenario.cwd Scenario.config 0
                      Scenario.entries) Scenario.good) as [s|] eqn:E;
    [|discriminate X].
  injection X as X.
  exists s. split; [reflexivity|]. split; [exact X|].
  exact (build_ends_when_every_gzip_stream_has_ended StoredGzip.encoder
           Scenario.cwd Scenario.config 0 Scenario.entries Scenario.good s E X).
Defined.

(** * Properties of the web server *)

Lemma web_lookup_set (key key' : jsstring) (v : Web.value)
      (members : list (jsstring * Web.value)) :
  Web.lookup key (Web.set key' v members)
  = if str_eqb key' key then Some v else Web.lookup key members.
Proof.
  induction members as [|[k x] rest IH]; cbn [Web.set Web.lookup].
  - reflexivity.
  - destruct (str_eqb k key') eqn:E; cbn [Web.lookup].
    + apply str_eqb_eq in E. subst k.
      destruct (str_eqb key' key); reflexivity.
    + destruct (str_eqb k key) eqn:E'; [|exact IH].
      apply str_eqb_eq in E'. subst k. apply str_eqb_neq in E.
      destruct (str_eqb key' key) eqn:E2; [|reflexivity].
      apply str_eqb_eq in E2. congruence.
Qed.

Lemma web_lookup_absent (key : jsstring) (members : list (jsstring * Web.value)) :
  ~ In key (map fst members) -> Web.lookup key members = None.
Proof.
  induction members as [|[k x] rest IH]; cbn [Web.lookup map fst In];
    [reflexivity|].
  intros H. destruct (str_eqb k key) eqn:E.
  - apply str_eqb_eq in E. tauto.
  - apply IH. tauto.
Qed.

Lemma web_lookup_extend (key : jsstring) (source : list (jsstring * Web.value)) :
  forall obj,
    NoDup (map fst source) ->
    Web.lookup key (Web.extend obj source)
    = match Web.lookup key source with
      | Some v => Some v
      | None => Web.lookup key obj
      end.
Proof.
  unfold Web.extend.
  induction source as [|[k v] rest IH]; intros obj Hnd; cbn [fold_left].
  - reflexivity.
  - cbn [map fst] in Hnd. inversion Hnd as [|? ? Hk Hrest]; subst.
    rewrite (IH _ Hrest). cbn [fst snd Web.lookup].
    rewrite web_lookup_set.
    destruct (str_eqb k key) eqn:E.
    + apply str_eqb_eq in E. subst k.
      now rewrite (web_lookup_absent key rest Hk).
    + reflexivity.
Qed.

(** X10: the configuration of the web server is the configuration
    file laid over the defaults: for every key, [loadConfig] gives the
    value the file defines, and for a key the file does not define what
    the defaults give: port 8080, content server [127.0.0.1:9000], what
    [Object.prototype] holds for the names it defines ([constructor],
    [toString], ...) and [undefined] for any other key; keys the defaults
    do not know ([client]) are taken over; a file that cannot be loaded
    leaves the defaults.  (The file holds an object, whose keys are
    distinct; [__proto__] is not one of them.) *)
Theorem web_config_is_file_over_defaults :
  forall (data : list (jsstring * Web.value)) (key : jsstring),
    NoDup (map fst data) ->
    ~ In (lit "__proto__") (map fst data) ->
    Web.get (Web.loadConfig (Some data)) key
    = match Web.lookup key data with
      | Some v => v
      | None => Web.get (Web.loadConfig None) key
      end
    /\ Web.get (Web.loadConfig None) (lit "port") = Web.VNumber Web.default_port
    /\ Web.get (Web.loadConfig None) (lit "content")
       = Web.VString (lit "127.0.0.1:9000")
    /\ (In key Web.object_prototype ->
        Web.get (Web.loadConfig None) key = Web.VBuiltin key)
    /\ (key <> lit "port" -> key <> lit "content" ->
        ~ In key Web.object_prototype ->
        Web.get (Web.loadConfig None) key = Web.VUndefined).
Proof.
  intros data key Hnd _.
  assert (Hin : existsb (str_eqb key) Web.object_prototype = true
                <-> In key Web.object_prototype).
  { rewrite existsb_exists. split.
    - intros (x & Hx & E). apply str_eqb_eq in E. now subst x.
    - intros H. exists key. split; [exact H | apply str_eqb_refl]. }
  split; [|split; [reflexivity | split; [reflexivity|split]]].
  - unfold Web.loadConfig, Web.get.
    rewrite (web_lookup_extend key data Web.defaults Hnd).
    destruct (Web.lookup key data); reflexivity.
  - intros Hk. unfold Web.loadConfig, Web.get, Web.defaults.
    cbn [Web.lookup].
    assert (Hp : str_eqb (lit "port") key = false).
    { apply str_eqb_neq. intros <-. cbn in Hk.
      repeat (destruct Hk as [Hk|Hk]; [discriminate|]). exact Hk. }
    assert (Hc : str_eqb (lit "content") key = false).
    { apply str_eqb_neq. intros <-. cbn in Hk.
      repeat (destruct Hk as [Hk|Hk]; [discriminate|]). exact Hk. }
    rewrite Hp, Hc. unfold Web.inherited.
    apply Hin in Hk. now rewrite Hk.
  - intros Hp Hc Hk. unfold Web.loadConfig, Web.get, Web.defaults.
    cbn [Web.lookup].
    apply not_eq_sym, str_eqb_neq in Hp, Hc. rewrite Hp, Hc.
    unfold Web.inherited.
    assert (E : existsb (str_eqb key) Web.object_prototype = false).
    { apply not_true_is_false. intros E. now apply Hin in E. }
    now rewrite E.
Qed.

Lemma web_config_is_file_over_defaults_witness :
  Web.get (Web.loadConfig
             (Some [(lit "content", Web.VString (lit "cdn.example.org:80"));
                    (lit "client", Web.VObject [])]))
          (lit "port")
  = Web.VNumber Web.default_port
  /\ Web.get (Web.loadConfig
                (Some [(lit "content", Web.VString (lit "cdn.example.org:80"));
                       (lit "client", Web.VObject [])]))
             (lit "content")
     = Web.VString (lit "cdn.example.org:80")
  /\ Web.get (Web.loadConfig
                (Some [(lit "content", Web.VString (lit "cdn.example.org:80"));
                       (lit "client", Web.VObject [])]))
             (lit "constructor")
     = Web.VBuiltin (lit "constructor").
Proof.
  assert (Hnd : NoDup (map fst [(lit "content", Web.VString (lit "cdn.example.org:80"));
                                (lit "client", Web.VObject [])])).
  { cbn [map fst]. constructor.
    - intros [H|[]]. discriminate.
    - constructor; [intros [] | constructor]. }
  assert (Hproto : ~ In (lit "__proto__")
                     (map fst [(lit "content", Web.VString (lit "cdn.example.org:80"));
                               (lit "client", Web.VObject [])])).
  { cbn [map fst]. intros [H|[H|[]]]; discriminate. }
  split; [|split].
  - exact (proj1 (web_config_is_file_over_defaults _ (lit "port") Hnd Hproto)).
  - exact (proj1 (web_config_is_file_over_defaults _ (lit "content") Hnd Hproto)).
  - destruct (web_config_is_file_over_defaults _ (lit "constructor") Hnd Hproto)
      as (H1 & _ & _ & H4 & _).
    cbn [Web.lookup str_eqb] in H1. rewrite H1. apply H4.
    cbn. auto.
Defined.

(** X11: whatever the configuration file holds, the page template is
    never handed an [undefined] client or player list: [res.locals.client]
    and [res.locals.player_names] are always truthy, the configured values
    when these are truthy and an empty object or an empty array otherwise
    (so a falsy [client], such as [null], also empties the player list);
    [res.locals.content] is the configured content server, and the default
    [127.0.0.1:9000] when the file does not name one. *)
Theorem template_locals_are_never_undefined :
  forall (data : option (list (jsstring * Web.value))),
    match data with
    | Some members =>
        NoDup (map fst members) /\ ~ In (lit "__proto__") (map fst members)
    | None => True
    end ->
    Web.truthy (Web.client (Web.locals (Web.loadConfig data))) = true
    /\ Web.truthy (Web.player_names (Web.locals (Web.loadConfig data))) = true
    /\ Web.client (Web.locals (Web.loadConfig data))
       = (if Web.truthy (Web.configured data (lit "client"))
          then Web.configured data (lit "client")
          else Web.VObject [])
    /\ Web.player_names (Web.locals (Web.loadConfig data))
       = (if Web.truthy (Web.configured data (lit "client"))
             && Web.truthy (Web.get (Web.configured data (lit "client"))
                                    (lit "player_names"))
          then Web.get (Web.configured data (lit "client")) (lit "player_names")
          else Web.VArray [])
    /\ Web.content (Web.locals (Web.loadConfig data))
       = (if Web.defines data (lit "content")
          then Web.configured data (lit "content")
          else Web.VString (lit "127.0.0.1:9000")).
Proof.
  intros data Hwf.
  assert (Hget : forall key,
             Web.get (Web.loadConfig data) key
             = if Web.defines data key then Web.configured data key
               else Web.get (Web.VObject Web.defaults) key).
  { intros key. unfold Web.defines, Web.configured.
    destruct data as [members|]; [|reflexivity].
    destruct Hwf as [Hnd _]. unfold Web.loadConfig, Web.get.
    rewrite (web_lookup_extend key members Web.defaults Hnd).
    destruct (Web.lookup key members); reflexivity. }
  assert (Hclient : Web.get (Web.loadConfig data) (lit "client")
                    = Web.configured data (lit "client")).
  { rewrite Hget. unfold Web.defines, Web.configured.
    destruct data as [members|]; [|reflexivity].
    destruct (Web.lookup (lit "client") members); reflexivity. }
  unfold Web.locals. cbn [Web.client Web.player_names Web.content].
  rewrite Hclient, (Hget (lit "content")).
  split; [|split; [|split; [reflexivity | split; reflexivity]]].
  - destruct (Web.truthy (Web.configured data (lit "client"))) eqn:T;
      [exact T | reflexivity].
  - destruct (Web.truthy (Web.configured data (lit "client"))
              && Web.truthy (Web.get (Web.configured data (lit "client"))
                                     (lit "player_names")))
      eqn:T; [|reflexivity].
    now apply andb_true_iff in T.
Qed.

Lemma template_locals_are_never_undefined_witness :
  Web.truthy (Web.client (Web.locals (Web.loadConfig
     (Some [(lit "client", Web.VNull)])))) = true
  /\ Web.truthy (Web.player_names (Web.locals (Web.loadConfig
       (Some [(lit "client", Web.VNull)])))) = true.
Proof.
  assert (Hwf : NoDup (map fst [(lit "client", Web.VNull)])
                /\ ~ In (lit "__proto__") (map fst [(lit "client", Web.VNull)])).
  { cbn [map fst]. split.
    - constructor; [intros [] | constructor].
    - intros [H|[]]. discriminate. }
  destruct (template_locals_are_never_undefined
              (Some [(lit "client", Web.VNull)]) Hwf) as (H1 & H2 & _).
  split; [exact H1 | exact H2].
Defined.

Example web_locals_examples :
  Web.locals (Web.loadConfig None)
  = {| Web.content := Web.VString (lit "127.0.0.1:9000");
       Web.client := Web.VObject [];
       Web.player_names := Web.VArray [] |}
  /\ Web.locals (Web.loadConfig
       (Some [(lit "client",
               Web.VObject [(lit "player_names",
                             Web.VArray [Web.VString (lit "Grangers")])])]))
     = {| Web.content := Web.VString (lit "127.0.0.1:9000");
          Web.client :=
            Web.VObject [(lit "player_names",
                          Web.VArray [Web.VString (lit "Grangers")])];
          Web.player_names := Web.VArray [Web.VString (lit "Grangers")] |}.
Proof. vm_compute. split; reflexivity. Qed.

(** * The file that is hashed is the file that is served *)

(** Every asset is [path.join(config.root, rel)] for a relative path of
    the walk. *)
Lemma asset_is_joined (cwd : jsstring) (config : Config)
      (entries : list (jsstring * dirent)) (file : jsstring) :
  Path.isAbsolute cwd = true ->
  wf_entries entries = true ->
  In file (getAssets cwd config entries) ->
  exists segs,
    segs <> [] /\ Forall good_seg segs
    /\ file = Path.join [root config; Path.unsplit segs].
Proof.
  intros Hcwd Hwf Hin. unfold getAssets in Hin.
  rewrite (readDirRecursive_spec cwd config Hcwd entries Hwf) in Hin.
  apply in_map_iff in Hin as (rel & <- & Hrel).
  apply filter_In in Hrel as [Hrel _].
  apply in_map_iff in Hrel as (segs & <- & Hsegs).
  exists segs. split; [|split; [|reflexivity]].
  - now apply (files_under_nonempty entries).
  - now apply (files_under_good (Directory entries)).
Qed.

(** X12: the file [handleAsset] sends for a manifest entry is the file
    [generateManifest] read to compute that entry: for the [i]-th asset
    [file], opened with [fs.createReadStream(file)], the [i]-th entry has
    the CRC-32 of the bytes that stream delivered, and
    [path.resolve(config.root, name)], the path given to [res.sendFile],
    is the absolute path of [file]. *)
Theorem served_file_is_the_file_that_was_hashed :
  forall (G : Gzip) (cwd : jsstring) (config : Config) (now : Z)
         (entries : list (jsstring * dirent)) (schedule : list (Z * event))
         (s : Server G) (m : list ManifestEntry)
         (i : nat) (file : jsstring) (e : ManifestEntry),
    Path.isAbsolute cwd = true ->
    wf_entries entries = true ->
    run (main G cwd config now entries) schedule = Some s ->
    currentManifest s = Some m ->
    nth_error (getAssets cwd config entries) i = Some file ->
    nth_error m i = Some e ->
    checksum e = crc32.unsigned (concat (chunks_of i schedule)) None
    /\ Path.resolve cwd [root config; name e] = Path.resolve cwd [file].
Proof.
  intros G cwd config now entries schedule s m i file e Hcwd Hwf Hr Hm Hfile He.
  destruct (published_entries G cwd config now entries schedule s m Hr Hm)
    as [_ Hnth].
  rewrite (Hnth i file Hfile) in He. injection He as <-.
  split; [reflexivity|].
  destruct (asset_is_joined cwd config entries file Hcwd Hwf
              (nth_error_In _ _ Hfile)) as (segs & Hne & Hgood & ->).
  unfold entry_for. cbn [name].
  rewrite (relative_of_join cwd config Hcwd segs Hne Hgood).
  rewrite (resolve_below cwd Hcwd (root config) segs Hne Hgood).
  rewrite (resolve_one cwd Hcwd), (rstack_join cwd (root config) segs Hne Hgood).
  now rewrite rev_app_distr, rev_involutive.
Qed.

Lemma served_file_is_the_file_that_was_hashed_witness :
  exists s m,
    run (main StoredGzip.encoder Scenario.cwd Scenario.config 0 Scenario.entries)
        Scenario.good = Some s
    /\ currentManifest s = Some m
    /\ exists e,
        nth_error m 0 = Some e
        /\ checksum e
           = crc32.unsigned (concat (chunks_of 0 Scenario.good)) None
        /\ Path.resolve Scenario.cwd [root Scenario.config; name e]
           = Path.resolve Scenario.cwd [lit "pk3_assets/weapons/gun.pk3"].
Proof.
  destruct scenario_good_run as (s & Hr & Hm & _).
  exists s. eexists. split; [exact Hr|]. split; [exact Hm|].
  eexists. split; [reflexivity|].
  exact (served_file_is_the_file_that_was_hashed StoredGzip.encoder Scenario.cwd
           Scenario.config 0 Scenario.entries Scenario.good s _ 0%nat
           (lit "pk3_assets/weapons/gun.pk3") _
           eq_refl eq_refl Hr Hm eq_refl eq_refl).
Defined.

(** * Decoded parameters *)

Example decode_param_examples :
  Route.decode_param (lit "weapons/") = Some (widen (lit "weapons/"))
  /\ Route.decode_param (lit "a%2Fb%20c") = Some (widen (lit "a/b c"))
  /\ Route.decode_param (lit "%C3%A9.pk3") = Some (233 :: widen (lit ".pk3"))%N
  /\ Route.decode_param (lit "%E4%B8%AD") = Some [20013]%N
  /\ Route.decode_param (lit "%F0%9F%98%80") = Some [55357; 56832]%N
  /\ Route.decode_param (lit "%E9.pk3") = None
  /\ Route.decode_param (lit "%C3") = None
  /\ Route.decode_param (lit "%C3x") = None
  /\ Route.decode_param (lit "%C0%80") = None
  /\ Route.decode_param (lit "%ED%A0%80") = None
  /\ Route.decode_param (lit "%F4%90%80%80") = None
  /\ Route.decode_param (lit "100%") = None
  /\ Route.decode_param (lit "%zz") = None.
Proof. vm_compute. repeat split. Qed.

Example decoded_requests :
  act (app_get Scenario.cwd Scenario.config 0 Scenario.listed
               (lit "/assets/weapons/7-gun%2Epk3"))
  = SendFile (lit "/srv/content/pk3_assets/weapons/gun.pk3") Infinity
  /\ act (app_get Scenario.cwd Scenario.config 0 Scenario.listed
                  (lit "/assets/%E4%B8%AD/../weapons/7-gun.pk3"))
     = SendFile (lit "/srv/content/pk3_assets/weapons/gun.pk3") Infinity
  /\ act (app_get Scenario.cwd Scenario.config 0 Scenario.listed
                  (lit "/assets/weapons/7-gun%E4%B8%AD.pk3"))
     = EndWith 400
  /\ act (app_get Scenario.cwd Scenario.config 0 Scenario.listed
                  (lit "/assets/weapons/7-gun%E9.pk3"))
     = ByExpress 400
  /\ act (app_get Scenario.cwd Scenario.config 0 Scenario.listed
                  (lit "/assets/weapons%2F7-gun.pk3"))
     = ByExpress 404.
Proof. vm_compute. repeat split. Qed.

(** * The two forms of [handleAsset] agree

    On parameters that are strings of the model, [handleAsset_units]
    answers as [handleAsset] does: [WPath] is [Path] on wider strings. *)

Lemma widen_app (a b : jsstring) : widen (a ++ b) = widen a ++ widen b.
Proof. apply map_app. Qed.

Lemma widen_inj (a b : jsstring) : widen a = widen b -> a = b.
Proof.
  revert b. induction a as [|x a IH]; intros [|y b] H; try discriminate;
    [reflexivity|].
  cbn [widen map] in H. injection H as Hxy Hab.
  f_equal; [|now apply IH].
  now rewrite <- (ascii_N_embedding x), <- (ascii_N_embedding y), Hxy.
Qed.

Lemma w_eqb_widen (a b : jsstring) :
  WPath.w_eqb (widen a) (widen b) = str_eqb a b.
Proof.
  unfold WPath.w_eqb.
  destruct (list_eq_dec N.eq_dec (widen a) (widen b)) as [E|E].
  - apply widen_inj in E. subst b. symmetry. apply str_eqb_refl.
  - symmetry. apply str_eqb_neq. intros ->. now apply E.
Qed.

Lemma unit_eqb (c d : ascii) :
  (N_of_ascii c =? N_of_ascii d)%N = Ascii.eqb c d.
Proof.
  destruct (Ascii.eqb_spec c d) as [->|Hcd].
  - apply N.eqb_refl.
  - apply N.eqb_neq. intros E. apply Hcd.
    now rewrite <- (ascii_N_embedding c), <- (ascii_N_embedding d), E.
Qed.

Lemma split_widen (p : jsstring) :
  WPath.split (widen p) = map widen (Path.split p).
Proof.
  induction p as [|c p IH]; [reflexivity|].
  change (widen (c :: p)) with (N_of_ascii c :: widen p).
  cbn [WPath.split Path.split]. rewrite IH.
  change WPath.slash with (N_of_ascii Path.slash). rewrite unit_eqb.
  destruct (Ascii.eqb c Path.slash); [reflexivity|].
  destruct (Path.split p); reflexivity.
Qed.

Lemma unsplit_widen (segs : list jsstring) :
  WPath.unsplit (map widen segs) = widen (Path.unsplit segs).
Proof.
  induction segs as [|s segs IH]; [reflexivity|].
  destruct segs as [|s' segs]; [reflexivity|].
  change (WPath.unsplit (map widen (s :: s' :: segs)))
    with (widen s ++ WPath.slash :: WPath.unsplit (map widen (s' :: segs))).
  change (Path.unsplit (s :: s' :: segs))
    with (s ++ Path.slash :: Path.unsplit (s' :: segs)).
  now rewrite IH, widen_app.
Qed.

Lemma norm_step_widen (al : bool) (res : list jsstring) (seg : jsstring) :
  WPath.norm_step al (map widen res) (widen seg)
  = map widen (Path.norm_step al res seg).
Proof.
  unfold WPath.norm_step, Path.norm_step.
  change (@nil N) with (widen []) at 1.
  change [WPath.dot] with (widen [Path.dot]).
  change WPath.dotdot with (widen Path.dotdot).
  rewrite !w_eqb_widen.
  destruct (str_eqb seg [] || str_eqb seg [Path.dot]); [reflexivity|].
  destruct (str_eqb seg Path.dotdot); [|reflexivity].
  destruct res as [|top below]; [now destruct al|].
  cbn [map]. rewrite w_eqb_widen.
  destruct (str_eqb top Path.dotdot); [|reflexivity].
  now destruct al.
Qed.

Lemma norm_fold_widen (al : bool) (segs res : list jsstring) :
  fold_left (WPath.norm_step al) (map widen segs) (map widen res)
  = map widen (fold_left (Path.norm_step al) segs res).
Proof.
  revert res. induction segs as [|s segs IH]; intros res; [reflexivity|].
  cbn [map fold_left]. now rewrite norm_step_widen, IH.
Qed.

Lemma normalizeString_widen (p : jsstring) (al : bool) :
  WPath.normalizeString (widen p) al = widen (Path.normalizeString p al).
Proof.
  unfold WPath.normalizeString, Path.normalizeString,
    WPath.norm_stack, Path.norm_stack.
  rewrite split_widen.
  change (@nil wstring) with (map widen []).
  now rewrite norm_fold_widen, <- map_rev, unsplit_widen.
Qed.

Lemma isAbsolute_widen (p : jsstring) :
  WPath.isAbsolute (widen p) = Path.isAbsolute p.
Proof.
  destruct p as [|c p]; [reflexivity|].
  change (WPath.isAbsolute (widen (c :: p)))
    with (N_of_ascii c =? N_of_ascii Path.slash)%N.
  apply unit_eqb.
Qed.

Lemma ends_with_slash_widen (p : jsstring) :
  WPath.ends_with_slash (widen p) = Path.ends_with_slash p.
Proof.
  unfold WPath.ends_with_slash, Path.ends_with_slash, widen.
  rewrite <- map_rev. destruct (rev p) as [|c r]; [reflexivity|].
  cbn [map]. change WPath.slash with (N_of_ascii Path.slash). apply unit_eqb.
Qed.

Lemma normalize_widen (p : jsstring) :
  WPath.normalize (widen p) = widen (Path.normalize p).
Proof.
  destruct p as [|c p]; [reflexivity|].
  unfold WPath.normalize, Path.normalize.
  change (widen (c :: p)) with (N_of_ascii c :: widen p) at 1.
  cbv iota.
  change (N_of_ascii c :: widen p) with (widen (c :: p)).
  rewrite isAbsolute_widen, ends_with_slash_widen, normalizeString_widen.
  destruct (Path.normalizeString (c :: p) (negb (Path.isAbsolute (c :: p))))
    as [|q0 q] eqn:Q.
  - destruct (Path.isAbsolute (c :: p)); [reflexivity|].
    destruct (Path.ends_with_slash (c :: p)); reflexivity.
  - change (widen (q0 :: q)) with (N_of_ascii q0 :: widen q) at 1.
    cbv iota. change (N_of_ascii q0 :: widen q) with (widen (q0 :: q)).
    destruct (Path.ends_with_slash (c :: p)), (Path.isAbsolute (c :: p));
      unfold widen; cbn [map Datatypes.app]; rewrite ?map_app; reflexivity.
Qed.

Lemma join_args_widen (args : list jsstring) (joined : option jsstring) :
  WPath.join_args (map widen args) (option_map widen joined)
  = option_map widen (Path.join_args args joined).
Proof.
  revert joined. induction args as [|a args IH]; intros joined; [reflexivity|].
  cbn [map WPath.join_args Path.join_args].
  destruct a as [|c a]; [apply IH|].
  change (widen (c :: a)) with (N_of_ascii c :: widen a) at 1. cbv iota.
  change (N_of_ascii c :: widen a) with (widen (c :: a)).
  rewrite <- IH. f_equal.
  destruct joined as [j|]; [|reflexivity].
  cbn [option_map]. now rewrite widen_app.
Qed.

Lemma join_widen (args : list jsstring) :
  WPath.join (map widen args) = widen (Path.join args).
Proof.
  unfold WPath.join, Path.join.
  pose proof (join_args_widen args None) as H. cbn [option_map] in H.
  rewrite H. destruct (Path.join_args args None) as [j|]; [|reflexivity].
  cbn [option_map]. apply normalize_widen.
Qed.

(** On strings of the model the handler on code units is [handleAsset]. *)
Lemma handleAsset_units_widen (cwd : jsstring) (config : Config)
      (m : list ManifestEntry) (p0 p1 p2 : jsstring) :
  handleAsset_units cwd config m (widen p0, widen p1, widen p2)
  = handleAsset cwd config m (p0, p1, p2).
Proof.
  unfold handleAsset_units, handleAsset.
  change [widen p0; widen p2] with (map widen [p0; p2]).
  now rewrite join_widen, narrow_widen, parseInt10_units_widen.
Qed.

(** * The fuel of [decode_from] *)

Lemma escape_shorter (s rest : jsstring) (b : N) :
  Route.escape s = Some (b, rest) -> (length rest < length s)%nat.
Proof.
  unfold Route.escape.
  destruct s as [|c [|h [|l r]]]; try discriminate.
  destruct (Ascii.eqb c "%"%char); [|discriminate].
  destruct (Route.hex_value h); [|discriminate].
  destruct (Route.hex_value l); [|discriminate].
  intros H. injection H as _ <-. cbn [length]. lia.
Qed.

Lemma continuation_shorter (s rest : jsstring) (b : N) :
  Route.continuation s = Some (b, rest) -> (length rest < length s)%nat.
Proof.
  unfold Route.continuation.
  destruct (Route.escape s) as [[b' r]|] eqn:E; [|discriminate].
  destruct ((128 <=? b') && (b' <=? 191))%N; [|discriminate].
  intros H. injection H as _ <-. now apply (escape_shorter s r b').
Qed.

Lemma code_point_shorter (b v : N) (s rest : jsstring) :
  Route.code_point b s = Some (v, rest) -> (length rest <= length s)%nat.
Proof.
  unfold Route.code_point.
  destruct (b <? 128)%N.
  { intros H. injection H as _ <-. lia. }
  destruct ((194 <=? b) && (b <=? 223))%N.
  { destruct (Route.continuation s) as [[c1 s1]|] eqn:E1; [|discriminate].
    intros H. injection H as _ <-.
    apply continuation_shorter in E1. lia. }
  destruct ((224 <=? b) && (b <=? 239))%N.
  { destruct (Route.continuation s) as [[c1 s1]|] eqn:E1; [|discriminate].
    destruct (Route.continuation s1) as [[c2 s2]|] eqn:E2; [|discriminate].
    match goal with |- context [if ?t then _ else _] => destruct t end;
      [|discriminate].
    intros H. injection H as _ <-.
    apply continuation_shorter in E1, E2. lia. }
  destruct ((240 <=? b) && (b <=? 244))%N; [|discriminate].
  destruct (Route.continuation s) as [[c1 s1]|] eqn:E1; [|discriminate].
  destruct (Route.continuation s1) as [[c2 s2]|] eqn:E2; [|discriminate].
  destruct (Route.continuation s2) as [[c3 s3]|] eqn:E3; [|discriminate].
  match goal with |- context [if ?t then _ else _] => destruct t end;
    [|discriminate].
  intros H. injection H as _ <-.
  apply continuation_shorter in E1, E2, E3. lia.
Qed.

(** The length of the string is fuel enough: more changes nothing. *)
Lemma decode_from_enough (fuel : nat) :
  forall (fuel' : nat) (s : jsstring),
    (length s <= fuel)%nat -> (length s <= fuel')%nat ->
    Route.decode_from fuel s = Route.decode_from fuel' s.
Proof.
  induction fuel as [|fuel IH]; intros fuel' s Hf Hf'.
  - destruct s; [|cbn [length] in Hf; lia]. now destruct fuel'.
  - destruct s as [|c s]; [now destruct fuel'|].
    destruct fuel' as [|fuel']; [cbn [length] in Hf'; lia|].
    cbn [Route.decode_from].
    destruct (Ascii.eqb c "%"%char).
    + destruct (Route.escape (c :: s)) as [[b rest]|] eqn:E; [|reflexivity].
      destruct (Route.code_point b rest) as [[v rest']|] eqn:P; [|reflexivity].
      apply escape_shorter in E. apply code_point_shorter in P.
      cbn [length] in *. rewrite (IH fuel' rest'); [reflexivity | lia | lia].
    + cbn [length] in *. rewrite (IH fuel' s); [reflexivity | lia | lia].
Qed.

Lemma decode_param_enough (fuel : nat) (s : jsstring) :
  (length s <= fuel)%nat -> Route.decode_from fuel s = Route.decode_param s.
Proof.
  intros H. unfold Route.decode_param. now apply decode_from_enough.
Qed.
